(** * card_portfolio: a shallow embedding of the server-side logic

    The development follows the repository's layout:
    - [JS]: the ECMAScript string and number built-ins the server code calls;
    - [PriceService]: server/services/priceService.ts;
    - [Binary64]: the [random] closure of priceService.ts in IEEE 754
      double precision;
    - [Schema]: shared/schema.ts (the [cards] table and [insertCardSchema]);
    - [Sql]: the WHERE conditions and ORDER BY clauses drizzle-orm builds,
      with PostgreSQL's meaning;
    - [Storage]: server/storage.ts ([DatabaseStorage]) over an in-memory table;
    - [ImageRecognition]: server/services/imageRecognitionService.ts;
    - [Routes]: the handlers of server/routes.ts that the properties mention;
    - [Spec]: the notions the specification uses to state them;
    - [Repository], [CardRoutes], [Query]: the partial update of
      server/storage.ts, the card and price endpoints of server/routes.ts,
      and the parts of the list query;
    - [Media], [Validation]: the recognizer's media type with the upload
      filter, and what validation relates;
    - [CardGrid]: the pages of the client's card grid.
    The properties follow, one module per component.

    Numbers are rationals ([Q]): every finite IEEE double is a rational.
    [PriceService] computes the prices and their statistics with exact
    arithmetic, without rounding; [Binary64] gives the estimator's [random]
    closure in double precision, every operation rounded to the nearest
    double. Strings are sequences of code units below 256. *)

From Stdlib Require Import ZArith QArith Qround Qabs Lqa Lia List String Ascii Bool.
From Stdlib Require Import Sorting.Sorted Sorting.Permutation.
From Stdlib Require Import Floats.PrimFloat Floats.FloatOps Floats.SpecFloat.
From stdpp Require Import base option strings gmap pretty sorting.
Import ListNotations.

Local Open Scope string_scope.
Local Open Scope Z_scope.

(* ===================================================================== *)
(** ** ECMAScript built-ins                                               *)
(* ===================================================================== *)

Module JS.

(** A JS number: a finite value, one of the infinities, or NaN. *)
Inductive number : Type :=
| Num (q : Q)
| PosInfinity
| NegInfinity
| NaN.

(** [s.charCodeAt(0)] of a one-character string; characters are the code
    units 0..255. *)
Definition charCodeAt (c : ascii) : Z := Z.of_nat (nat_of_ascii c).

Definition chars (s : string) : list ascii := list_ascii_of_string s.

(** [String.prototype.toLowerCase] on the Latin-1 code units. *)
Definition lower_char (c : ascii) : ascii :=
  let n := nat_of_ascii c in
  if ((65 <=? n)%nat && (n <=? 90)%nat)
     || ((192 <=? n)%nat && (n <=? 222)%nat && negb (n =? 215)%nat)
  then ascii_of_nat (n + 32) else c.

Fixpoint toLowerCase (s : string) : string :=
  match s with
  | EmptyString => EmptyString
  | String c s' => String (lower_char c) (toLowerCase s')
  end.

(** [t.startsWith(s)]. *)
Fixpoint startsWith (s t : string) : bool :=
  match s, t with
  | EmptyString, _ => true
  | String _ _, EmptyString => false
  | String a s', String b t' => Ascii.eqb a b && startsWith s' t'
  end.

(** [t.includes(s)]: [s] occurs in [t] at some position. *)
Fixpoint includes (s t : string) : bool :=
  startsWith s t
  || match t with
     | EmptyString => false
     | String _ t' => includes s t'
     end.

(** White space removed by [trim]: TAB, LF, VT, FF, CR, SP and NBSP. *)
Definition is_space (c : ascii) : bool :=
  let n := nat_of_ascii c in
  ((9 <=? n)%nat && (n <=? 13)%nat) || (n =? 32)%nat || (n =? 160)%nat.

Fixpoint trimStart (s : string) : string :=
  match s with
  | EmptyString => EmptyString
  | String c s' => if is_space c then trimStart s' else s
  end.

Fixpoint trimEnd (s : string) : string :=
  match s with
  | EmptyString => EmptyString
  | String c s' =>
      match trimEnd s' with
      | EmptyString => if is_space c then EmptyString else String c EmptyString
      | r => String c r
      end
  end.

Definition trim (s : string) : string := trimEnd (trimStart s).

(** [s.split(sep)] for a one-character separator. *)
Fixpoint split (sep : ascii) (s : string) : list string :=
  match s with
  | EmptyString => [EmptyString]
  | String c s' =>
      if Ascii.eqb c sep then EmptyString :: split sep s'
      else match split sep s' with
           | [] => [String c EmptyString]
           | p :: ps => String c p :: ps
           end
  end.

(** [arr[i]] for a number [i]: [None] is [undefined]. *)
Definition index {A : Type} (arr : list A) (i : Z) : option A :=
  if i <? 0 then None else nth_error arr (Z.to_nat i).

(** A template-literal hole filled with a possibly undefined string. *)
Definition interpolate (o : option string) : string :=
  match o with
  | Some s => s
  | None => "undefined"
  end.

(** A template-literal hole filled with an integer-valued number. *)
Definition show_int (z : Z) : string := pretty z.

Definition dquote : string := String "034"%char EmptyString.

Definition backslash : ascii := "092"%char.

(** [x.toFixed(2)] read back by [parseFloat], for an exact [x]: the nearest
    multiple of 1/100, a tie going to the larger magnitude; kept in lowest
    terms. (The engine rounds the double nearest to [x], which can be on
    the other side of a tie.) *)
Definition round_half_up (x : Q) : Z := Qfloor (x * 100 + (1 # 2))%Q.

Definition toFixed2 (x : Q) : Q :=
  if Qle_bool 0 x then Qred (round_half_up x # 100)
  else Qred (- (round_half_up (- x) # 100)).

(** [Math.min(...xs)] and [Math.max(...xs)]. *)
Definition Qmin' (a b : Q) : Q := if Qle_bool a b then a else b.
Definition Qmax' (a b : Q) : Q := if Qle_bool a b then b else a.

Definition Math_min (xs : list Q) : number :=
  match xs with
  | [] => PosInfinity
  | x :: xs' => Num (fold_left Qmin' xs' x)
  end.

Definition Math_max (xs : list Q) : number :=
  match xs with
  | [] => NegInfinity
  | x :: xs' => Num (fold_left Qmax' xs' x)
  end.

(** [xs.sort((a, b) => a - b)] on numbers: the ascending, stable order. *)
Fixpoint insert_sorted (x : Q) (l : list Q) : list Q :=
  match l with
  | [] => [x]
  | y :: l' => if Qle_bool x y then x :: l else y :: insert_sorted x l'
  end.

Definition sort_ascending (xs : list Q) : list Q :=
  fold_right insert_sorted [] xs.

(** *** Values and conversions *)

(** The values a parsed CSV/spreadsheet cell or a JSON member can hold;
    [VObject] stands for a plain object. *)
Inductive value : Type :=
| VUndefined
| VNull
| VBool (b : bool)
| VNum (n : number)
| VStr (s : string)
| VObject.

(** ToBoolean: what [if (v)], [!v] and [v || d] test. *)
Definition truthy (v : value) : bool :=
  match v with
  | VUndefined | VNull => false
  | VBool b => b
  | VNum (Num q) => negb (Qeq_bool q 0)
  | VNum NaN => false
  | VNum _ => true
  | VStr s => negb (String.eqb s "")
  | VObject => true
  end.

(** [v || d] *)
Definition or_else (v d : value) : value := if truthy v then v else d.

Definition decimal_digit (c : ascii) : option Z :=
  let n := nat_of_ascii c in
  if (48 <=? n)%nat && (n <=? 57)%nat then Some (Z.of_nat n - 48) else None.

Definition hex_digit (c : ascii) : option Z :=
  let n := nat_of_ascii c in
  if (48 <=? n)%nat && (n <=? 57)%nat then Some (Z.of_nat n - 48)
  else if (65 <=? n)%nat && (n <=? 70)%nat then Some (Z.of_nat n - 55)
  else if (97 <=? n)%nat && (n <=? 102)%nat then Some (Z.of_nat n - 87)
  else None.

Definition octal_digit (c : ascii) : option Z :=
  match decimal_digit c with
  | Some d => if d <? 8 then Some d else None
  | None => None
  end.

Definition binary_digit (c : ascii) : option Z :=
  match decimal_digit c with
  | Some d => if d <? 2 then Some d else None
  | None => None
  end.

(** The longest run of digits at the front of [s]: its value on top of
    [acc], its length on top of [count], and what follows it. *)
Fixpoint scan (digit : ascii -> option Z) (radix : Z) (s : string)
    (acc : Z) (count : nat) : Z * nat * string :=
  match s with
  | EmptyString => (acc, count, s)
  | String c s' =>
      match digit c with
      | Some d => scan digit radix s' (acc * radix + d) (S count)
      | None => (acc, count, s)
      end
  end.

Definition scan_sign (s : string) : bool * string :=
  match s with
  | String "-" s' => (true, s')
  | String "+" s' => (false, s')
  | _ => (false, s)
  end.

(** An ExponentPart at the front of [s], when there is a complete one. *)
Definition scan_exponent (s : string) : Z * string :=
  match s with
  | String c s1 =>
      if Ascii.eqb c "e" || Ascii.eqb c "E" then
        let (neg, s2) := scan_sign s1 in
        let '(e, n, rest) := scan decimal_digit 10 s2 0 0%nat in
        if (n =? 0)%nat then (0, s) else (if neg then - e else e, rest)
      else (0, s)
  | EmptyString => (0, s)
  end.

(** The longest unsigned StrDecimalLiteral at the front of [s]. *)
Definition scan_decimal (s : string) : option (Q * string) :=
  let '(ip, ni, r1) := scan decimal_digit 10 s 0 0%nat in
  let '(fp, nf, r2) :=
    match r1 with
    | String "." t => scan decimal_digit 10 t 0 0%nat
    | _ => (0, 0%nat, r1)
    end in
  if (ni + nf =? 0)%nat then None
  else
    let (e, r3) := scan_exponent r2 in
    Some (((inject_Z ip + inject_Z fp / 10 ^ Z.of_nat nf) * 10 ^ e)%Q, r3).

Fixpoint drop (n : nat) (s : string) : string :=
  match n, s with
  | S n', String _ s' => drop n' s'
  | _, _ => s
  end.

Definition scan_signed_decimal (s : string) : option (number * string) :=
  let (neg, s1) := scan_sign s in
  if startsWith "Infinity" s1
  then Some (if neg then NegInfinity else PosInfinity, drop 8 s1)
  else match scan_decimal s1 with
       | Some (q, r) => Some (Num (if neg then - q else q)%Q, r)
       | None => None
       end.

Definition all_digits (digit : ascii -> option Z) (radix : Z) (s : string)
  : number :=
  match scan digit radix s 0 0%nat with
  | (v, S _, EmptyString) => Num (inject_Z v)
  | _ => NaN
  end.

(** [Number(s)] on a string (StringToNumber). *)
Definition Number_of_string (s : string) : number :=
  let t := trim s in
  if String.eqb t "" then Num 0
  else if startsWith "0x" t || startsWith "0X" t
  then all_digits hex_digit 16 (drop 2 t)
  else if startsWith "0o" t || startsWith "0O" t
  then all_digits octal_digit 8 (drop 2 t)
  else if startsWith "0b" t || startsWith "0B" t
  then all_digits binary_digit 2 (drop 2 t)
  else match scan_signed_decimal t with
       | Some (n, EmptyString) => n
       | _ => NaN
       end.

(** [parseFloat(s)] on a string. *)
Definition parseFloat_string (s : string) : number :=
  match scan_signed_decimal (trimStart s) with
  | Some (n, _) => n
  | None => NaN
  end.

(** [parseInt(s)] and [parseInt(s, 10)] on a string; only the call
    without a radix accepts the [0x] prefix. *)
Definition parseInt_string (radix10 : bool) (s : string) : number :=
  let (neg, t) := scan_sign (trimStart s) in
  let '(v, n, _) :=
    if negb radix10 && (startsWith "0x" t || startsWith "0X" t)
    then scan hex_digit 16 (drop 2 t) 0 0%nat
    else scan decimal_digit 10 t 0 0%nat in
  if (n =? 0)%nat then NaN
  else Num (inject_Z (if neg then - v else v)).

(** The digits of the fraction [r] (with [0 <= r < 1]). *)
Fixpoint fraction_digits (fuel : nat) (r : Q) : string :=
  match fuel with
  | O => EmptyString
  | S fuel' =>
      if Qeq_bool r 0 then EmptyString
      else let d := Qfloor (r * 10) in
           pretty d ++ fraction_digits fuel' (r * 10 - inject_Z d)%Q
  end.

(** Number::toString for finite values in plain decimal notation. *)
Definition show_number (q : Q) : string :=
  let a := Qabs q in
  let ip := Qfloor a in
  let frac := fraction_digits (Pos.size_nat (Qden q)) (a - inject_Z ip)%Q in
  (if Qle_bool 0 q then "" else "-")
    ++ pretty ip
    ++ (match frac with EmptyString => "" | _ => "." ++ frac end).

Definition ToString (v : value) : string :=
  match v with
  | VUndefined => "undefined"
  | VNull => "null"
  | VBool true => "true"
  | VBool false => "false"
  | VNum (Num q) => show_number q
  | VNum PosInfinity => "Infinity"
  | VNum NegInfinity => "-Infinity"
  | VNum NaN => "NaN"
  | VStr s => s
  | VObject => "[object Object]"
  end.

(** ToNumber *)
Definition Number (v : value) : number :=
  match v with
  | VUndefined => NaN
  | VNull => Num 0
  | VBool true => Num 1
  | VBool false => Num 0
  | VNum n => n
  | VStr s => Number_of_string s
  | VObject => NaN
  end.

Definition parseInt (v : value) : number := parseInt_string false (ToString v).
Definition parseInt10 (v : value) : number := parseInt_string true (ToString v).
Definition parseFloat (v : value) : number := parseFloat_string (ToString v).

(** [typeof]-like tag zod reports for a rejected value. *)
Definition received (v : value) : string :=
  match v with
  | VUndefined => "undefined"
  | VNull => "null"
  | VBool _ => "boolean"
  | VNum NaN => "nan"
  | VNum _ => "number"
  | VStr _ => "string"
  | VObject => "object"
  end.

End JS.

(* ===================================================================== *)
(** ** server/services/priceService.ts                                    *)
(* ===================================================================== *)

Module PriceService.
Import JS.

Record EbaySoldItem : Type := {
  title : string;
  price : Q;
  date : option string;       (* [None]: an out-of-range [dates[...]] *)
  link : string;
  imageUrl : string
}.

Record PriceAnalysis : Type := {
  items : list EbaySoldItem;
  averagePrice : number;
  minPrice : number;
  maxPrice : number;
  medianPrice : number;
  totalResults : nat;
  searchQuery : string
}.

(** What [log(message, source)] appends to. *)
Definition Console := list (string * string).

Definition log (message source : string) (out : Console) : Console :=
  (out ++ [(message, source)])%list.

(** Computations over the closure variable [seed]. *)
Definition Rand (A : Type) : Type := Z -> A * Z.

Definition ret {A} (a : A) : Rand A := fun seed => (a, seed).

Definition bind {A B} (c : Rand A) (k : A -> Rand B) : Rand B :=
  fun seed => let (a, seed') := c seed in k a seed'.

Notation "x <- c ;; k" := (bind c (fun x => k))
  (at level 100, c at next level, right associativity).

(** [searchQuery.split('').reduce((acc, char) => acc + char.charCodeAt(0), 0)] *)
Definition initial_seed (searchQuery : string) : Z :=
  fold_left (fun acc char => acc + charCodeAt char) (chars searchQuery) 0.

Definition conditionTerms : list string :=
  ["Mint"; "NM"; "NM-MT"; "VG-EX"; "GD"].
Definition extraTerms : list string :=
  ["Shipped in Top Loader"; "w/ One Touch"; "HOT!"; "LOOK"].
Definition dates : list string :=
  ["May 1"; "May 2"; "May 3"; "May 4"; "May 5"; "May 6"; "May 7"].

Definition len {A} (l : list A) : Z := Z.of_nat (length l).

(** The base price before the random perturbation (lines 40-52). *)
Definition keyword_base_price (searchQuery : string) : Z :=
  let basePrice := 5 in
  let terms := toLowerCase searchQuery in
  let basePrice :=
    if includes "rookie" terms || includes "rc" terms
    then basePrice + 20 else basePrice in
  let basePrice :=
    if includes "autograph" terms || includes "auto" terms
    then basePrice + 50 else basePrice in
  let basePrice :=
    if includes "1st" terms || includes "first edition" terms
    then basePrice + 30 else basePrice in
  let basePrice :=
    if includes "refractor" terms || includes "prizm" terms
    then basePrice + 15 else basePrice in
  let basePrice :=
    if includes "patch" terms || includes "jersey" terms
    then basePrice + 25 else basePrice in
  let basePrice :=
    if includes "psa" terms || includes "bgs" terms
    then basePrice + 40 else basePrice in
  let basePrice :=
    if includes "parallel" terms || includes "numbered" terms
    then basePrice + 20 else basePrice in
  let basePrice :=
    if includes "ssp" terms || includes "rare" terms
    then basePrice + 35 else basePrice in
  basePrice.

Section WithSine.

(** [Math.sin] at the integer values [seed] takes: engine-defined. *)
Variable Math_sin : Z -> Q.

(** The closure [random] (lines 33-37) in exact arithmetic; [seed++] is
    the new state. [Binary64.random] is the closure in double precision. *)
Definition random (min max : Z) : Rand Z := fun seed =>
  let x := (Math_sin seed * 10000)%Q in
  let r := (x - inject_Z (Qfloor x))%Q in
  (Qfloor (r * inject_Z (max - min + 1) + inject_Z min)%Q, seed + 1).

(** One iteration of the loop (lines 65-82); the property values of the
    pushed object are evaluated in source order. *)
Definition generate_item (searchQuery : string) (basePrice : Q)
  : Rand EbaySoldItem :=
  v <- random (-40) 40 ;;
  let priceVariance := (basePrice * (inject_Z v / 100))%Q in
  let price := (basePrice + priceVariance)%Q in
  ci <- random 0 (len conditionTerms - 1) ;;
  let condition := index conditionTerms ci in
  flip <- random 0 1 ;;
  extra <- (if flip =? 1
            then ei <- random 0 (len extraTerms - 1) ;;
                 ret (index extraTerms ei)
            else ret (Some "")) ;;
  di <- random 0 (len dates - 1) ;;
  l <- random 100000000 999999999 ;;
  im <- random 10000 99999 ;;
  ret {| title := trim (searchQuery ++ " - " ++ interpolate condition
                          ++ " " ++ interpolate extra);
         price := toFixed2 price;
         date := index dates di;
         link := "https://www.ebay.com/itm/" ++ show_int l;
         imageUrl := "https://i.ebayimg.com/images/g/" ++ show_int im
                       ++ "/s-l1600.jpg" |}.

(** [for (let i = 0; i < itemCount; i++) items.push(...)] *)
Fixpoint generate_loop (searchQuery : string) (basePrice : Q) (n : nat)
  : Rand (list EbaySoldItem) :=
  match n with
  | O => ret []
  | S n' =>
      item <- generate_item searchQuery basePrice ;;
      rest <- generate_loop searchQuery basePrice n' ;;
      ret (item :: rest)
  end.

(** Lines 31-83: the array [items] when the loop has finished. *)
Definition generate_items (searchQuery : string) : list EbaySoldItem :=
  fst ((k <- random (-20) 20 ;;
        let basePrice :=
          (inject_Z (keyword_base_price searchQuery)
           * (1 + inject_Z k / 100))%Q in
        itemCount <- random 5 15 ;;
        generate_loop searchQuery basePrice (Z.to_nat itemCount))
         (initial_seed searchQuery)).

Definition sum_prices (prices : list Q) : Q :=
  fold_left (fun sum price => (sum + price)%Q) prices 0%Q.

(** Line 89, in exact arithmetic: the mean, [NaN] (0 / 0) for no price. *)
Definition average (prices : list Q) : number :=
  match prices with
  | [] => NaN
  | _ => Num (sum_prices prices / inject_Z (len prices))
  end.

(** Lines 96-104. *)
Definition median (prices : list Q) : number :=
  let sortedPrices := sort_ascending prices in
  let middle := Z.of_nat (length sortedPrices) / 2 in
  if Z.of_nat (length sortedPrices) mod 2 =? 0 then
    match index sortedPrices (middle - 1), index sortedPrices middle with
    | Some a, Some b => Num ((a + b) / 2)
    | _, _ => NaN
    end
  else
    match index sortedPrices middle with
    | Some a => Num a
    | None => NaN
    end.

(** Lines 85-114. *)
Definition analyse (searchQuery : string) (items : list EbaySoldItem)
  : PriceAnalysis :=
  let prices := map price items in
  {| items := firstn 10 items;
     averagePrice := average prices;
     minPrice := Math_min prices;
     maxPrice := Math_max prices;
     medianPrice := median prices;
     totalResults := length items;
     searchQuery := searchQuery |}.

(** [scrapeEbayPrices]: nothing in the [try] block throws, so the
    all-zero fallback of the [catch] block is never produced. *)
Definition scrapeEbayPrices (searchQuery : string) (out : Console)
  : PriceAnalysis * Console :=
  let out := log ("Generating price analysis for " ++ dquote
                    ++ searchQuery ++ dquote) "price-service" out in
  (analyse searchQuery (generate_items searchQuery), out).

End WithSine.

End PriceService.

(* ===================================================================== *)
(** ** Double-precision arithmetic                                        *)
(* ===================================================================== *)

(** The closure [random] of the price estimator as the engine computes it:
    every [number] is an IEEE 754 binary64 value, and every operation
    rounds its exact result to the nearest one, a tie going to the even
    significand. A finite double is the rational it denotes; the sign of
    zero is not kept. *)
Module Binary64.
Import JS PriceService.

(** Every finite double is a multiple of [2^-1074], and below [2^1024] in
    magnitude. *)
Definition scale : Z := 2 ^ 1074.
Definition huge : Z := 2 ^ 1024.

(** The nearest integer, a tie going to the even one. *)
Definition rne (x : Q) : Z :=
  let f := Qfloor x in
  match (x - inject_Z f ?= 1 # 2)%Q with
  | Lt => f
  | Gt => f + 1
  | Eq => if Z.even f then f else f + 1
  end.

(** For [t >= 0] counted in units of [2^-1074]: the doubles around [t] are
    the multiples of [2^(spacing t)], which leaves 53 significant bits, and
    every multiple of the unit among the subnormals. *)
Definition spacing (t : Q) : Z := Z.max 0 (Z.log2 (Qfloor t) - 52).

Definition round_scaled (t : Q) : Z :=
  let s := spacing t in rne (t / inject_Z (2 ^ s)) * 2 ^ s.

Definition nearest_magnitude (q : Q) : Q :=
  (inject_Z (round_scaled (q * inject_Z scale)) / inject_Z scale)%Q.

(** Rounding to nearest, before the overflow is looked at. *)
Definition nearest (q : Q) : Q :=
  if Qle_bool 0 q then nearest_magnitude q else (- nearest_magnitude (- q))%Q.

(** The double an exact result [q] is rounded to. *)
Definition round64 (q : Q) : number :=
  let r := nearest q in
  if Qle_bool (inject_Z huge) r then PosInfinity
  else if Qle_bool r (- inject_Z huge) then NegInfinity
  else Num (Qred r).

Definition opp (a : number) : number :=
  match a with
  | Num x => Num (Qred (- x))
  | PosInfinity => NegInfinity
  | NegInfinity => PosInfinity
  | NaN => NaN
  end.

(** [a + b] *)
Definition add (a b : number) : number :=
  match a, b with
  | NaN, _ | _, NaN => NaN
  | PosInfinity, NegInfinity | NegInfinity, PosInfinity => NaN
  | PosInfinity, _ | _, PosInfinity => PosInfinity
  | NegInfinity, _ | _, NegInfinity => NegInfinity
  | Num x, Num y => round64 (x + y)
  end.

(** [a - b] *)
Definition sub (a b : number) : number := add a (opp b).

Definition infinity_times (positive : bool) (y : Q) : number :=
  match (y ?= 0)%Q with
  | Eq => NaN
  | Gt => if positive then PosInfinity else NegInfinity
  | Lt => if positive then NegInfinity else PosInfinity
  end.

(** [a * b] *)
Definition mul (a b : number) : number :=
  match a, b with
  | NaN, _ | _, NaN => NaN
  | Num x, Num y => round64 (x * y)
  | PosInfinity, Num y | Num y, PosInfinity => infinity_times true y
  | NegInfinity, Num y | Num y, NegInfinity => infinity_times false y
  | PosInfinity, PosInfinity | NegInfinity, NegInfinity => PosInfinity
  | PosInfinity, NegInfinity | NegInfinity, PosInfinity => NegInfinity
  end.

(** [Math.floor(a)]: exact. *)
Definition floor (a : number) : number :=
  match a with
  | Num x => Num (inject_Z (Qfloor x))
  | _ => a
  end.

(** An integer literal, or the length of an array. *)
Definition of_Z (z : Z) : number := round64 (inject_Z z).

(** The number a machine double denotes, to compare the operations above
    with the processor's. *)
Definition of_float (x : float) : number :=
  match Prim2SF x with
  | S754_zero _ => Num 0
  | S754_infinity false => PosInfinity
  | S754_infinity true => NegInfinity
  | S754_nan => NaN
  | S754_finite negative m e =>
      let magnitude :=
        (if 0 <=? e then inject_Z (Z.pos m * 2 ^ e)
         else inject_Z (Z.pos m) / inject_Z (2 ^ (- e)))%Q in
      Num (Qred (if negative then - magnitude else magnitude))
  end.

(** Lines 34-35: [x = Math.sin(seed) * 10000] and [r = x - Math.floor(x)],
    where [Math_sin] is the sine the engine returns at the integer [seed]. *)
Definition fraction (Math_sin : Z -> Q) (seed : Z) : number :=
  let x := mul (round64 (Math_sin seed)) (Num 10000) in
  sub x (floor x).

(** The closure [random] (lines 33-37), with the new value of [seed]. A
    seed is a sum of character codes plus the number of calls made so far,
    an integer far below [2^53], so [seed++] is exact. *)
Definition random (Math_sin : Z -> Q) (min max : number) (seed : Z)
  : number * Z :=
  let r := fraction Math_sin seed in
  (floor (add (mul r (add (sub max min) (Num 1))) min), seed + 1).

(** [arr[i]] for a number [i]: an element when [i] is an integer index,
    [None] ([undefined]) otherwise. *)
Definition element {A : Type} (arr : list A) (i : number) : option A :=
  match i with
  | Num q => if Qeq_bool q (inject_Z (Qfloor q)) then index arr (Qfloor q)
             else None
  | _ => None
  end.

(** [arr.length - 1] *)
Definition last_index {A : Type} (arr : list A) : number :=
  sub (of_Z (len arr)) (Num 1).

(** [arr[random(0, arr.length - 1)]] (lines 73, 74 and 79). *)
Definition select {A : Type} (Math_sin : Z -> Q) (arr : list A) (seed : Z)
  : option A :=
  element arr (fst (random Math_sin (of_Z 0) (last_index arr) seed)).

(** The bounds of the calls of [random] in the estimator, in source order
    (lines 55, 58, 66, 73, 74, 74, 79, 80 and 81). *)
Definition call_bounds : list (Z * Z) :=
  [(-20, 20); (5, 15); (-40, 40); (0, len conditionTerms - 1); (0, 1);
   (0, len extraTerms - 1); (0, len dates - 1);
   (100000000, 999999999); (10000, 99999)].

(** The largest double below 1. *)
Definition pred_one : Q := 9007199254740991 # 9007199254740992.

(** Whether [Math.floor(r * (max - min + 1) + min)] is within [[min, max]]
    at both ends, 0 and [pred_one], of the range of a fraction [r]
    below 1. *)
Definition ends_in_range (min max : Z) : bool :=
  match of_Z min, add (sub (of_Z max) (of_Z min)) (Num 1) with
  | Num m, Num n =>
      let top := nearest (pred_one * n) in
      Qle_bool 0 n
      && negb (Qle_bool (inject_Z huge) top)
      && negb (Qle_bool (nearest (0 + m)) (- inject_Z huge))
      && negb (Qle_bool (inject_Z huge) (nearest (top + m)))
      && (min <=? Qfloor (nearest (0 + m)))
      && (Qfloor (nearest (top + m)) <=? max)
  | _, _ => false
  end.

End Binary64.

(* ===================================================================== *)
(** ** shared/schema.ts                                                   *)
(* ===================================================================== *)

Module Schema.
Import JS.

(** A row of [users]. *)
Module User.
Record t : Type := { id : Z; username : string; password : string }.
End User.

(** A row of [cards] ([typeof cards.$inferSelect]); [None] is SQL NULL. *)
Module Card.
Record t : Type := {
  id : Z;
  playerName : string;
  sport : string;
  year : Z;
  brand : string;
  cardSet : option string;
  condition : string;
  purchasePrice : option number;
  currentValue : option number;
  notes : option string;
  imageUrl : option string;
  cardNumber : option string;
  userId : option Z;
  createdAt : option Z
}.
End Card.

(** The output type of [insertCardSchema]. *)
Module InsertCard.
Record t : Type := {
  playerName : string;
  sport : string;
  year : Z;
  brand : string;
  cardSet : string;
  condition : string;
  purchasePrice : number;
  currentValue : number;
  notes : string;
  imageUrl : string;
  cardNumber : string;
  userId : option number
}.
End InsertCard.

Definition INT32_MIN : Z := -2147483648.
Definition INT32_MAX : Z := 2147483647.

(** The integer a number is, when it is one. *)
Definition as_integer (n : number) : option Z :=
  match n with
  | Num q => if Qeq_bool q (inject_Z (Qfloor q)) then Some (Qfloor q) else None
  | _ => None
  end.

Definition is_int32 (z : Z) : bool := (INT32_MIN <=? z) && (z <=? INT32_MAX).

(** A JS object with string keys; a missing key reads as [undefined]. *)
Definition get (o : gmap string value) (key : string) : value :=
  default VUndefined (o !! key).

(** *** zod *)

Record ZodIssue : Type := { message : string; path : string }.

(** The outcome of one member's schema: a value or an issue message. *)
Definition Parsed (A : Type) : Type := string + A.

Definition invalid_type (expected : string) (v : value) : string :=
  match v with
  | VUndefined => "Required"
  | _ => "Expected " ++ expected ++ ", received " ++ received v
  end.

(** [z.string()] *)
Definition z_string (v : value) : Parsed string :=
  match v with
  | VStr s => inr s
  | _ => inl (invalid_type "string" v)
  end.

(** [z.number()] *)
Definition z_number (v : value) : Parsed number :=
  match v with
  | VNum NaN => inl (invalid_type "number" v)
  | VNum n => inr n
  | _ => inl (invalid_type "number" v)
  end.

(** The schema drizzle-zod derives for an [integer] column: a number
    that is an integer in the 32-bit range. (Releases that derive a bare
    [z.number()] leave the same values to be refused by the INSERT.) *)
Definition z_int32 (v : value) : Parsed Z :=
  match z_number v with
  | inl e => inl e
  | inr n =>
      match as_integer n with
      | None => inl (match n with
                     | Num _ => "Expected integer, received float"
                     | _ => "Number must be finite"
                     end)
      | Some z =>
          if z <? INT32_MIN
          then inl "Number must be greater than or equal to -2147483648"
          else if INT32_MAX <? z
          then inl "Number must be less than or equal to 2147483647"
          else inr z
      end
  end.

(** [schema.optional().default(d)] *)
Definition optional_default {A} (schema : value -> Parsed A) (d : A)
    (v : value) : Parsed A :=
  match v with
  | VUndefined => inr d
  | _ => schema v
  end.

(** [z.coerce.number().default(0)] *)
Definition z_coerce_number_default (d : number) (v : value) : Parsed number :=
  match v with
  | VUndefined => inr d
  | _ => z_number (VNum (Number v))
  end.

(** [z.number().optional().nullable()] *)
Definition z_number_optional_nullable (v : value) : Parsed (option number) :=
  match v with
  | VUndefined | VNull => inr None
  | _ => match z_number v with
         | inl e => inl e
         | inr n => inr (Some n)
         end
  end.

Definition issues_of {A} (key : string) (r : Parsed A) : list ZodIssue :=
  match r with
  | inl m => [{| message := m; path := key |}]
  | inr _ => []
  end.

(** [insertCardSchema.safeParse(input)] on an object: every member is
    checked, unknown keys are stripped; the issues come in key order. *)
Definition safeParse (input : gmap string value)
  : list ZodIssue + InsertCard.t :=
  let playerName := z_string (get input "playerName") in
  let sport := z_string (get input "sport") in
  let year := z_int32 (get input "year") in
  let brand := z_string (get input "brand") in
  let cardSet := optional_default z_string "" (get input "cardSet") in
  let condition := z_string (get input "condition") in
  let purchasePrice :=
    z_coerce_number_default (Num 0) (get input "purchasePrice") in
  let currentValue :=
    optional_default z_number (Num 0) (get input "currentValue") in
  let notes := optional_default z_string "" (get input "notes") in
  let imageUrl := optional_default z_string "" (get input "imageUrl") in
  let cardNumber := optional_default z_string "" (get input "cardNumber") in
  let userId := z_number_optional_nullable (get input "userId") in
  match playerName, sport, year, brand, cardSet, condition,
        purchasePrice, currentValue, notes, imageUrl, cardNumber, userId with
  | inr playerName, inr sport, inr year, inr brand, inr cardSet,
    inr condition, inr purchasePrice, inr currentValue, inr notes,
    inr imageUrl, inr cardNumber, inr userId =>
      inr {| InsertCard.playerName := playerName;
             InsertCard.sport := sport;
             InsertCard.year := year;
             InsertCard.brand := brand;
             InsertCard.cardSet := cardSet;
             InsertCard.condition := condition;
             InsertCard.purchasePrice := purchasePrice;
             InsertCard.currentValue := currentValue;
             InsertCard.notes := notes;
             InsertCard.imageUrl := imageUrl;
             InsertCard.cardNumber := cardNumber;
             InsertCard.userId := userId |}
  | _, _, _, _, _, _, _, _, _, _, _, _ =>
      inl (issues_of "playerName" playerName ++ issues_of "sport" sport
           ++ issues_of "year" year ++ issues_of "brand" brand
           ++ issues_of "cardSet" cardSet ++ issues_of "condition" condition
           ++ issues_of "purchasePrice" purchasePrice
           ++ issues_of "currentValue" currentValue
           ++ issues_of "notes" notes ++ issues_of "imageUrl" imageUrl
           ++ issues_of "cardNumber" cardNumber
           ++ issues_of "userId" userId)%list
  end.

(** [fromZodError(error).message] *)
Fixpoint join (sep : string) (parts : list string) : string :=
  match parts with
  | [] => ""
  | [p] => p
  | p :: ps => p ++ sep ++ join sep ps
  end.

Definition fromZodError (issues : list ZodIssue) : string :=
  "Validation error: "
    ++ join "; " (map (fun i => message i ++ " at " ++ dquote ++ path i
                                  ++ dquote) issues).

End Schema.

(* ===================================================================== *)
(** ** The datastore: SQL conditions as drizzle-orm builds them           *)
(* ===================================================================== *)

Module Sql.
Import JS Schema.

(** A token of a LIKE pattern. *)
Inductive Token : Type :=
| AnyString            (* % *)
| AnyChar              (* _ *)
| Literal (c : ascii).

(** PostgreSQL reads a LIKE pattern with backslash as the escape
    character. (A pattern ending in a lone backslash is an error there; a
    pattern that ends in [%] never does.) *)
Fixpoint tokens (pattern : string) : list Token :=
  match pattern with
  | EmptyString => []
  | String c rest =>
      if Ascii.eqb c backslash then
        match rest with
        | String c' rest' => Literal c' :: tokens rest'
        | EmptyString => [Literal c]
        end
      else if Ascii.eqb c "%" then AnyString :: tokens rest
      else if Ascii.eqb c "_" then AnyChar :: tokens rest
      else Literal c :: tokens rest
  end.

(** LIKE compares character by character, case-sensitively. *)
Fixpoint matches (p : list Token) (t : string) {struct p} : bool :=
  match p with
  | [] => match t with EmptyString => true | _ => false end
  | AnyString :: p' =>
      (fix skip (t : string) : bool :=
         matches p' t
         || match t with
            | EmptyString => false
            | String _ t' => skip t'
            end) t
  | AnyChar :: p' =>
      match t with
      | EmptyString => false
      | String _ t' => matches p' t'
      end
  | Literal c :: p' =>
      match t with
      | EmptyString => false
      | String d t' => Ascii.eqb c d && matches p' t'
      end
  end.

(** A WHERE condition: whether the server accepts the statement's
    parameters (a number bound to an integer column is a 32-bit integer, a
    text holds no NUL character), and its three-valued truth on a row
    ([None] is NULL). *)
Record Condition : Type := {
  well_typed : bool;
  holds : Card.t -> option bool
}.

Definition and3 (a b : option bool) : option bool :=
  match a, b with
  | Some false, _ | _, Some false => Some false
  | Some true, Some true => Some true
  | _, _ => None
  end.

Definition or3 (a b : option bool) : option bool :=
  match a, b with
  | Some true, _ | _, Some true => Some true
  | Some false, Some false => Some false
  | _, _ => None
  end.

(** PostgreSQL refuses a text parameter that holds a NUL character (the
    code unit 0): the statement fails when the parameter is bound, before
    it runs. *)
Definition text_param (s : string) : bool :=
  negb (includes (String "000" EmptyString) s).

(** [like(column, pattern)] on a nullable text column; the pattern is a
    text parameter. *)
Definition like (column : Card.t -> option string) (pattern : string)
  : Condition :=
  {| well_typed := text_param pattern;
     holds := fun row => match column row with
                         | None => None
                         | Some t => Some (matches (tokens pattern) t)
                         end |}.

(** [eq(column, text)] on a text column; the text is a parameter. *)
Definition eq_text (column : Card.t -> string) (s : string) : Condition :=
  {| well_typed := text_param s;
     holds := fun row => Some (String.eqb (column row) s) |}.

(** A number bound to a parameter compared with an [integer] column has
    to be a 32-bit integer, or the statement fails. *)
Definition int4_param (n : number) : option Z :=
  match as_integer n with
  | Some z => if is_int32 z then Some z else None
  | None => None
  end.

Definition compare_int (op : Z -> Z -> bool) (column : Card.t -> Z)
    (n : number) : Condition :=
  match int4_param n with
  | Some z => {| well_typed := true;
                 holds := fun row => Some (op (column row) z) |}
  | None => {| well_typed := false; holds := fun _ => None |}
  end.

(** [eq(column, n)], [gte(column, n)], [lte(column, n)]. *)
Definition eq_int := compare_int Z.eqb.
Definition gte := compare_int Z.geb.
Definition lte := compare_int Z.leb.

(** [and(...conditions)] and [or(...conditions)]. *)
Definition and_ (conditions : list Condition) : Condition :=
  {| well_typed := forallb well_typed conditions;
     holds := fun row =>
       fold_right (fun c acc => and3 (holds c row) acc) (Some true)
                  conditions |}.

Definition or_ (conditions : list Condition) : Condition :=
  {| well_typed := forallb well_typed conditions;
     holds := fun row =>
       fold_right (fun c acc => or3 (holds c row) acc) (Some false)
                  conditions |}.

(** A row is selected when the condition is true (not false, not NULL). *)
Definition selected (where_ : Condition) (row : Card.t) : bool :=
  match holds where_ row with
  | Some true => true
  | _ => false
  end.

(** *** ORDER BY: a stable sort; NULL counts as larger than any value. *)

Definition Order := Card.t -> Card.t -> bool.

Definition null_last {A} (le : A -> A -> bool) (a b : option A) : bool :=
  match a, b with
  | _, None => true
  | None, Some _ => false
  | Some x, Some y => le x y
  end.

Definition number_le (a b : number) : bool :=
  match a, b with
  | _, NaN => true
  | NaN, _ => false
  | NegInfinity, _ => true
  | _, NegInfinity => false
  | _, PosInfinity => true
  | PosInfinity, _ => false
  | Num x, Num y => Qle_bool x y
  end.

Definition text_le (a b : string) : bool := String.leb a b.

Definition asc {A} (le : A -> A -> bool) (column : Card.t -> A) : Order :=
  fun r1 r2 => le (column r1) (column r2).

Definition desc {A} (le : A -> A -> bool) (column : Card.t -> A) : Order :=
  fun r1 r2 => le (column r2) (column r1).

Fixpoint insert_row (le : Order) (r : Card.t) (rows : list Card.t)
  : list Card.t :=
  match rows with
  | [] => [r]
  | r' :: rows' =>
      if le r r' then r :: rows else r' :: insert_row le r rows'
  end.

Definition orderBy (le : Order) (rows : list Card.t) : list Card.t :=
  fold_right (insert_row le) [] rows.

End Sql.

(* ===================================================================== *)
(** ** server/storage.ts                                                  *)
(* ===================================================================== *)

Module Storage.
Import JS Schema Sql.

(** The database: both tables, the [serial] sequence of [cards.id] and
    the clock [defaultNow()] reads. *)
Record Db : Type := {
  users : list User.t;
  cards : list Card.t;
  cards_id_seq : Z;
  now : Z
}.

Definition set_cards (db : Db) (rows : list Card.t) : Db :=
  {| users := users db; cards := rows;
     cards_id_seq := cards_id_seq db; now := now db |}.

(** [getAllCards] *)
Definition getAllCards (db : Db) : list Card.t :=
  orderBy (desc Z.leb Card.id) (cards db).

(** [getCard] *)
Definition getCard (id : Z) (db : Db) : option Card.t :=
  head (List.filter (fun row => Card.id row =? id) (cards db)).

(** A text the server accepts as a parameter: one without a NUL
    character. *)
Definition text_ok (s : string) : bool :=
  negb (includes (String "000" EmptyString) s).

(** The [user_id] an INSERT binds: NULL, or a 32-bit integer; [None] when
    the number is none. *)
Definition user_param (u : option number) : option (option Z) :=
  match u with
  | None => Some None
  | Some n => option_map Some (int4_param n)
  end.

(** The [user_id] is NULL or the id of a user. *)
Definition known_user (db : Db) (userId : option Z) : bool :=
  match userId with
  | None => true
  | Some z => existsb (fun usr => User.id usr =? z) (users db)
  end.

(** The sequence of [cards.id] gives out its next value. *)
Definition advance (db : Db) : Db :=
  {| users := users db; cards := cards db;
     cards_id_seq := cards_id_seq db + 1; now := now db |}.

(** [createCard] (lines 57-63): the card returned, [None] when the INSERT
    throws, and the database afterwards. The server refuses a parameter it
    cannot read (a text with a NUL character, a [userId] that is no 32-bit
    integer) when it is bound, before the statement runs. A [userId] that
    is not the id of a user is refused after the row was formed: the value
    the sequence gave out for its id is not given back. *)
Definition createCard (insertCard : InsertCard.t) (db : Db)
  : option Card.t * Db :=
  if negb (forallb text_ok
             [InsertCard.playerName insertCard; InsertCard.sport insertCard;
              InsertCard.brand insertCard; InsertCard.cardSet insertCard;
              InsertCard.condition insertCard; InsertCard.notes insertCard;
              InsertCard.imageUrl insertCard;
              InsertCard.cardNumber insertCard])
  then (None, db)
  else
    match user_param (InsertCard.userId insertCard) with
    | None => (None, db)
    | Some userId =>
        let card :=
          {| Card.id := cards_id_seq db;
             Card.playerName := InsertCard.playerName insertCard;
             Card.sport := InsertCard.sport insertCard;
             Card.year := InsertCard.year insertCard;
             Card.brand := InsertCard.brand insertCard;
             Card.cardSet := Some (InsertCard.cardSet insertCard);
             Card.condition := InsertCard.condition insertCard;
             Card.purchasePrice := Some (InsertCard.purchasePrice insertCard);
             Card.currentValue := Some (InsertCard.currentValue insertCard);
             Card.notes := Some (InsertCard.notes insertCard);
             Card.imageUrl := Some (InsertCard.imageUrl insertCard);
             Card.cardNumber := Some (InsertCard.cardNumber insertCard);
             Card.userId := userId;
             Card.createdAt := Some (now db) |} in
        if known_user db userId
        then (Some card,
              {| users := users db; cards := (cards db ++ [card])%list;
                 cards_id_seq := cards_id_seq db + 1; now := now db |})
        else (None, advance db)
    end.

(** [deleteCard] *)
Definition deleteCard (id : Z) (db : Db) : bool * Db :=
  let deleted := List.filter (fun row => Card.id row =? id) (cards db) in
  (match deleted with [] => false | _ => true end,
   set_cards db (List.filter (fun row => negb (Card.id row =? id)) (cards db))).

(** [deleteAllCards] (lines 84-93) *)
Definition deleteAllCards (db : Db) : nat * Db :=
  let allCards := map Card.id (cards db) in
  let count := length allCards in
  let db := set_cards db [] in
  (count, db).

Record FilterParams : Type := {
  search : option string;
  sport : option string;
  year : option string;
  brand : option string;
  condition : option string;
  sortBy : option string
}.

(** [if (param)] on an optional string. *)
Definition given (param : option string) : bool :=
  match param with
  | Some s => negb (String.eqb s "")
  | None => false
  end.

Definition text (param : option string) : string := default "" param.

(** [getFilteredCards] (lines 95-187): [None] when the query throws. *)
Definition getFilteredCards (params : FilterParams) (db : Db)
  : option (list Card.t) :=
  let filters : list Condition := [] in
  (* Search filter *)
  let filters :=
    if given (search params) then
      let searchTerm := "%" ++ text (search params) ++ "%" in
      (filters ++
         [or_ [like (fun row => Some (Card.playerName row)) searchTerm;
               like (fun row => Some (Card.brand row)) searchTerm;
               like Card.cardSet searchTerm;
               like Card.notes searchTerm]])%list
    else filters in
  (* Sport filter *)
  let filters :=
    if given (sport params) && negb (String.eqb (text (sport params)) "all")
    then (filters ++ [eq_text Card.sport (text (sport params))])%list
    else filters in
  (* Year filter *)
  let filters :=
    if given (year params) && negb (String.eqb (text (year params)) "all")
    then
      if includes "-" (text (year params)) then
        let parts := map Number_of_string (split "-" (text (year params))) in
        let start := default NaN (parts !! 0%nat) in
        let end_ := default NaN (parts !! 1%nat) in
        (filters ++ [and_ [gte Card.year start; lte Card.year end_]])%list
      else
        (filters ++
           [eq_int Card.year (Number_of_string (text (year params)))])%list
    else filters in
  (* Brand filter *)
  let filters :=
    if given (brand params) && negb (String.eqb (text (brand params)) "all")
    then (filters ++ [eq_text Card.brand (text (brand params))])%list
    else filters in
  (* Condition filter *)
  let filters :=
    if given (condition params)
       && negb (String.eqb (text (condition params)) "all")
    then (filters ++ [eq_text Card.condition (text (condition params))])%list
    else filters in
  (* Apply all filters *)
  let where_ :=
    if (0 <? length filters)%nat then and_ filters else and_ [] in
  (* Apply sorting *)
  let order : Order :=
    if given (sortBy params) then
      let sortBy := text (sortBy params) in
      if String.eqb sortBy "recent"
      then desc (null_last Z.leb) Card.createdAt
      else if String.eqb sortBy "playerNameAsc"
      then asc text_le Card.playerName
      else if String.eqb sortBy "playerNameDesc"
      then desc text_le Card.playerName
      else if String.eqb sortBy "valueDesc"
      then desc (null_last number_le) Card.currentValue
      else if String.eqb sortBy "valueAsc"
      then asc (null_last number_le) Card.currentValue
      else if String.eqb sortBy "yearDesc"
      then desc Z.leb Card.year
      else if String.eqb sortBy "yearAsc"
      then asc Z.leb Card.year
      else desc Z.leb Card.id
    else desc Z.leb Card.id in
  if well_typed where_
  then Some (orderBy order (List.filter (selected where_) (cards db)))
  else None.

End Storage.


(* ===================================================================== *)
(** ** server/services/imageRecognitionService.ts                         *)
(* ===================================================================== *)

Module ImageRecognition.
Import JS Schema.

(** What [JSON.parse] returns for the model's answer: [null], an object
    with its members, or a value whose property reads are all [undefined]
    (a number, string, boolean or array). *)
Inductive CardData : Type :=
| DataNull
| DataObject (members : gmap string value)
| DataOther.

(** A block of [response.content]. *)
Inductive ContentBlock : Type :=
| TextBlock (text : string)
| OtherBlock.

(** How [anthropic.messages.create] ends: it throws an error carrying
    [message], or returns [content]. *)
Inductive ApiOutcome : Type :=
| ApiThrows (message : value)
| ApiReturns (content : list ContentBlock).

(** The object built on lines 110-121 ([Partial<InsertCard>]). *)
Record RecognizedCard : Type := {
  playerName : value;
  sport : value;
  year : number;
  brand : value;
  cardSet : value;
  cardNumber : value;
  condition : value;
  purchasePrice : number;
  notes : string;
  imageUrl : string
}.

(** [card.notes = description] *)
Definition with_notes (card : RecognizedCard) (description : string)
  : RecognizedCard :=
  {| playerName := playerName card; sport := sport card; year := year card;
     brand := brand card; cardSet := cardSet card;
     cardNumber := cardNumber card; condition := condition card;
     purchasePrice := purchasePrice card; notes := description;
     imageUrl := imageUrl card |}.

Record Recognition : Type := {
  success : bool;
  card : option RecognizedCard;
  error : option string
}.

(** Code that can throw: [inl message] is the thrown error's message. *)
Definition Try (A : Type) : Type := value + A.

(** [textContent.match(/\{[\s\S]*\}/)]: from the first opening brace to the
    last closing brace after it. *)
Fixpoint from_first_brace (s : string) : option string :=
  match s with
  | EmptyString => None
  | String c s' => if Ascii.eqb c "{" then Some s' else from_first_brace s'
  end.

Fixpoint upto_last_brace (s : string) : option string :=
  match s with
  | EmptyString => None
  | String c s' =>
      match upto_last_brace s' with
      | Some r => Some (String c r)
      | None => if Ascii.eqb c "}" then Some (String c EmptyString) else None
      end
  end.

Definition match_json_block (textContent : string) : option string :=
  match from_first_brace textContent with
  | Some rest =>
      match upto_last_brace rest with
      | Some block => Some (String "{" block)
      | None => None
      end
  | None => None
  end.

(** Reading the properties of [cardData]: the first read, of
    [playerName], throws when [cardData] is [null]. *)
Definition properties (cardData : CardData) : Try (string -> value) :=
  match cardData with
  | DataNull =>
      inl (VStr "Cannot read properties of null (reading 'playerName')")
  | DataObject members => inr (get members)
  | DataOther => inr (fun _ => VUndefined)
  end.

(** [v?.toLowerCase() || d] *)
Definition lowered_or (key : string) (v : value) (d : string) : Try value :=
  match v with
  | VUndefined | VNull => inr (VStr d)
  | VStr s => inr (or_else (VStr (toLowerCase s)) (VStr d))
  | _ => inl (VStr ("cardData." ++ key ++ ".toLowerCase is not a function"))
  end.

Section WithParser.

(** [JSON.parse]: [inl message] when it throws a SyntaxError. *)
Variable JSON_parse : string -> string + CardData.

(** Lines 89-107: the answer's text, parsed directly or from its first
    brace-delimited block. *)
Definition extract_card_data (content : list ContentBlock) : Try CardData :=
  match content with
  | [] => inl (VStr "Cannot read properties of undefined (reading 'type')")
  | block :: _ =>
      let textContent :=
        match block with
        | TextBlock text => text
        | OtherBlock => "{}"
        end in
      match JSON_parse textContent with
      | inr cardData => inr cardData
      | inl _ =>
          match match_json_block textContent with
          | Some block =>
              match JSON_parse block with
              | inr cardData => inr cardData
              | inl message => inl (VStr message)
              end
          | None => inl (VStr "Could not parse JSON from response")
          end
      end
  end.

(** Lines 110-121. *)
Definition transform (currentYear : Z) (cardData : CardData)
  : Try RecognizedCard :=
  match properties cardData with
  | inl e => inl e
  | inr prop =>
      match lowered_or "sport" (prop "sport") "other" with
      | inl e => inl e
      | inr sport =>
          match lowered_or "condition" (prop "condition") "new" with
          | inl e => inl e
          | inr condition =>
              inr {| playerName := or_else (prop "playerName") (VStr "");
                     sport := sport;
                     year := if truthy (prop "year")
                             then parseInt10 (prop "year")
                             else Num (inject_Z currentYear);
                     brand := or_else (prop "brand") (VStr "");
                     cardSet := or_else (prop "cardSet") (VStr "");
                     cardNumber := or_else (prop "cardNumber") (VStr "");
                     condition := condition;
                     purchasePrice := Num 0;
                     notes :=
                       trim (ToString (or_else (prop "cardSet") (VStr ""))
                             ++ " "
                             ++ ToString (or_else (prop "cardNumber")
                                                  (VStr "")));
                     imageUrl := "" |}
          end
      end
  end.

(** The [catch] block (lines 133-139). *)
Definition caught (e : value) : Recognition :=
  {| success := false;
     card := None;
     error := Some ("Error identifying card: "
                    ++ ToString (or_else e (VStr "Unknown error"))) |}.

(** [identifyCardFromImage]: [api] is how the call to the vision model
    ends, [currentYear] what [new Date().getFullYear()] reads. *)
Definition identifyCardFromImage (base64Image contentType : string)
    (api : ApiOutcome) (currentYear : Z) : Recognition :=
  if String.eqb base64Image "" then
    {| success := false; card := None;
       error := Some "No image data provided" |}
  else
    match api with
    | ApiThrows message => caught message
    | ApiReturns content =>
        match extract_card_data content with
        | inl e => caught e
        | inr cardData =>
            match transform currentYear cardData with
            | inl e => caught e
            | inr card =>
                if negb (truthy (playerName card)) then
                  {| success := false;
                     card := Some card;
                     error := Some "Could not identify player name from the image. Please enter card details manually." |}
                else {| success := true; card := Some card; error := None |}
            end
        end
    end.

End WithParser.

End ImageRecognition.


(* ===================================================================== *)
(** ** server/routes.ts                                                   *)
(* ===================================================================== *)

Module Routes.
Import JS Schema Storage.

(** A parsed row of the uploaded file, and the candidate built from it. *)
Abbreviation Row := (gmap string value).

(** An entry of [results]: [{ success: true, data: card }] or
    [{ success: false, error, data: record }]. *)
Inductive ImportResult : Type :=
| Imported (data : Card.t)
| Failed (error : string) (data : Row).

Definition success (r : ImportResult) : bool :=
  match r with
  | Imported _ => true
  | Failed _ _ => false
  end.

(** [JSON.parse(columnMap)]: it throws, or returns [null], or returns an
    object whose [Object.entries] are listed. *)
Inductive ColumnMap : Type :=
| Unparsable
| NullMap
| Entries (entries : list (string * value)).

Inductive ImportResponse : Type :=
| ImportBadRequest (message : string)                         (* 400 *)
| ImportDone (message : string) (results : list ImportResult) (* 200 *)
| ImportError (message : string).                             (* 500 *)

Record Upload : Type := { buffer : string; mimetype : string }.

Record ImportRequest : Type := {
  file : option Upload;
  columnMap : string
}.

(** The body of the loop on lines 206-210 for one entry. *)
Definition copy_field (record : Row) (mappedRecord : Row)
    (entry : string * value) : Row :=
  let (cardField, fileField) := entry in
  if truthy fileField
     && negb (match fileField with VStr s => String.eqb s "none" | _ => false end)
     && negb (match get record (ToString fileField) with
              | VUndefined => true
              | _ => false
              end)
  then <[cardField := get record (ToString fileField)]> mappedRecord
  else mappedRecord.

(** [if (mappedRecord.key) mappedRecord.key = convert(mappedRecord.key)] *)
Definition convert (key : string) (f : value -> number) (mappedRecord : Row)
  : Row :=
  if truthy (get mappedRecord key)
  then <[key := VNum (f (get mappedRecord key))]> mappedRecord
  else mappedRecord.

(** The callback of [records.map] (lines 203-226). *)
Definition map_record (mappedColumns : list (string * value)) (record : Row)
  : Row :=
  let mappedRecord := fold_left (copy_field record) mappedColumns ∅ in
  let mappedRecord := convert "year" parseInt mappedRecord in
  let mappedRecord := convert "purchasePrice" parseFloat mappedRecord in
  let mappedRecord := convert "currentValue" parseFloat mappedRecord in
  mappedRecord.

(** [records.map(...)]: [Object.entries(null)] throws in the first call of
    the callback, if there is one. *)
Definition map_records (mappedColumns : ColumnMap) (records : list Row)
  : option (list Row) :=
  match mappedColumns, records with
  | Entries entries, _ => Some (map (map_record entries) records)
  | _, [] => Some []
  | _, _ :: _ => None
  end.

(** [record.playerName || "Unknown"] inside a template literal. *)
Definition display_name (record : Row) : string :=
  ToString (or_else (get record "playerName") (VStr "Unknown")).

(** The callback of [cardRecords.map] (lines 230-251). *)
Definition import_record (record : Row) (db : Db) : ImportResult * Db :=
  match safeParse record with
  | inl issues =>
      (Failed ("Validation error: " ++ display_name record ++ " - "
               ++ fromZodError issues) record, db)
  | inr data =>
      match createCard data db with
      | (Some card, db') => (Imported card, db')
      | (None, db') =>
          (Failed ("Error processing record: " ++ display_name record) record,
           db')
      end
  end.

(** [Promise.all(cardRecords.map(...))]: the inserts are issued, and here
    complete, in row order; the outcomes keep the rows' positions. *)
Fixpoint import_records (cardRecords : list Row) (db : Db)
  : list ImportResult * Db :=
  match cardRecords with
  | [] => ([], db)
  | record :: rest =>
      let (r, db) := import_record record db in
      let (rs, db) := import_records rest db in
      (r :: rs, db)
  end.

Section WithParsers.

(** The parsers the handler calls: [JSON.parse], [csvParse] with
    [{ columns: true, trim: true }], and [XLSX.read] followed by
    [sheet_to_json] on the first sheet; [None] when they throw. *)
Variable parse_column_map : string -> ColumnMap.
Variable csvParse : string -> option (list Row).
Variable XLSX_read : string -> option (list Row).

(** The handler of [POST /api/import] (lines 163-266). *)
Definition post_import (req : ImportRequest) (db : Db)
  : ImportResponse * Db :=
  match file req with
  | None => (ImportBadRequest "No file uploaded", db)
  | Some upload =>
      match parse_column_map (columnMap req) with
      | Unparsable => (ImportBadRequest "Invalid column mapping", db)
      | mappedColumns =>
          let parsed :=
            if String.eqb (mimetype upload) "text/csv"
            then csvParse (buffer upload)
            else XLSX_read (buffer upload) in
          match parsed with
          | None => (ImportError "Failed to import cards", db)
          | Some records =>
              match map_records mappedColumns records with
              | None => (ImportError "Failed to import cards", db)
              | Some cardRecords =>
                  let (results, db) := import_records cardRecords db in
                  let successful := length (List.filter success results) in
                  let failed :=
                    length (List.filter (fun r => negb (success r)) results) in
                  (ImportDone ("Import completed: " ++ pretty successful
                               ++ " cards imported, " ++ pretty failed
                               ++ " failed") results, db)
              end
          end
      end
  end.

End WithParsers.

(** *** POST /api/recognize-card *)

Inductive RecognizeResponse : Type :=
| RecognizeBadRequest (message : string)                       (* 400 *)
| Unprocessable (message : string)
    (partialData : option ImageRecognition.RecognizedCard)     (* 422 *)
| Recognized (message : string)
    (card : option ImageRecognition.RecognizedCard).           (* 200 *)

Section WithVisionModel.

Variable JSON_parse : string -> string + ImageRecognition.CardData.

(** The handler (lines 327-370). [image] is the upload already encoded
    ([buffer.toString('base64')]) with its MIME type; [api] is how the
    recognition call ends and [description] what
    [generateCardDescription] returns (the empty string when it fails). *)
Definition post_recognize_card (image : option (string * string))
    (api : ImageRecognition.ApiOutcome) (currentYear : Z)
    (description : string) : RecognizeResponse :=
  match image with
  | None => RecognizeBadRequest "No image uploaded"
  | Some (base64Image, mimetype) =>
      let result :=
        ImageRecognition.identifyCardFromImage JSON_parse base64Image mimetype
          api currentYear in
      if negb (ImageRecognition.success result) then
        Unprocessable
          (match ImageRecognition.error result with
           | Some e => if String.eqb e ""
                       then "Failed to recognize card from image" else e
           | None => "Failed to recognize card from image"
           end)
          (ImageRecognition.card result)
      else
        let card :=
          match ImageRecognition.card result with
          | Some card =>
              if truthy (ImageRecognition.playerName card)
                 && truthy (ImageRecognition.sport card)
                 && truthy (VNum (ImageRecognition.year card))
                 && negb (String.eqb description "")
              then Some (ImageRecognition.with_notes card description)
              else Some card
          | None => None
          end in
        Recognized "Card successfully recognized from image" card
  end.

End WithVisionModel.

End Routes.

(* ===================================================================== *)
(** * Properties of the price estimator                                   *)
(* ===================================================================== *)

Module Spec.
Import JS Schema PriceService.

(** The error the recognizer reports when it found no player name. *)
Definition no_player_name : string :=
  "Could not identify player name from the image. Please enter card details manually.".

(** [Numeral s n]: the string [s] is a non-empty run of decimal digits and
    denotes the number [n]. *)
Inductive Numeral : string -> Z -> Prop :=
| Numeral_digit (c : ascii) (d : Z) :
    decimal_digit c = Some d -> Numeral (String c EmptyString) d
| Numeral_more (s : string) (n : Z) (c : ascii) (d : Z) :
    Numeral s n -> decimal_digit c = Some d ->
    Numeral (s ++ String c EmptyString) (10 * n + d).

(** Strings of decimal digits. *)
Definition is_decimal (c : ascii) : bool :=
  match decimal_digit c with
  | Some _ => true
  | None => false
  end.

Definition all_decimal (s : string) : bool := forallb is_decimal (chars s).

(** A request for the list without any filter, sorted as [sortBy] says. *)
Definition unfiltered (sortBy : option string) : Storage.FilterParams :=
  {| Storage.search := None; Storage.sport := None; Storage.year := None;
     Storage.brand := None; Storage.condition := None;
     Storage.sortBy := sortBy |}.

Definition by_year (year : string) (sortBy : option string)
  : Storage.FilterParams :=
  {| Storage.search := None; Storage.sport := None;
     Storage.year := Some year; Storage.brand := None;
     Storage.condition := None; Storage.sortBy := sortBy |}.

Definition by_search (search : string) (sortBy : option string)
  : Storage.FilterParams :=
  {| Storage.search := Some search; Storage.sport := None;
     Storage.year := None; Storage.brand := None;
     Storage.condition := None; Storage.sortBy := sortBy |}.

(** [s] occurs in a nullable text; it does not occur in NULL. *)
Definition occurs_in (s : string) (field : option string) : bool :=
  match field with
  | Some t => includes s t
  | None => false
  end.

(** [s] is a substring of the player name, the brand, the card set or the
    notes. *)
Definition search_matches (s : string) (card : Card.t) : bool :=
  includes s (Card.playerName card)
  || includes s (Card.brand card)
  || occurs_in s (Card.cardSet card)
  || occurs_in s (Card.notes card).

(** The same, ignoring case. *)
Definition search_matches_ignoring_case (s : string) (card : Card.t) : bool :=
  includes (toLowerCase s) (toLowerCase (Card.playerName card))
  || includes (toLowerCase s) (toLowerCase (Card.brand card))
  || occurs_in (toLowerCase s) (option_map toLowerCase (Card.cardSet card))
  || occurs_in (toLowerCase s) (option_map toLowerCase (Card.notes card)).

(** The stored card carries the validated data. *)
Definition stored (data : InsertCard.t) (card : Card.t) : Prop :=
  Card.playerName card = InsertCard.playerName data
  /\ Card.sport card = InsertCard.sport data
  /\ Card.year card = InsertCard.year data
  /\ Card.brand card = InsertCard.brand data
  /\ Card.condition card = InsertCard.condition data
  /\ Card.cardSet card = Some (InsertCard.cardSet data)
  /\ Card.notes card = Some (InsertCard.notes data).

(** [r] is the outcome of importing [candidate]: the stored card of the
    validated candidate, or a failure that keeps the candidate. *)
Definition outcome_of (candidate : gmap string value)
    (r : Routes.ImportResult) : Prop :=
  match r with
  | Routes.Imported card =>
      exists data, safeParse candidate = inr data /\ stored data card
  | Routes.Failed _ data => data = candidate
  end.

(** A row and two column mappings for the examples: the first maps every
    required field, the second leaves the sport unmapped. *)
Definition messi_row : gmap string value :=
  {[ "Player" := VStr "Lionel Messi"; "Sport" := VStr "soccer";
     "Year" := VStr "2015"; "Make" := VStr "Topps"; "Grade" := VStr "raw" ]}.

Definition full_mapping : list (string * value) :=
  [("playerName", VStr "Player"); ("sport", VStr "Sport");
   ("year", VStr "Year"); ("brand", VStr "Make");
   ("condition", VStr "Grade")].

Definition mapping_without_sport : list (string * value) :=
  [("playerName", VStr "Player"); ("sport", VStr "none");
   ("year", VStr "Year"); ("brand", VStr "Make");
   ("condition", VStr "Grade")].

Definition empty_db : Storage.Db :=
  {| Storage.users := []; Storage.cards := [];
     Storage.cards_id_seq := 1; Storage.now := 0 |}.

Definition csv_upload : Routes.ImportRequest :=
  {| Routes.file := Some {| Routes.buffer := "Player,Sport,Year,Make,Grade";
                            Routes.mimetype := "text/csv" |};
     Routes.columnMap := "{}" |}.

(** An answer of the vision model that names the brand and the year but
    no player, as [JSON.parse] returns it. *)
Definition nameless_answer : ImageRecognition.CardData :=
  ImageRecognition.DataObject
    {[ "brand" := VStr "Topps"; "year" := VNum (Num 2015);
       "playerName" := VStr "" ]}.

Definition nameless_card : ImageRecognition.RecognizedCard :=
  {| ImageRecognition.playerName := VStr "";
     ImageRecognition.sport := VStr "other";
     ImageRecognition.year := Num 2015;
     ImageRecognition.brand := VStr "Topps";
     ImageRecognition.cardSet := VStr "";
     ImageRecognition.cardNumber := VStr "";
     ImageRecognition.condition := VStr "new";
     ImageRecognition.purchasePrice := Num 0;
     ImageRecognition.notes := "";
     ImageRecognition.imageUrl := "" |}.

Definition parse_nameless (text : string)
  : string + ImageRecognition.CardData := inr nameless_answer.

(** A stored card for the examples: Topps, 2015. *)
Definition topps_card : Card.t :=
  {| Card.id := 1; Card.playerName := "Lionel Messi"; Card.sport := "soccer";
     Card.year := 2015; Card.brand := "Topps"; Card.cardSet := Some "Chrome";
     Card.condition := "raw"; Card.purchasePrice := Some (Num 0);
     Card.currentValue := Some (Num 0); Card.notes := Some "";
     Card.imageUrl := Some ""; Card.cardNumber := Some "";
     Card.userId := None; Card.createdAt := Some 0 |}.

Definition one_card_db : Storage.Db :=
  {| Storage.users := []; Storage.cards := [topps_card];
     Storage.cards_id_seq := 2; Storage.now := 0 |}.

(** A stored card of the year 3, for the examples. *)
Definition early_card : Card.t :=
  {| Card.id := 1; Card.playerName := "Honus Wagner";
     Card.sport := "baseball"; Card.year := 3; Card.brand := "T206";
     Card.cardSet := Some ""; Card.condition := "raw";
     Card.purchasePrice := Some (Num 0); Card.currentValue := Some (Num 0);
     Card.notes := Some ""; Card.imageUrl := Some "";
     Card.cardNumber := Some ""; Card.userId := None;
     Card.createdAt := Some 0 |}.

Definition early_db : Storage.Db :=
  {| Storage.users := []; Storage.cards := [early_card];
     Storage.cards_id_seq := 2; Storage.now := 0 |}.

(** The characters LIKE gives a meaning to. *)
Definition like_special (c : ascii) : bool :=
  Ascii.eqb c "%" || Ascii.eqb c "_" || Ascii.eqb c backslash.

Definition plain (s : string) : bool :=
  forallb (fun c => negb (like_special c)) (chars s).

(** A generated item whose array selections were all defined: its date is
    one of [dates], its title carries a condition term and either no
    flourish or one of [extraTerms]. A well-formed item has, besides, a
    price in lowest terms. *)
Definition selections_defined (searchQuery : string) (item : EbaySoldItem)
  : Prop :=
  (exists d, date item = Some d /\ In d dates)
  /\ (exists c e, In c conditionTerms /\ In e ("" :: extraTerms)
                 /\ title item = trim (searchQuery ++ " - " ++ c ++ " " ++ e)).

Definition well_formed (searchQuery : string) (item : EbaySoldItem) : Prop :=
  selections_defined searchQuery item /\ price item = Qred (price item).

(** The sum of the character codes of a string. *)
Definition char_code_sum (s : string) : Z :=
  fold_right (fun c total => charCodeAt c + total) 0 (chars s).

(** What an item owes to the generator alone. *)
Definition draws (item : EbaySoldItem) : option string * string * string :=
  (date item, link item, imageUrl item).

(** [Math.sin(2)]: the double that prints as 0.9092974268256817. *)
Definition sin_2 : Q := 9092974268256817 # 10000000000000000.

(** A sine whose value at 2 is the engine's. *)
Definition sine_at_two (z : Z) : Q := sin_2.

(** A stand-in for the engine's sine, for evaluating the estimator. *)
Definition sample_sine (z : Z) : Q :=
  (inject_Z ((z * 7919) mod 20001 - 10000) / 10007)%Q.

(** The arithmetic mean of a list of numbers. *)
Definition mean (values : list Q) : Q :=
  (fold_right Qplus 0 values / inject_Z (Z.of_nat (length values)))%Q.

(** The median of a value-sorted sequence: the average of the two middle
    values for an even count, the single middle value for an odd count. *)
Definition median_of_sorted (sorted : list Q) : Q :=
  let n := length sorted in
  if Nat.even n
  then ((nth (n / 2 - 1) sorted 0 + nth (n / 2) sorted 0) / 2)%Q
  else nth (n / 2) sorted 0%Q.

End Spec.

(* ===================================================================== *)
(** ** server/storage.ts, continued: partial updates                      *)
(* ===================================================================== *)

Module Repository.
Import JS Schema Sql Storage.

(** The output type of [insertCardSchema.partial()] ([Partial<InsertCard>]):
    [None] is a member that was not supplied. For [userId], [Some None] is
    a supplied [null]. *)
Module CardPatch.
Record t : Type := {
  playerName : option string;
  sport : option string;
  year : option Z;
  brand : option string;
  cardSet : option string;
  condition : option string;
  purchasePrice : option number;
  currentValue : option number;
  notes : option string;
  imageUrl : option string;
  cardNumber : option string;
  userId : option (option number)
}.
End CardPatch.

(** [schema.optional()]: [undefined] passes as it is, before any default
    of [schema] is looked at. *)
Definition optional {A : Type} (schema : value -> Parsed A) (v : value)
  : Parsed (option A) :=
  match v with
  | VUndefined => inr None
  | _ => match schema v with
         | inl e => inl e
         | inr a => inr (Some a)
         end
  end.

(** [insertCardSchema.partial().safeParse(input)] on an object. *)
Definition safeParsePartial (input : gmap string value)
  : list ZodIssue + CardPatch.t :=
  let playerName := optional z_string (get input "playerName") in
  let sport := optional z_string (get input "sport") in
  let year := optional z_int32 (get input "year") in
  let brand := optional z_string (get input "brand") in
  let cardSet :=
    optional (optional_default z_string "") (get input "cardSet") in
  let condition := optional z_string (get input "condition") in
  let purchasePrice :=
    optional (z_coerce_number_default (Num 0)) (get input "purchasePrice") in
  let currentValue :=
    optional (optional_default z_number (Num 0)) (get input "currentValue") in
  let notes := optional (optional_default z_string "") (get input "notes") in
  let imageUrl :=
    optional (optional_default z_string "") (get input "imageUrl") in
  let cardNumber :=
    optional (optional_default z_string "") (get input "cardNumber") in
  let userId := optional z_number_optional_nullable (get input "userId") in
  match playerName, sport, year, brand, cardSet, condition,
        purchasePrice, currentValue, notes, imageUrl, cardNumber, userId with
  | inr playerName, inr sport, inr year, inr brand, inr cardSet,
    inr condition, inr purchasePrice, inr currentValue, inr notes,
    inr imageUrl, inr cardNumber, inr userId =>
      inr {| CardPatch.playerName := playerName;
             CardPatch.sport := sport;
             CardPatch.year := year;
             CardPatch.brand := brand;
             CardPatch.cardSet := cardSet;
             CardPatch.condition := condition;
             CardPatch.purchasePrice := purchasePrice;
             CardPatch.currentValue := currentValue;
             CardPatch.notes := notes;
             CardPatch.imageUrl := imageUrl;
             CardPatch.cardNumber := cardNumber;
             CardPatch.userId := userId |}
  | _, _, _, _, _, _, _, _, _, _, _, _ =>
      inl (issues_of "playerName" playerName ++ issues_of "sport" sport
           ++ issues_of "year" year ++ issues_of "brand" brand
           ++ issues_of "cardSet" cardSet ++ issues_of "condition" condition
           ++ issues_of "purchasePrice" purchasePrice
           ++ issues_of "currentValue" currentValue
           ++ issues_of "notes" notes ++ issues_of "imageUrl" imageUrl
           ++ issues_of "cardNumber" cardNumber
           ++ issues_of "userId" userId)%list
  end.

(** No member supplied: [.set(updateData)] has nothing to set. *)
Definition no_values (p : CardPatch.t) : bool :=
  match CardPatch.playerName p, CardPatch.sport p, CardPatch.year p,
        CardPatch.brand p, CardPatch.cardSet p, CardPatch.condition p,
        CardPatch.purchasePrice p, CardPatch.currentValue p,
        CardPatch.notes p, CardPatch.imageUrl p, CardPatch.cardNumber p,
        CardPatch.userId p with
  | None, None, None, None, None, None, None, None, None, None, None, None =>
      true
  | _, _, _, _, _, _, _, _, _, _, _, _ => false
  end.

(** The texts a patch supplies. *)
Definition supplied_texts (p : CardPatch.t) : list string :=
  (option_list (CardPatch.playerName p) ++ option_list (CardPatch.sport p)
   ++ option_list (CardPatch.brand p) ++ option_list (CardPatch.cardSet p)
   ++ option_list (CardPatch.condition p) ++ option_list (CardPatch.notes p)
   ++ option_list (CardPatch.imageUrl p)
   ++ option_list (CardPatch.cardNumber p))%list.

(** The [user_id] a patch binds: no change, NULL, or a 32-bit integer;
    [None] when the number is none. *)
Definition bound_user (u : option (option number))
  : option (option (option Z)) :=
  match u with
  | None => Some None
  | Some None => Some (Some None)
  | Some (Some n) =>
      match int4_param n with
      | Some z => Some (Some (Some z))
      | None => None
      end
  end.

(** The row after [SET]: supplied members replace the stored ones. *)
Definition apply_patch (p : CardPatch.t) (userId : option (option Z))
    (row : Card.t) : Card.t :=
  {| Card.id := Card.id row;
     Card.playerName := default (Card.playerName row) (CardPatch.playerName p);
     Card.sport := default (Card.sport row) (CardPatch.sport p);
     Card.year := default (Card.year row) (CardPatch.year p);
     Card.brand := default (Card.brand row) (CardPatch.brand p);
     Card.cardSet :=
       match CardPatch.cardSet p with
       | Some s => Some s
       | None => Card.cardSet row
       end;
     Card.condition := default (Card.condition row) (CardPatch.condition p);
     Card.purchasePrice :=
       match CardPatch.purchasePrice p with
       | Some n => Some n
       | None => Card.purchasePrice row
       end;
     Card.currentValue :=
       match CardPatch.currentValue p with
       | Some n => Some n
       | None => Card.currentValue row
       end;
     Card.notes :=
       match CardPatch.notes p with
       | Some s => Some s
       | None => Card.notes row
       end;
     Card.imageUrl :=
       match CardPatch.imageUrl p with
       | Some s => Some s
       | None => Card.imageUrl row
       end;
     Card.cardNumber :=
       match CardPatch.cardNumber p with
       | Some s => Some s
       | None => Card.cardNumber row
       end;
     Card.userId := default (Card.userId row) userId;
     Card.createdAt := Card.createdAt row |}.

(** [updateCard] (lines 65-73): [None] when the UPDATE throws, which it
    does for a patch without values, for a text with a NUL character, for a
    [userId] that is no 32-bit integer and, when a row is updated, for a
    [userId] that is not the id of a user. Otherwise the first updated row,
    if there is one. *)
Definition updateCard (id : Z) (updateData : CardPatch.t) (db : Db)
  : option (option Card.t * Db) :=
  if no_values updateData then None
  else if negb (forallb text_ok (supplied_texts updateData)) then None
  else
    match bound_user (CardPatch.userId updateData) with
    | None => None
    | Some userId =>
        let unknown_user :=
          match userId with
          | Some (Some z) =>
              negb (existsb (fun usr => User.id usr =? z) (users db))
          | _ => false
          end in
        if existsb (fun row => Card.id row =? id) (cards db) && unknown_user
        then None
        else
          let rows :=
            map (fun row => if Card.id row =? id
                            then apply_patch updateData userId row else row)
                (cards db) in
          Some (head (List.filter (fun row => Card.id row =? id) rows),
                set_cards db rows)
    end.

End Repository.

(* ===================================================================== *)
(** ** server/routes.ts, continued: the card and price endpoints          *)
(* ===================================================================== *)

Module CardRoutes.
Import JS Schema Sql Storage Repository.

(** What a handler sends: [res.status(...).json(...)] or [.send()]. *)
Inductive Body : Type :=
| Message (message : string)
| OneCard (card : Card.t)
| ManyCards (cards : list Card.t)
| Deleted (message : string) (count : nat)
| Analysis (analysis : PriceService.PriceAnalysis)
| NoContent.

Record Reply : Type := { status : Z; body : Body }.

(** [req.body] after the JSON middleware. *)
Inductive RequestBody : Type :=
| JsonObject (members : gmap string value)
| NotAnObject (v : value).

(** A value of [req.query]. *)
Inductive QueryValue : Type :=
| Absent
| Text (s : string)
| NotText.

(** [parseInt(req.params.id, 10)] bound to the [id] column: [None] when the
    statement using it throws. *)
Definition card_id (id : string) : option Z :=
  int4_param (parseInt_string true id).

(** GET /api/cards (lines 47-66) *)
Definition get_cards (query : FilterParams) (db : Db) : Reply :=
  match getFilteredCards query db with
  | Some cards => {| status := 200; body := ManyCards cards |}
  | None => {| status := 500; body := Message "Failed to fetch cards" |}
  end.

(** GET /api/cards/:id (lines 69-83) *)
Definition get_card (id : string) (db : Db) : Reply :=
  match card_id id with
  | None => {| status := 500; body := Message "Failed to fetch card" |}
  | Some cardId =>
      match getCard cardId db with
      | None => {| status := 404; body := Message "Card not found" |}
      | Some card => {| status := 200; body := OneCard card |}
      end
  end.

(** The message of a failed validation of [req.body]. *)
Definition validation_message (issues : list ZodIssue) : string :=
  fromZodError issues.

Definition not_an_object (v : value) : string :=
  "Validation error: " ++ invalid_type "object" v.

(** POST /api/cards (lines 86-101) *)
Definition post_card (requestBody : RequestBody) (db : Db) : Reply * Db :=
  match requestBody with
  | NotAnObject v =>
      ({| status := 400; body := Message (not_an_object v) |}, db)
  | JsonObject members =>
      match safeParse members with
      | inl issues =>
          ({| status := 400; body := Message (validation_message issues) |},
           db)
      | inr data =>
          match createCard data db with
          | (Some newCard, db') =>
              ({| status := 201; body := OneCard newCard |}, db')
          | (None, db') =>
              ({| status := 500; body := Message "Failed to create card" |},
               db')
          end
      end
  end.

(** PATCH /api/cards/:id (lines 104-128) *)
Definition patch_card (id : string) (requestBody : RequestBody) (db : Db)
  : Reply * Db :=
  match requestBody with
  | NotAnObject v =>
      ({| status := 400; body := Message (not_an_object v) |}, db)
  | JsonObject members =>
      match safeParsePartial members with
      | inl issues =>
          ({| status := 400; body := Message (validation_message issues) |},
           db)
      | inr data =>
          match card_id id with
          | None =>
              ({| status := 500; body := Message "Failed to update card" |},
               db)
          | Some cardId =>
              match updateCard cardId data db with
              | None =>
                  ({| status := 500;
                      body := Message "Failed to update card" |}, db)
              | Some (None, db') =>
                  ({| status := 404; body := Message "Card not found" |}, db')
              | Some (Some updatedCard, db') =>
                  ({| status := 200; body := OneCard updatedCard |}, db')
              end
          end
      end
  end.

(** DELETE /api/cards/:id (lines 131-145) *)
Definition delete_card (id : string) (db : Db) : Reply * Db :=
  match card_id id with
  | None => ({| status := 500; body := Message "Failed to delete card" |}, db)
  | Some cardId =>
      let (success, db') := deleteCard cardId db in
      if success then ({| status := 204; body := NoContent |}, db')
      else ({| status := 404; body := Message "Card not found" |}, db')
  end.

(** DELETE /api/cards (lines 148-160) *)
Definition delete_all_cards (db : Db) : Reply * Db :=
  let (count, db') := deleteAllCards db in
  ({| status := 200;
      body := Deleted ("Successfully deleted " ++ pretty count ++ " cards")
                count |}, db').

(** [Array.from(new Set(parts))]: the first occurrence of each part. *)
Fixpoint unique (seen parts : list string) : list string :=
  match parts with
  | [] => []
  | p :: ps =>
      if existsb (String.eqb p) seen then unique seen ps
      else p :: unique (p :: seen) ps
  end.

(** [if (text) parts.push(f(text))] for a nullable text. *)
Definition push_text (f : string -> string) (text : option string)
    (parts : list string) : list string :=
  match text with
  | Some s => if String.eqb s "" then parts else (parts ++ [f s])%list
  | None => parts
  end.

(** The search query of a card (lines 299-312). *)
Definition card_search_query (card : Card.t) : string :=
  let parts : list string := [] in
  let parts := push_text id (Some (Card.playerName card)) parts in
  let parts := push_text id (Card.cardSet card) parts in
  let parts := push_text (fun n => "#" ++ n) (Card.cardNumber card) parts in
  let parts := push_text id (Card.notes card) parts in
  let parts :=
    if Card.year card =? 0 then parts
    else (parts ++ [show_int (Card.year card)])%list in
  let parts := push_text id (Some (Card.brand card)) parts in
  let uniqueParts :=
    unique [] (List.filter (fun p => negb (String.eqb p "")) parts) in
  join " " uniqueParts.

Section WithSine.

Variable Math_sin : Z -> Q.

(** GET /api/prices (lines 269-287); the console is the price service's. *)
Definition get_prices (query : QueryValue) (out : PriceService.Console)
  : Reply * PriceService.Console :=
  match query with
  | Text s =>
      if String.eqb s "" then
        ({| status := 400; body := Message "Search query is required" |}, out)
      else
        let (priceData, out') :=
          PriceService.scrapeEbayPrices Math_sin s out in
        ({| status := 200; body := Analysis priceData |}, out')
  | _ =>
      ({| status := 400; body := Message "Search query is required" |}, out)
  end.

(** GET /api/cards/:id/price (lines 290-324) *)
Definition get_card_price (id : string) (db : Db)
    (out : PriceService.Console) : Reply * PriceService.Console :=
  match card_id id with
  | None =>
      ({| status := 500; body := Message "Failed to fetch card price data" |},
       out)
  | Some cardId =>
      match getCard cardId db with
      | None => ({| status := 404; body := Message "Card not found" |}, out)
      | Some card =>
          let (priceData, out') :=
            PriceService.scrapeEbayPrices Math_sin (card_search_query card)
              out in
          ({| status := 200; body := Analysis priceData |}, out')
      end
  end.

End WithSine.

End CardRoutes.

(* ===================================================================== *)
(** ** The parts of [getFilteredCards], and notions to state properties   *)
(* ===================================================================== *)

Module Query.
Import JS Schema Sql Storage.

(** The filters each block of [getFilteredCards] pushes. *)
Definition search_filter (params : FilterParams) : list Condition :=
  if given (search params) then
    let searchTerm := "%" ++ text (search params) ++ "%" in
    [or_ [like (fun row => Some (Card.playerName row)) searchTerm;
          like (fun row => Some (Card.brand row)) searchTerm;
          like Card.cardSet searchTerm;
          like Card.notes searchTerm]]
  else [].

Definition text_filter (param : option string) (column : Card.t -> string)
  : list Condition :=
  if given param && negb (String.eqb (text param) "all")
  then [eq_text column (text param)]
  else [].

Definition year_filter (params : FilterParams) : list Condition :=
  if given (year params) && negb (String.eqb (text (year params)) "all")
  then
    if includes "-" (text (year params)) then
      let parts := map Number_of_string (split "-" (text (year params))) in
      let start := default NaN (parts !! 0%nat) in
      let end_ := default NaN (parts !! 1%nat) in
      [and_ [gte Card.year start; lte Card.year end_]]
    else [eq_int Card.year (Number_of_string (text (year params)))]
  else [].

Definition filters_of (params : FilterParams) : list Condition :=
  (search_filter params ++ text_filter (sport params) Card.sport
   ++ year_filter params ++ text_filter (brand params) Card.brand
   ++ text_filter (condition params) Card.condition)%list.

(** The order the [switch] on [sortBy] selects. *)
Definition order_of (params : FilterParams) : Order :=
  if given (sortBy params) then
    let sortBy := text (sortBy params) in
    if String.eqb sortBy "recent"
    then desc (null_last Z.leb) Card.createdAt
    else if String.eqb sortBy "playerNameAsc"
    then asc text_le Card.playerName
    else if String.eqb sortBy "playerNameDesc"
    then desc text_le Card.playerName
    else if String.eqb sortBy "valueDesc"
    then desc (null_last number_le) Card.currentValue
    else if String.eqb sortBy "valueAsc"
    then asc (null_last number_le) Card.currentValue
    else if String.eqb sortBy "yearDesc"
    then desc Z.leb Card.year
    else if String.eqb sortBy "yearAsc"
    then asc Z.leb Card.year
    else desc Z.leb Card.id
  else desc Z.leb Card.id.

(** A filter parameter that filters nothing: absent, empty or "all". *)
Definition unset (param : option string) : bool :=
  negb (given param) || String.eqb (text param) "all".

(** The texts the query binds as parameters: the search term, and the
    sport, brand and condition that filter. *)
Definition bound_texts (params : FilterParams) : list string :=
  ((if given (search params) then [text (search params)] else [])
   ++ (if unset (sport params) then [] else [text (sport params)])
   ++ (if unset (brand params) then [] else [text (brand params)])
   ++ (if unset (condition params) then []
       else [text (condition params)]))%list.

(** None of them holds a NUL character. *)
Definition bindable (params : FilterParams) : bool :=
  forallb text_param (bound_texts params).

(** The card has the value an equality filter asks for. *)
Definition wanted (param : option string) (field : string) : bool :=
  unset param || String.eqb field (text param).

(** The card passes the search, sport, brand and condition filters. *)
Definition passes (params : FilterParams) (card : Card.t) : bool :=
  (negb (given (search params))
   || Spec.search_matches (text (search params)) card)
  && wanted (sport params) (Card.sport card)
  && wanted (brand params) (Card.brand card)
  && wanted (condition params) (Card.condition card).

(** A card stored for validated data carries every member of the data,
    the id the sequence gave out and the time of the insertion; the user
    it names, if any, is a user of the database. *)
Definition stored_in_full (data : InsertCard.t) (db : Db) (card : Card.t)
  : Prop :=
  Card.id card = cards_id_seq db
  /\ Card.playerName card = InsertCard.playerName data
  /\ Card.sport card = InsertCard.sport data
  /\ Card.year card = InsertCard.year data
  /\ Card.brand card = InsertCard.brand data
  /\ Card.cardSet card = Some (InsertCard.cardSet data)
  /\ Card.condition card = InsertCard.condition data
  /\ Card.purchasePrice card = Some (InsertCard.purchasePrice data)
  /\ Card.currentValue card = Some (InsertCard.currentValue data)
  /\ Card.notes card = Some (InsertCard.notes data)
  /\ Card.imageUrl card = Some (InsertCard.imageUrl data)
  /\ Card.cardNumber card = Some (InsertCard.cardNumber data)
  /\ match InsertCard.userId data with
     | None => Card.userId card = None
     | Some n =>
         exists z, as_integer n = Some z
                   /\ Card.userId card = Some z
                   /\ In z (map User.id (users db))
     end
  /\ Card.createdAt card = Some (now db).

(** The ids of the stored cards are distinct and were all drawn from the
    sequence. *)
Definition well_keyed (db : Db) : Prop :=
  NoDup (map Card.id (cards db))
  /\ Forall (fun row => Card.id row < cards_id_seq db) (cards db).

(** The first row with the given id, as [getCard] selects it. *)
Definition find_row (id : Z) (rows : list Card.t) : option Card.t :=
  head (List.filter (fun row => Card.id row =? id) rows).

(** The names [sortBy] gives a meaning to. *)
Definition sort_options : list string :=
  ["recent"; "playerNameAsc"; "playerNameDesc"; "valueDesc"; "valueAsc";
   "yearDesc"; "yearAsc"].

Definition by_sort (sortBy : option string) : FilterParams :=
  Spec.unfiltered sortBy.

(** The members [insertCardSchema] knows. *)
Definition card_fields : list string :=
  ["playerName"; "sport"; "year"; "brand"; "cardSet"; "condition";
   "purchasePrice"; "currentValue"; "notes"; "imageUrl"; "cardNumber";
   "userId"].

(** The parts of a card's search query before duplicates are dropped. *)
Definition query_candidates (card : Card.t) : list string :=
  [Card.playerName card; default "" (Card.cardSet card);
   "#" ++ default "" (Card.cardNumber card); default "" (Card.notes card);
   show_int (Card.year card); Card.brand card].

(** The cards of the successful outcomes, in order. *)
Definition imported (results : list Routes.ImportResult) : list Card.t :=
  flat_map (fun r => match r with
                     | Routes.Imported card => [card]
                     | Routes.Failed _ _ => []
                     end) results.

(** The members [insertCardSchema] requires. *)
Definition required_fields : list string :=
  ["playerName"; "sport"; "year"; "brand"; "condition"].

(** The members the import converts to numbers. *)
Definition converted_fields : list string :=
  ["year"; "purchasePrice"; "currentValue"].

(** Validated data for the examples. *)
Definition sample_insert : InsertCard.t :=
  {| InsertCard.playerName := "Lionel Messi"; InsertCard.sport := "soccer";
     InsertCard.year := 2015; InsertCard.brand := "Topps";
     InsertCard.cardSet := "Chrome"; InsertCard.condition := "raw";
     InsertCard.purchasePrice := Num 0; InsertCard.currentValue := Num 0;
     InsertCard.notes := ""; InsertCard.imageUrl := "";
     InsertCard.cardNumber := ""; InsertCard.userId := None |}.

Definition rename_patch : Repository.CardPatch.t :=
  {| Repository.CardPatch.playerName := Some "Leo Messi";
     Repository.CardPatch.sport := None; Repository.CardPatch.year := None;
     Repository.CardPatch.brand := None; Repository.CardPatch.cardSet := None;
     Repository.CardPatch.condition := None;
     Repository.CardPatch.purchasePrice := None;
     Repository.CardPatch.currentValue := None;
     Repository.CardPatch.notes := None;
     Repository.CardPatch.imageUrl := None;
     Repository.CardPatch.cardNumber := None;
     Repository.CardPatch.userId := None |}.

End Query.

(** ** The recognizer's media type and the upload filters *)

Module Media.
Import JS.

(** [getValidMediaType] (imageRecognitionService.ts, lines 15-29). *)
Definition getValidMediaType (contentType : string) : string :=
  let loweredType := toLowerCase contentType in
  if includes "jpeg" loweredType || includes "jpg" loweredType
  then "image/jpeg"
  else if includes "png" loweredType then "image/png"
  else if includes "gif" loweredType then "image/gif"
  else if includes "webp" loweredType then "image/webp"
  else "image/jpeg".

(** [allowedMimeTypes] of [imageUpload] (routes.ts, line 37). *)
Definition image_types : list string :=
  ["image/jpeg"; "image/png"; "image/gif"; "image/webp"].

(** [allowedMimeTypes.includes(file.mimetype)] (routes.ts, line 38). *)
Definition image_allowed (mimetype : string) : bool :=
  existsb (String.eqb mimetype) image_types.

(** A string without the character [c]. *)
Fixpoint lacks (c : ascii) (s : string) : bool :=
  match s with
  | EmptyString => true
  | String d s' => negb (Ascii.eqb d c) && lacks c s'
  end.

(** A non-empty string value. *)
Definition filled (v : value) : Prop :=
  exists s, v = VStr s /\ s <> "".

End Media.

(** ** What validation relates *)

Module Validation.
Import JS Schema.

(** The keys of [insertCardSchema], in its order. *)
Definition schema_keys : list string :=
  ["playerName"; "sport"; "year"; "brand"; "cardSet"; "condition";
   "purchasePrice"; "currentValue"; "notes"; "imageUrl"; "cardNumber";
   "userId"].

(** An optional text member: absent and defaulted to the empty string, or
    given as that string. *)
Definition text_or_default (v : value) (s : string) : Prop :=
  (v = VUndefined /\ s = "") \/ v = VStr s.

(** An input with the five required members only. *)
Definition minimal (playerName sport brand condition : string) (year : Z)
  : gmap string value :=
  <["playerName" := VStr playerName]>
    (<["sport" := VStr sport]>
       (<["year" := VNum (Num (inject_Z year))]>
          (<["brand" := VStr brand]>
             (<["condition" := VStr condition]> ∅)))).

End Validation.

(** ** The card grid's pages (CardGrid) *)

Module CardGrid.

(** [Array.prototype.slice(start, end)]: a negative index counts from the
    end, and both are clamped to the array. *)
Definition relative_index (len i : Z) : Z :=
  if i <? 0 then Z.max (len + i) 0 else Z.min i len.

Definition slice {A : Type} (arr : list A) (start final : Z) : list A :=
  let len := Z.of_nat (length arr) in
  let k := relative_index len start in
  let final := relative_index len final in
  firstn (Z.to_nat (Z.max (final - k) 0)) (skipn (Z.to_nat k) arr).

Definition itemsPerPage : Z := 15.

(** [Math.ceil(cards.length / itemsPerPage)] (line 22). *)
Definition totalPages {A : Type} (cards : list A) : Z :=
  Qceiling (inject_Z (Z.of_nat (length cards)) / inject_Z itemsPerPage).

(** [currentItems] (lines 25-29). *)
Definition currentItems {A : Type} (cards : list A) (currentPage : Z)
  : list A :=
  let indexOfLastItem := currentPage * itemsPerPage in
  let indexOfFirstItem := indexOfLastItem - itemsPerPage in
  slice cards indexOfFirstItem indexOfLastItem.

(** The two numbers of "Showing a-b of n cards" (lines 96-97). *)
Definition first_shown {A : Type} (cards : list A) (currentPage : Z) : Z :=
  Z.min ((currentPage - 1) * itemsPerPage + 1) (Z.of_nat (length cards)).

Definition last_shown {A : Type} (cards : list A) (currentPage : Z) : Z :=
  Z.min (currentPage * itemsPerPage) (Z.of_nat (length cards)).

(** The number on the [i]-th page button (lines 144-153). *)
Definition pageNum (totalPages currentPage i : Z) : Z :=
  if totalPages <=? 5 then i + 1
  else if currentPage <=? 3 then i + 1
  else if currentPage >=? totalPages - 2 then totalPages - 4 + i
  else currentPage - 2 + i.

(** The window of page buttons (lines 143-172): [Math.min(5, totalPages)]
    candidates, without those past the last page. *)
Definition page_window (totalPages currentPage : Z) : list Z :=
  List.filter (fun pageNum => negb (totalPages <? pageNum))
    (map (fun i => pageNum totalPages currentPage (Z.of_nat i))
       (seq 0 (Z.to_nat (Z.min 5 totalPages)))).

(** The button of the last page, drawn after the ellipsis (lines
    174-191). *)
Definition last_page_button (totalPages currentPage : Z) : list Z :=
  if (5 <? totalPages) && (currentPage <? totalPages - 2)
  then [totalPages] else [].

(** The numbered buttons of the navigation, in the order they are drawn;
    the navigation is there only for more than one page (line 119). *)
Definition page_buttons (totalPages currentPage : Z) : list Z :=
  if 1 <? totalPages
  then (page_window totalPages currentPage
        ++ last_page_button totalPages currentPage)%list
  else [].

(** The previous and next buttons (lines 135 and 197). *)
Definition previous_page (currentPage : Z) : Z := Z.max (currentPage - 1) 1.
Definition next_page (totalPages currentPage : Z) : Z :=
  Z.min (currentPage + 1) totalPages.

(** The page numbers 1, ..., [totalPages]. *)
Definition page_numbers {A : Type} (cards : list A) : list Z :=
  map Z.of_nat (seq 1 (Z.to_nat (totalPages cards))).

End CardGrid.

Module PriceFacts.
Import Spec.
Import JS PriceService.

Section Generator.

Variable Math_sin : Z -> Q.

(** The fraction [x - Math.floor(x)] lies in [0, 1). *)
Lemma fraction_bounds (x : Q) :
  (0 <= x - inject_Z (Qfloor x) /\ x - inject_Z (Qfloor x) < 1)%Q.
Proof.
  pose proof (Qfloor_le x) as Hlo.
  pose proof (Qlt_floor x) as Hhi.
  rewrite inject_Z_plus in Hhi. change (inject_Z 1) with 1%Q in Hhi.
  split; lra.
Qed.

Lemma scaled_floor_bounds (r : Q) (min max : Z) :
  (0 <= r)%Q -> (r < 1)%Q -> min <= max ->
  min <= Qfloor (r * inject_Z (max - min + 1) + inject_Z min) <= max.
Proof.
  intros Hr0 Hr1 Hmm.
  set (n := max - min + 1).
  assert (Hn : (1 <= inject_Z n)%Q).
  { change 1%Q with (inject_Z 1). rewrite <- Zle_Qle. subst n. lia. }
  assert (Hpos : (0 <= r * inject_Z n)%Q) by (apply Qmult_le_0_compat; lra).
  assert (Hlt : (r * inject_Z n < 1 * inject_Z n)%Q)
    by (apply Qmult_lt_compat_r; lra).
  assert (Hlo : (inject_Z min <= r * inject_Z n + inject_Z min)%Q) by lra.
  assert (Hhi : (r * inject_Z n + inject_Z min < inject_Z (max + 1))%Q).
  { replace (max + 1) with (n + min) by (subst n; lia).
    rewrite inject_Z_plus. lra. }
  split.
  - pose proof (Qfloor_resp_le _ _ Hlo) as Hfl.
    rewrite Qfloor_Z in Hfl. exact Hfl.
  - pose proof (Qfloor_le (r * inject_Z n + inject_Z min)) as Hfl.
    assert (H : (inject_Z (Qfloor (r * inject_Z n + inject_Z min))
                 < inject_Z (max + 1))%Q) by lra.
    rewrite <- Zlt_Qlt in H. lia.
Qed.

Lemma random_spec (min max seed v seed' : Z) :
  random Math_sin min max seed = (v, seed') ->
  seed' = seed + 1 /\ (min <= max -> min <= v <= max).
Proof.
  unfold random. intros H. apply pair_equal_spec in H. destruct H as [<- <-].
  split; [reflexivity|]. intros Hmm.
  destruct (fraction_bounds (Math_sin seed * 10000)) as [H0 H1].
  now apply scaled_floor_bounds.
Qed.

Lemma index_defined {A : Type} (arr : list A) (i : Z) :
  0 <= i <= len arr - 1 -> exists x, index arr i = Some x /\ In x arr.
Proof.
  unfold index, len. intros Hi.
  destruct (i <? 0) eqn:Hneg; [lia|].
  destruct (nth_error arr (Z.to_nat i)) as [x|] eqn:Hx.
  - exists x. split; [reflexivity|]. eapply nth_error_In; eassumption.
  - apply nth_error_None in Hx. lia.
Qed.

(** One step through a call of [random]: name its value and the bounds. *)
Ltac draw v Hv :=
  match goal with
  | |- context [random ?M ?a ?b ?s] =>
      let s' := fresh "seed" in
      let E := fresh "E" in
      destruct (random M a b s) as [v s'] eqn:E;
      apply random_spec in E; destruct E as [-> Hv];
      specialize (Hv ltac:(vm_compute; discriminate));
      cbv beta iota
  end.

Lemma generate_item_well_formed (searchQuery : string) (basePrice : Q)
    (seed : Z) :
  well_formed searchQuery (fst (generate_item Math_sin searchQuery basePrice seed)).
Proof.
  cbv [generate_item bind ret].
  draw v Hv. draw ci Hci. draw coin Hcoin.
  destruct (index_defined conditionTerms ci Hci) as (c & Hc & Hcin).
  assert (Htail : forall (e : string) (s : Z),
             In e ("" :: extraTerms) ->
             well_formed searchQuery
               (fst (let (di, s1) := random Math_sin 0 (len dates - 1) s in
                     let (l, s2) := random Math_sin 100000000 999999999 s1 in
                     let (im, s3) := random Math_sin 10000 99999 s2 in
                     ({| title := trim (searchQuery ++ " - "
                                          ++ interpolate (Some c) ++ " "
                                          ++ interpolate (Some e));
                         price := toFixed2 (basePrice
                                            + basePrice * (inject_Z v / 100));
                         date := index dates di;
                         link := "https://www.ebay.com/itm/" ++ show_int l;
                         imageUrl := "https://i.ebayimg.com/images/g/"
                                       ++ show_int im ++ "/s-l1600.jpg" |},
                      s3)))).
  { intros e s Hein.
    draw di Hdi. draw l Hl. draw im Him.
    destruct (index_defined dates di Hdi) as (d & Hd & Hdin).
    cbn [fst title price date interpolate].
    repeat split.
    - exists d. split; assumption.
    - exists c, e. repeat split; assumption.
    - unfold toFixed2. destruct (Qle_bool 0 _); symmetry; apply Qred_complete, Qred_correct. }
  rewrite Hc.
  destruct (coin =? 1); cbv beta iota.
  - draw ei Hei.
    destruct (index_defined extraTerms ei Hei) as (e & He & Hein).
    rewrite He. apply Htail. now right.
  - apply Htail. now left.
Qed.

Lemma generate_loop_spec (searchQuery : string) (basePrice : Q) (n : nat)
    (seed : Z) :
  length (fst (generate_loop Math_sin searchQuery basePrice n seed)) = n
  /\ Forall (well_formed searchQuery)
       (fst (generate_loop Math_sin searchQuery basePrice n seed)).
Proof.
  revert seed. induction n as [|n IH]; intros seed; cbn [generate_loop].
  - split; [reflexivity | constructor].
  - unfold bind, ret.
    pose proof (generate_item_well_formed searchQuery basePrice seed) as Hitem.
    destruct (generate_item Math_sin searchQuery basePrice seed) as [item s1].
    specialize (IH s1).
    destruct (generate_loop Math_sin searchQuery basePrice n s1) as [rest s2].
    cbn [fst length] in *. destruct IH as [Hlen Hall].
    split; [now rewrite Hlen | now constructor].
Qed.

(** The loop runs [itemCount] times, a number between 5 and 15. *)
Lemma generate_items_spec (searchQuery : string) :
  (5 <= length (generate_items Math_sin searchQuery) <= 15)%nat
  /\ Forall (well_formed searchQuery) (generate_items Math_sin searchQuery).
Proof.
  unfold generate_items, bind.
  draw k Hk. draw itemCount Hcount.
  match goal with
  | |- context [generate_loop _ _ ?bp ?n ?s] =>
      destruct (generate_loop_spec searchQuery bp n s) as [Hlen Hall]
  end.
  rewrite Hlen. split; [lia | exact Hall].
Qed.

Lemma generate_item_draws (q1 q2 : string) (bp1 bp2 : Q) (seed : Z) :
  snd (generate_item Math_sin q1 bp1 seed)
  = snd (generate_item Math_sin q2 bp2 seed)
  /\ Spec.draws (fst (generate_item Math_sin q1 bp1 seed))
     = Spec.draws (fst (generate_item Math_sin q2 bp2 seed)).
Proof.
  cbv [generate_item bind ret].
  draw v Hv. draw ci Hci. draw coin Hcoin.
  destruct (coin =? 1); cbv beta iota.
  - draw ei Hei. draw di Hdi. draw l Hl. draw im Him. now split.
  - draw di Hdi. draw l Hl. draw im Him. now split.
Qed.

Lemma generate_loop_draws (q1 q2 : string) (bp1 bp2 : Q) (n : nat) (seed : Z) :
  map Spec.draws (fst (generate_loop Math_sin q1 bp1 n seed))
  = map Spec.draws (fst (generate_loop Math_sin q2 bp2 n seed)).
Proof.
  revert seed. induction n as [|n IH]; intros seed; cbn [generate_loop].
  - reflexivity.
  - unfold bind, ret.
    destruct (generate_item_draws q1 q2 bp1 bp2 seed) as [Hseed Hdraws].
    destruct (generate_item Math_sin q1 bp1 seed) as [i1 s1].
    destruct (generate_item Math_sin q2 bp2 seed) as [i2 s2].
    cbn [fst snd] in Hseed, Hdraws. subst s2.
    specialize (IH s1).
    destruct (generate_loop Math_sin q1 bp1 n s1) as [r1 t1].
    destruct (generate_loop Math_sin q2 bp2 n s1) as [r2 t2].
    cbn [fst map] in *. now rewrite Hdraws, IH.
Qed.

Lemma initial_seed_sum (q : string) : initial_seed q = Spec.char_code_sum q.
Proof.
  unfold initial_seed, Spec.char_code_sum.
  assert (H : forall cs acc,
             fold_left (fun acc char => acc + charCodeAt char) cs acc
             = acc + fold_right (fun c total => charCodeAt c + total) 0 cs).
  { induction cs as [|c cs IH]; intros acc; cbn [fold_left fold_right].
    - lia.
    - rewrite IH. lia. }
  rewrite H. lia.
Qed.

(** Queries with the same character-code sum get the same draws. *)
Lemma generate_items_draws (q1 q2 : string) :
  Spec.char_code_sum q1 = Spec.char_code_sum q2 ->
  map Spec.draws (generate_items Math_sin q1)
  = map Spec.draws (generate_items Math_sin q2).
Proof.
  intros Hsum. unfold generate_items, bind.
  rewrite !initial_seed_sum, Hsum.
  draw k Hk. draw itemCount Hcount.
  apply generate_loop_draws.
Qed.

End Generator.

(** *** Statistics *)

Lemma sum_prices_fold_right (prices : list Q) :
  (sum_prices prices == fold_right Qplus 0 prices)%Q.
Proof.
  unfold sum_prices.
  assert (H : forall acc,
             (fold_left (fun sum price => sum + price) prices acc
              == acc + fold_right Qplus 0 prices)%Q).
  { induction prices as [|p prices IH]; intros acc; cbn [fold_left fold_right].
    - ring.
    - rewrite IH. ring. }
  rewrite H. ring.
Qed.

Lemma Qmin'_spec (a b : Q) :
  (Qmin' a b = a \/ Qmin' a b = b) /\ (Qmin' a b <= a)%Q /\ (Qmin' a b <= b)%Q.
Proof.
  unfold Qmin'. destruct (Qle_bool a b) eqn:E.
  - apply Qle_bool_iff in E. repeat split; auto; lra.
  - assert (~ (a <= b)%Q) by (rewrite <- Qle_bool_iff; congruence).
    repeat split; auto; lra.
Qed.

Lemma Qmax'_spec (a b : Q) :
  (Qmax' a b = a \/ Qmax' a b = b) /\ (a <= Qmax' a b)%Q /\ (b <= Qmax' a b)%Q.
Proof.
  unfold Qmax'. destruct (Qle_bool a b) eqn:E.
  - apply Qle_bool_iff in E. repeat split; auto; lra.
  - assert (~ (a <= b)%Q) by (rewrite <- Qle_bool_iff; congruence).
    repeat split; auto; lra.
Qed.

Lemma fold_min_spec (xs : list Q) (x : Q) :
  In (fold_left Qmin' xs x) (x :: xs)
  /\ forall y, In y (x :: xs) -> (fold_left Qmin' xs x <= y)%Q.
Proof.
  revert x. induction xs as [|a xs IH]; intros x; cbn [fold_left].
  - split; [now left|]. intros y [<-|[]]. lra.
  - destruct (IH (Qmin' x a)) as [Hin Hle].
    destruct (Qmin'_spec x a) as (Hsel & Hx & Ha).
    split.
    + destruct Hin as [Hin|Hin].
      * rewrite <- Hin. destruct Hsel as [-> | ->]; [now left | now right; left].
      * now right; right.
    + intros y [<-|[<-|Hy]].
      * apply Qle_trans with (Qmin' x a); [apply Hle; now left | exact Hx].
      * apply Qle_trans with (Qmin' x a); [apply Hle; now left | exact Ha].
      * apply Hle. now right.
Qed.

Lemma fold_max_spec (xs : list Q) (x : Q) :
  In (fold_left Qmax' xs x) (x :: xs)
  /\ forall y, In y (x :: xs) -> (y <= fold_left Qmax' xs x)%Q.
Proof.
  revert x. induction xs as [|a xs IH]; intros x; cbn [fold_left].
  - split; [now left|]. intros y [<-|[]]. lra.
  - destruct (IH (Qmax' x a)) as [Hin Hle].
    destruct (Qmax'_spec x a) as (Hsel & Hx & Ha).
    split.
    + destruct Hin as [Hin|Hin].
      * rewrite <- Hin. destruct Hsel as [-> | ->]; [now left | now right; left].
      * now right; right.
    + intros y [<-|[<-|Hy]].
      * apply Qle_trans with (Qmax' x a); [exact Hx | apply Hle; now left].
      * apply Qle_trans with (Qmax' x a); [exact Ha | apply Hle; now left].
      * apply Hle. now right.
Qed.

(** [sort] returns the same numbers in ascending order. *)
Lemma insert_sorted_perm (x : Q) (l : list Q) :
  Permutation (insert_sorted x l) (x :: l).
Proof.
  induction l as [|y l IH]; cbn [insert_sorted]; [reflexivity|].
  destruct (Qle_bool x y); [reflexivity|].
  rewrite IH. apply perm_swap.
Qed.

Lemma insert_sorted_sorted (x : Q) (l : list Q) :
  StronglySorted Qle l -> StronglySorted Qle (insert_sorted x l).
Proof.
  induction 1 as [|y l Hl IH Hy]; cbn [insert_sorted].
  - repeat constructor.
  - destruct (Qle_bool x y) eqn:E.
    + apply Qle_bool_iff in E. constructor; [now constructor|].
      constructor; [exact E|].
      eapply Forall_impl; [exact Hy|]. intros z Hz. now apply Qle_trans with y.
    + assert (Hyx : (y <= x)%Q).
      { assert (~ (x <= y)%Q) by (rewrite <- Qle_bool_iff; congruence). lra. }
      constructor; [exact IH|].
      rewrite (insert_sorted_perm x l). now constructor.
Qed.

Lemma sort_ascending_perm (xs : list Q) : Permutation (sort_ascending xs) xs.
Proof.
  induction xs as [|x xs IH]; cbn; [reflexivity|].
  fold (sort_ascending xs). rewrite insert_sorted_perm. now constructor.
Qed.

Lemma sort_ascending_sorted (xs : list Q) :
  StronglySorted Qle (sort_ascending xs).
Proof.
  induction xs as [|x xs IH]; cbn; [constructor|].
  now apply insert_sorted_sorted.
Qed.

(** Numbers in lowest terms are equal as soon as they compare both ways. *)
Lemma reduced_antisym (x y : Q) :
  x = Qred x -> y = Qred y -> (x <= y)%Q -> (y <= x)%Q -> x = y.
Proof.
  intros Hx Hy Hxy Hyx. rewrite Hx, Hy.
  apply Qred_complete, Qle_antisym; assumption.
Qed.

Lemma sorted_unique (prices s1 s2 : list Q) :
  Forall (fun p => p = Qred p) prices ->
  Permutation s1 prices -> StronglySorted Qle s1 ->
  Permutation s2 prices -> StronglySorted Qle s2 ->
  s1 = s2.
Proof.
  intros Hred Hp1 Hs1 Hp2 Hs2.
  apply (StronglySorted_unique_strong Qle); try assumption.
  - intros x1 x2 Hx1 Hx2. rewrite Forall_forall in Hred.
    apply reduced_antisym; apply Hred.
    + now rewrite <- Hp1.
    + now rewrite <- Hp2.
  - now rewrite Hp1, Hp2.
Qed.

Lemma index_of_nat {A : Type} (l : list A) (i : nat) :
  index l (Z.of_nat i) = nth_error l i.
Proof.
  unfold index. destruct (Z.of_nat i <? 0) eqn:E.
  - apply Z.ltb_lt in E. lia.
  - now rewrite Nat2Z.id.
Qed.

Lemma even_mod2 (n : nat) : Nat.even n = (Z.of_nat n mod 2 =? 0).
Proof.
  destruct (Nat.even n) eqn:E; symmetry.
  - apply Nat.even_spec in E. destruct E as [m ->].
    apply Z.eqb_eq. zify. Z.to_euclidean_division_equations. lia.
  - assert (Hodd : Nat.odd n = true) by (unfold Nat.odd; now rewrite E).
    apply Nat.odd_spec in Hodd. destruct Hodd as [m ->].
    apply Z.eqb_neq. zify. Z.to_euclidean_division_equations. lia.
Qed.

(** Lines 96-104 compute the median of the sorted prices, and that value
    lies between any bounds of the prices. *)
Lemma median_spec (prices : list Q) :
  prices <> [] ->
  exists med,
    median prices = Num med
    /\ med = Spec.median_of_sorted (sort_ascending prices)
    /\ forall lo hi, (forall p, In p prices -> (lo <= p <= hi)%Q) ->
                     (lo <= med <= hi)%Q.
Proof.
  intros Hne.
  pose proof (sort_ascending_perm prices) as Hperm.
  assert (Hlen : length (sort_ascending prices) = length prices)
    by now apply Permutation_length.
  assert (Hpos : (0 < length prices)%nat)
    by (destruct prices; [congruence | cbn; lia]).
  unfold median, Spec.median_of_sorted.
  set (s := sort_ascending prices) in *.
  set (n := length s) in *.
  assert (Hk : Z.of_nat n / 2 = Z.of_nat (n / 2)) by now rewrite Nat2Z.inj_div.
  assert (Hkn : (n / 2 < n)%nat) by (apply Nat.div_lt; lia).
  assert (Hbound : forall i a lo hi,
             nth_error s i = Some a ->
             (forall p, In p prices -> (lo <= p <= hi)%Q) -> (lo <= a <= hi)%Q).
  { intros i a lo hi Hi Hb. apply Hb. apply (Permutation_in _ Hperm).
    eapply nth_error_In; eassumption. }
  assert (Emid : nth_error s (n / 2) = Some (nth (n / 2) s 0%Q))
    by (apply nth_error_nth'; fold n; lia).
  rewrite Hk, even_mod2. fold n.
  destruct (Z.of_nat n mod 2 =? 0) eqn:Heven.
  - apply Z.eqb_eq in Heven.
    assert (H1 : (1 <= n / 2)%nat)
      by (zify; Z.to_euclidean_division_equations; lia).
    assert (Elow : nth_error s (n / 2 - 1) = Some (nth (n / 2 - 1) s 0%Q))
      by (apply nth_error_nth'; fold n; lia).
    replace (Z.of_nat (n / 2) - 1) with (Z.of_nat (n / 2 - 1)) by lia.
    rewrite !index_of_nat, Elow, Emid.
    eexists. split; [reflexivity|]. split; [reflexivity|].
    intros lo hi Hb.
    pose proof (Hbound _ _ lo hi Elow Hb) as Ha.
    pose proof (Hbound _ _ lo hi Emid Hb) as Hb'.
    split.
    + apply Qle_shift_div_l; lra.
    + apply Qle_shift_div_r; lra.
  - rewrite index_of_nat, Emid.
    eexists. split; [reflexivity|]. split; [reflexivity|].
    intros lo hi Hb. exact (Hbound _ _ lo hi Emid Hb).
Qed.

(** *** The properties *)

(** C5. The returned item list is the first ten generated items, so it has
    at most 10 entries, and [totalResults] is the number of items generated
    before the truncation, hence at least the length of the list. *)
Theorem items_truncated_total_untruncated (Math_sin : Z -> Q)
    (searchQuery : string) (out : Console) :
  let analysis := fst (scrapeEbayPrices Math_sin searchQuery out) in
  items analysis = firstn 10 (generate_items Math_sin searchQuery)
  /\ (length (items analysis) <= 10)%nat
  /\ totalResults analysis = length (generate_items Math_sin searchQuery)
  /\ (length (items analysis) <= totalResults analysis)%nat.
Proof.
  cbn [scrapeEbayPrices fst analyse items totalResults].
  rewrite length_firstn. repeat split; lia.
Qed.



(** C6. Two calls with the identical search string return identical
    analyses, whatever was logged before and also when the second call
    follows the first; the generator's seed is the sum of the character
    codes of the string, and what the generator alone decides (the number
    of items, their dates, links and image URLs) is the same for any two
    strings with the same sum. *)
Theorem same_query_same_analysis (Math_sin : Z -> Q) (searchQuery : string)
    (out1 out2 : Console) :
  fst (scrapeEbayPrices Math_sin searchQuery out1)
  = fst (scrapeEbayPrices Math_sin searchQuery out2)
  /\ fst (scrapeEbayPrices Math_sin searchQuery
            (snd (scrapeEbayPrices Math_sin searchQuery out1)))
     = fst (scrapeEbayPrices Math_sin searchQuery out1)
  /\ initial_seed searchQuery = Spec.char_code_sum searchQuery
  /\ (forall other : string,
         Spec.char_code_sum other = Spec.char_code_sum searchQuery ->
         totalResults (fst (scrapeEbayPrices Math_sin other out2))
         = totalResults (fst (scrapeEbayPrices Math_sin searchQuery out1))
         /\ map Spec.draws (generate_items Math_sin other)
            = map Spec.draws (generate_items Math_sin searchQuery)).
Proof.
  split; [reflexivity|]. split; [reflexivity|].
  split; [apply initial_seed_sum|].
  intros other Hsum.
  pose proof (generate_items_draws Math_sin other searchQuery Hsum) as Hd.
  split; [|exact Hd].
  cbn [scrapeEbayPrices fst analyse totalResults].
  rewrite <- (length_map Spec.draws (generate_items Math_sin other)).
  rewrite <- (length_map Spec.draws (generate_items Math_sin searchQuery)).
  now rewrite Hd.
Qed.

Lemma same_query_same_analysis_witness :
  Spec.char_code_sum "ba" = Spec.char_code_sum "ab"
  /\ map Spec.draws (generate_items Spec.sample_sine "ba")
     = map Spec.draws (generate_items Spec.sample_sine "ab").
Proof.
  split; [reflexivity|].
  apply (same_query_same_analysis Spec.sample_sine "ab" [] []). reflexivity.
Defined.

End PriceFacts.

(* ===================================================================== *)
(** ** Double-precision arithmetic: rounding is monotone                  *)
(* ===================================================================== *)

Module Binary64Facts.
Import JS Binary64.

(** *** Rounding to an integer *)

Lemma rne_floor (x : Q) : Qfloor x <= rne x <= Qfloor x + 1.
Proof.
  unfold rne. destruct (_ ?= _)%Q; [destruct (Z.even _)| |]; lia.
Qed.

Lemma rne_inject_Z (z : Z) : rne (inject_Z z) = z.
Proof.
  unfold rne. rewrite Qfloor_Z.
  destruct (Qcompare_spec (inject_Z z - inject_Z z) (1 # 2));
    [lra | reflexivity | lra].
Qed.

Lemma rne_mono (x y : Q) : (x <= y)%Q -> rne x <= rne y.
Proof.
  intros Hxy.
  pose proof (Qfloor_resp_le x y Hxy) as Hf.
  destruct (Z.eq_dec (Qfloor x) (Qfloor y)) as [E|E].
  - unfold rne. rewrite <- E.
    destruct (Qcompare_spec (x - inject_Z (Qfloor x)) (1 # 2));
      destruct (Qcompare_spec (y - inject_Z (Qfloor x)) (1 # 2));
      try (destruct (Z.even (Qfloor x))); try lia; lra.
  - pose proof (rne_floor x). pose proof (rne_floor y). lia.
Qed.

(** *** Rounding a magnitude to the doubles *)

Lemma pow2_pos (s : Z) : 0 <= s -> (0 < inject_Z (2 ^ s))%Q.
Proof.
  intros Hs. change 0%Q with (inject_Z 0). rewrite <- Zlt_Qlt.
  now apply Z.pow_pos_nonneg.
Qed.

Lemma spacing_nonneg (t : Q) : 0 <= spacing t.
Proof. unfold spacing. lia. Qed.

Lemma round_scaled_nonneg (t : Q) : (0 <= t)%Q -> 0 <= round_scaled t.
Proof.
  intros Ht. unfold round_scaled.
  pose proof (spacing_nonneg t) as Hs.
  pose proof (pow2_pos _ Hs) as Hp.
  apply Z.mul_nonneg_nonneg; [|apply Z.pow_nonneg; lia].
  rewrite <- (rne_inject_Z 0). apply rne_mono.
  change (inject_Z 0) with 0%Q.
  apply Qle_shift_div_l; [exact Hp | lra].
Qed.

(** A magnitude whose doubles are spaced by [2^s] is below [2^(s+53)],
    and so is its rounding. *)
Lemma round_scaled_below (t : Q) :
  (0 <= t)%Q ->
  (t < inject_Z (2 ^ (spacing t + 53)))%Q
  /\ round_scaled t <= 2 ^ (spacing t + 53).
Proof.
  intros Ht. pose proof (spacing_nonneg t) as Hs.
  pose proof (pow2_pos _ Hs) as Hp.
  assert (Hfloor : Qfloor t < 2 ^ (spacing t + 53)).
  { assert (H0 : 0 <= Qfloor t).
    { rewrite <- (Qfloor_Z 0). now apply Qfloor_resp_le. }
    destruct (Z.eq_dec (Qfloor t) 0) as [->|Hne].
    - apply Z.pow_pos_nonneg; lia.
    - destruct (Z.log2_spec (Qfloor t) ltac:(lia)) as [_ Hlt].
      eapply Z.lt_le_trans; [exact Hlt|].
      apply Z.pow_le_mono_r; [lia|]. unfold spacing. lia. }
  assert (Hlt : (t < inject_Z (2 ^ (spacing t + 53)))%Q).
  { pose proof (Qlt_floor t) as H.
    eapply Qlt_le_trans; [exact H|]. rewrite <- Zle_Qle. lia. }
  split; [exact Hlt|].
  unfold round_scaled.
  replace (2 ^ (spacing t + 53)) with (2 ^ 53 * 2 ^ spacing t)
    by (rewrite Z.pow_add_r by lia; lia).
  apply Z.mul_le_mono_nonneg_r; [apply Z.pow_nonneg; lia|].
  rewrite <- (rne_inject_Z (2 ^ 53)). apply rne_mono.
  apply Qle_shift_div_r; [exact Hp|].
  rewrite <- inject_Z_mult.
  replace (2 ^ 53 * 2 ^ spacing t) with (2 ^ (spacing t + 53))
    by (rewrite Z.pow_add_r by lia; lia).
  now apply Qlt_le_weak.
Qed.

(** A magnitude whose doubles are spaced by [2^s], [s > 0], is at least
    [2^(s+52)], and so is its rounding. *)
Lemma round_scaled_above (u : Q) :
  (0 <= u)%Q -> 0 < spacing u ->
  2 ^ (spacing u + 52) <= round_scaled u.
Proof.
  intros Hu Hs. pose proof (pow2_pos (spacing u) ltac:(lia)) as Hp.
  assert (Hlog : Z.log2 (Qfloor u) = spacing u + 52)
    by (unfold spacing in *; lia).
  assert (Hpos : 0 < Qfloor u).
  { destruct (Z.le_gt_cases (Qfloor u) 0) as [H|H]; [|exact H].
    rewrite (Z.log2_nonpos _ H) in Hlog. lia. }
  destruct (Z.log2_spec (Qfloor u) Hpos) as [Hle _]. rewrite Hlog in Hle.
  unfold round_scaled.
  replace (2 ^ (spacing u + 52)) with (2 ^ 52 * 2 ^ spacing u)
    by (rewrite Z.pow_add_r by lia; lia).
  apply Z.mul_le_mono_nonneg_r; [apply Z.pow_nonneg; lia|].
  rewrite <- (rne_inject_Z (2 ^ 52)). apply rne_mono.
  apply Qle_shift_div_l; [exact Hp|].
  rewrite <- inject_Z_mult.
  replace (2 ^ 52 * 2 ^ spacing u) with (2 ^ (spacing u + 52))
    by (rewrite Z.pow_add_r by lia; lia).
  eapply Qle_trans; [|apply Qfloor_le]. now rewrite <- Zle_Qle.
Qed.

Lemma spacing_mono (t u : Q) :
  (0 <= t)%Q -> (t <= u)%Q -> spacing t <= spacing u.
Proof.
  intros Ht Htu. unfold spacing.
  pose proof (Qfloor_resp_le t u Htu) as Hf.
  pose proof (Z.log2_le_mono _ _ Hf). lia.
Qed.

Lemma round_scaled_mono (t u : Q) :
  (0 <= t)%Q -> (t <= u)%Q -> round_scaled t <= round_scaled u.
Proof.
  intros Ht Htu.
  assert (Hu : (0 <= u)%Q) by lra.
  pose proof (spacing_mono t u Ht Htu) as Hs.
  pose proof (spacing_nonneg t) as Hst.
  destruct (Z.eq_dec (spacing t) (spacing u)) as [E|E].
  - unfold round_scaled. rewrite E.
    apply Z.mul_le_mono_nonneg_r; [apply Z.pow_nonneg; lia|].
    apply rne_mono.
    pose proof (pow2_pos (spacing u) ltac:(lia)) as Hp.
    unfold Qdiv. apply Qmult_le_compat_r; [exact Htu|].
    apply Qlt_le_weak. now apply Qinv_lt_0_compat.
  - destruct (round_scaled_below t Ht) as [_ Hbelow].
    pose proof (round_scaled_above u Hu ltac:(lia)) as Habove.
    assert (Hpow : 2 ^ (spacing t + 53) <= 2 ^ (spacing u + 52))
      by (apply Z.pow_le_mono_r; lia).
    lia.
Qed.

(** *** Rounding to the nearest double is monotone *)

Lemma scale_pos : (0 < inject_Z scale)%Q.
Proof. apply (pow2_pos 1074). lia. Qed.

Lemma nearest_magnitude_nonneg (q : Q) :
  (0 <= q)%Q -> (0 <= nearest_magnitude q)%Q.
Proof.
  intros Hq. unfold nearest_magnitude. pose proof scale_pos as Hs.
  apply Qle_shift_div_l; [exact Hs|]. rewrite Qmult_0_l.
  change 0%Q with (inject_Z 0). rewrite <- Zle_Qle.
  apply round_scaled_nonneg. apply Qmult_le_0_compat; [exact Hq | lra].
Qed.

Lemma nearest_magnitude_mono (x y : Q) :
  (0 <= x)%Q -> (x <= y)%Q -> (nearest_magnitude x <= nearest_magnitude y)%Q.
Proof.
  intros Hx Hxy. unfold nearest_magnitude. pose proof scale_pos as Hs.
  unfold Qdiv. apply Qmult_le_compat_r;
    [|apply Qlt_le_weak; now apply Qinv_lt_0_compat].
  rewrite <- Zle_Qle. apply round_scaled_mono.
  - apply Qmult_le_0_compat; [exact Hx | lra].
  - apply Qmult_le_compat_r; [exact Hxy | lra].
Qed.

Lemma nearest_mono (x y : Q) : (x <= y)%Q -> (nearest x <= nearest y)%Q.
Proof.
  intros Hxy. unfold nearest.
  destruct (Qle_bool 0 x) eqn:Ex; destruct (Qle_bool 0 y) eqn:Ey.
  - apply Qle_bool_iff in Ex. now apply nearest_magnitude_mono.
  - apply Qle_bool_iff in Ex.
    assert (~ (0 <= y)%Q) by (rewrite <- Qle_bool_iff; congruence). lra.
  - apply Qle_bool_iff in Ey.
    assert (Hx : ~ (0 <= x)%Q) by (rewrite <- Qle_bool_iff; congruence).
    pose proof (nearest_magnitude_nonneg (- x) ltac:(lra)).
    pose proof (nearest_magnitude_nonneg y Ey). lra.
  - assert (Hx : ~ (0 <= x)%Q) by (rewrite <- Qle_bool_iff; congruence).
    assert (Hy : ~ (0 <= y)%Q) by (rewrite <- Qle_bool_iff; congruence).
    pose proof (nearest_magnitude_mono (- y) (- x) ltac:(lra) ltac:(lra)).
    lra.
Qed.

(** [nearest] respects the equality of rationals. *)
(** Between two doubles that are no infinities, the rounding of a number
    is a number between them. *)
Lemma round64_between (q lo hi : Q) :
  (lo <= q <= hi)%Q ->
  (- inject_Z huge < nearest lo)%Q -> (nearest hi < inject_Z huge)%Q ->
  exists p, round64 q = Num p /\ (nearest lo <= p <= nearest hi)%Q.
Proof.
  intros [Hlo Hhi] Hmin Hmax.
  pose proof (nearest_mono lo q Hlo) as H1.
  pose proof (nearest_mono q hi Hhi) as H2.
  unfold round64.
  destruct (Qle_bool (inject_Z huge) (nearest q)) eqn:E1;
    [apply Qle_bool_iff in E1; lra|].
  destruct (Qle_bool (nearest q) (- inject_Z huge)) eqn:E2;
    [apply Qle_bool_iff in E2; lra|].
  eexists. split; [reflexivity|]. rewrite Qred_correct. split; assumption.
Qed.

End Binary64Facts.


(* ===================================================================== *)
(** ** The closure [random] in double precision                           *)
(* ===================================================================== *)

Module RandomFacts.
Import JS PriceService Binary64 Binary64Facts.

Lemma nearest_zero : (nearest 0 == 0)%Q.
Proof. vm_compute. reflexivity. Qed.

Lemma nearest_one : (nearest 1 == 1)%Q.
Proof. vm_compute. reflexivity. Qed.

Lemma nearest_pred_one : (nearest pred_one == pred_one)%Q.
Proof. vm_compute. reflexivity. Qed.

(** No double lies strictly between the largest double below 1 and 1. *)
Lemma nearest_below_one (d : Q) :
  (0 <= d)%Q -> (nearest d < 1)%Q -> (nearest d <= pred_one)%Q.
Proof.
  intros Hd Hlt.
  destruct (Qlt_le_dec pred_one d) as [Hgap|Hle];
    [|rewrite <- nearest_pred_one; now apply nearest_mono].
  assert (Hd1 : (d < 1)%Q).
  { destruct (Qlt_le_dec d 1) as [H|H]; [exact H|].
    pose proof (nearest_mono 1 d H) as Hm. rewrite nearest_one in Hm. lra. }
  unfold nearest in *.
  assert (Hd' : Qle_bool 0 d = true) by now apply Qle_bool_iff.
  rewrite Hd' in *. unfold nearest_magnitude in *.
  remember (2 ^ 1021) as P eqn:HP.
  assert (HPpos : 0 < P) by (subst P; now apply Z.pow_pos_nonneg).
  assert (Hscale : scale = 2 ^ 53 * P)
    by (subst P; vm_compute; reflexivity).
  assert (H1073 : 2 ^ 1073 = 2 ^ 52 * P)
    by (subst P; vm_compute; reflexivity).
  assert (H1074 : 2 ^ Z.succ 1073 = 2 ^ 53 * P)
    by (subst P; vm_compute; reflexivity).
  set (t := (d * inject_Z scale)%Q) in *.
  assert (HPq : (0 < inject_Z P)%Q)
    by (change 0%Q with (inject_Z 0); now rewrite <- Zlt_Qlt).
  assert (Hlo : (inject_Z ((2 ^ 53 - 1) * P) < t)%Q).
  { subst t. rewrite Hscale, !inject_Z_mult.
    assert (E : (inject_Z (2 ^ 53 - 1) * inject_Z P
                 == pred_one * (inject_Z (2 ^ 53) * inject_Z P))%Q)
      by (unfold pred_one; change (inject_Z (2 ^ 53 - 1))
            with (9007199254740991 # 1)%Q;
          change (inject_Z (2 ^ 53)) with (9007199254740992 # 1)%Q;
          field).
    rewrite E. apply Qmult_lt_compat_r; [|exact Hgap].
    change (inject_Z (2 ^ 53)) with (9007199254740992 # 1)%Q.
    apply Qmult_lt_0_compat; [reflexivity | exact HPq]. }
  assert (Hhi : (t < inject_Z (2 ^ 53 * P))%Q).
  { subst t. rewrite Hscale.
    rewrite <- (Qmult_1_l (inject_Z (2 ^ 53 * P))) at 2.
    apply Qmult_lt_compat_r; [|exact Hd1].
    change 0%Q with (inject_Z 0). rewrite <- Zlt_Qlt. lia. }
  assert (Hfloor : (2 ^ 53 - 1) * P <= Qfloor t < 2 ^ 53 * P).
  { split.
    - rewrite <- (Qfloor_Z ((2 ^ 53 - 1) * P)).
      apply Qfloor_resp_le. now apply Qlt_le_weak.
    - pose proof (Qfloor_le t) as H.
      assert (H' : (inject_Z (Qfloor t) < inject_Z (2 ^ 53 * P))%Q)
        by (eapply Qle_lt_trans; eassumption).
      now rewrite <- Zlt_Qlt in H'. }
  assert (Hspacing : spacing t = 1021).
  { unfold spacing.
    rewrite (Z.log2_unique (Qfloor t) 1073); [reflexivity | lia |].
    rewrite H1073, H1074. lia. }
  unfold round_scaled in *. rewrite Hspacing, <- HP in *.
  assert (Hq : 2 ^ 53 - 1 <= Qfloor (t / inject_Z P) < 2 ^ 53).
  { split.
    - rewrite <- (Qfloor_Z (2 ^ 53 - 1)). apply Qfloor_resp_le.
      apply Qle_shift_div_l; [exact HPq|].
      rewrite <- inject_Z_mult. now apply Qlt_le_weak.
    - pose proof (Qfloor_le (t / inject_Z P)) as H.
      assert (H' : (t / inject_Z P < inject_Z (2 ^ 53))%Q).
      { apply Qlt_shift_div_r; [exact HPq|]. now rewrite <- inject_Z_mult. }
      assert (H'' : (inject_Z (Qfloor (t / inject_Z P))
                     < inject_Z (2 ^ 53))%Q)
        by (eapply Qle_lt_trans; eassumption).
      now rewrite <- Zlt_Qlt in H''. }
  pose proof (rne_floor (t / inject_Z P)) as Hr.
  set (m := rne (t / inject_Z P)) in *.
  assert (Hnz : ~ (inject_Z P == 0)%Q) by lra.
  assert (Hm : m = 2 ^ 53 - 1 \/ m = 2 ^ 53) by lia.
  destruct Hm as [Hm|Hm]; rewrite Hm, Hscale in *.
  - assert (E : (inject_Z ((2 ^ 53 - 1) * P) / inject_Z (2 ^ 53 * P)
                 == pred_one)%Q).
    { rewrite !inject_Z_mult. unfold pred_one.
      change (inject_Z (2 ^ 53 - 1)) with (9007199254740991 # 1)%Q.
      change (inject_Z (2 ^ 53)) with (9007199254740992 # 1)%Q.
      field; repeat split; first [exact Hnz | discriminate]. }
    rewrite E. apply Qle_refl.
  - assert (E : (inject_Z (2 ^ 53 * P) / inject_Z (2 ^ 53 * P) == 1)%Q).
    { rewrite !inject_Z_mult.
      change (inject_Z (2 ^ 53)) with (9007199254740992 # 1)%Q.
      field; repeat split; first [exact Hnz | discriminate]. }
    rewrite E in Hlt. lra.
Qed.

Lemma round64_Num (q r : Q) : round64 q = Num r -> (r == nearest q)%Q.
Proof.
  unfold round64.
  destruct (Qle_bool (inject_Z huge) (nearest q)); [discriminate|].
  destruct (Qle_bool (nearest q) (- inject_Z huge)); [discriminate|].
  intros H. injection H as <-. apply Qred_correct.
Qed.

Lemma huge_pos : (1 < inject_Z huge)%Q.
Proof. reflexivity. Qed.

(** The fraction [x - Math.floor(x)] is a double of [[0, 1]]; below 1 it is
    at most the largest double below 1. *)
Lemma fraction_range (Math_sin : Z -> Q) (seed : Z) (r : Q) :
  fraction Math_sin seed = Num r ->
  (0 <= r <= 1)%Q /\ ((r < 1)%Q -> (r <= pred_one)%Q).
Proof.
  unfold fraction.
  destruct (mul (round64 (Math_sin seed)) (Num 10000)) as [x| | |];
    try discriminate.
  unfold sub, floor, opp, add. intros H.
  apply round64_Num in H.
  set (d := (x + Qred (- inject_Z (Qfloor x)))%Q) in *.
  assert (Hd : (0 <= d < 1)%Q).
  { subst d. rewrite Qred_correct.
    pose proof (Qfloor_le x). pose proof (Qlt_floor x) as Hlt.
    rewrite inject_Z_plus in Hlt. change (inject_Z 1) with 1%Q in Hlt.
    split; lra. }
  pose proof (nearest_mono 0 d (proj1 Hd)) as H0.
  pose proof (nearest_mono d 1 (Qlt_le_weak _ _ (proj2 Hd))) as H1.
  rewrite nearest_zero in H0. rewrite nearest_one in H1.
  split; [rewrite H; split; assumption|].
  intros Hlt. rewrite H in *.
  apply nearest_below_one; [exact (proj1 Hd) | exact Hlt].
Qed.

(** When both ends are within range, so is the value for every fraction
    between them: rounding is monotone. *)
Lemma ends_in_range_sound (min max : Z) (r : Q) :
  ends_in_range min max = true ->
  (0 <= r <= pred_one)%Q ->
  exists k,
    floor (add (mul (Num r) (add (sub (of_Z max) (of_Z min)) (Num 1)))
             (of_Z min)) = Num (inject_Z k)
    /\ min <= k <= max.
Proof.
  unfold ends_in_range. intros Hends [Hr0 Hr1].
  destruct (of_Z min) as [m| | |]; try discriminate.
  destruct (add (sub (of_Z max) (Num m)) (Num 1)) as [n| | |];
    try discriminate.
  cbv zeta in Hends.
  repeat (apply andb_prop in Hends; destruct Hends as [Hends ?]).
  rename Hends into Hn.
  apply Qle_bool_iff in Hn.
  repeat match goal with
         | H : negb _ = true |- _ => apply negb_true_iff in H
         | H : (_ <=? _) = true |- _ => apply Z.leb_le in H
         end.
  repeat match goal with
         | H : Qle_bool ?a ?b = false |- _ =>
             assert (b < a)%Q
               by (destruct (Qlt_le_dec b a) as [L|L]; [exact L|];
                   apply Qle_bool_iff in L; congruence);
             clear H
         end.
  set (top := nearest (pred_one * n)) in *.
  pose proof huge_pos as Hhuge.
  destruct (round64_between (r * n) 0 (pred_one * n)) as (p & Ep & Hp).
  - split.
    + now apply Qmult_le_0_compat.
    + now apply Qmult_le_compat_r.
  - rewrite nearest_zero. lra.
  - assumption.
  - rewrite nearest_zero in Hp. fold top in Hp.
    destruct (round64_between (p + m) (0 + m) (top + m)) as (q & Eq & Hq).
    + split; lra.
    + assumption.
    + assumption.
    + exists (Qfloor q). unfold mul, add, floor. rewrite Ep, Eq.
      split; [reflexivity|].
      pose proof (Qfloor_resp_le _ _ (proj1 Hq)).
      pose proof (Qfloor_resp_le _ _ (proj2 Hq)). lia.
Qed.

Lemma call_bounds_in_range :
  forallb (fun b => ends_in_range (fst b) (snd b)) call_bounds = true.
Proof. vm_compute. reflexivity. Qed.

Lemma random_at_call_bounds (Math_sin : Z -> Q) (seed : Z) (r : Q)
    (min max : Z) :
  fraction Math_sin seed = Num r -> (r < 1)%Q ->
  In (min, max) call_bounds ->
  exists k,
    random Math_sin (of_Z min) (of_Z max) seed = (Num (inject_Z k), seed + 1)
    /\ min <= k <= max.
Proof.
  intros Hf Hlt Hin.
  destruct (fraction_range _ _ _ Hf) as [[H0 _] H1].
  pose proof call_bounds_in_range as Hall.
  rewrite forallb_forall in Hall. specialize (Hall _ Hin). cbn in Hall.
  destruct (ends_in_range_sound min max r Hall (conj H0 (H1 Hlt)))
    as (k & Ek & Hk).
  exists k. unfold random. rewrite Hf, Ek. now split.
Qed.

Lemma element_integer {A} (arr : list A) (k : Z) :
  element arr (Num (inject_Z k)) = index arr k.
Proof.
  unfold element. rewrite Qfloor_Z.
  now rewrite (proj2 (Qeq_bool_iff _ _) (Qeq_refl _)).
Qed.

Lemma select_defined {A} (Math_sin : Z -> Q) (arr : list A) (seed : Z)
    (r : Q) :
  last_index arr = of_Z (len arr - 1) ->
  In (0, len arr - 1) call_bounds ->
  fraction Math_sin seed = Num r -> (r < 1)%Q ->
  exists a, select Math_sin arr seed = Some a /\ In a arr.
Proof.
  intros Hlast Hin Hf Hlt. unfold select. rewrite Hlast.
  destruct (random_at_call_bounds Math_sin seed r 0 (len arr - 1) Hf Hlt Hin)
    as (k & Ek & Hk).
  rewrite Ek. cbn [fst]. rewrite element_integer. now apply PriceFacts.index_defined.
Qed.

Local Set Warnings "-inexact-float".

(** The operations agree with the processor's on the steps of [random]
    at seed 2 with the bounds [2^52] and [2^52 + 3], and at a tie, an
    overflow, a subnormal product and a sum that rounds up to 1. *)
Lemma operations_agree_with_machine_doubles :
  let s := 0.9092974268256817%float in
  let x := (s * 10000)%float in
  let r := (x - 9092)%float in
  of_float s = round64 Spec.sin_2
  /\ of_float x = mul (of_float s) (Num 10000)
  /\ floor (of_float x) = Num 9092
  /\ of_float r = sub (of_float x) (Num 9092)
  /\ of_float (r * 4)%float = mul (of_float r) (Num 4)
  /\ of_float (r * 4 + 4503599627370496)%float
     = add (mul (of_float r) (Num 4)) (Num 4503599627370496)
  /\ of_float (0.1 + 0.2)%float = add (of_float 0.1) (of_float 0.2)
  /\ of_float (4.675 * 100)%float = mul (of_float 4.675) (Num 100)
  /\ of_float (0.5 + 9007199254740992)%float
     = add (Num (1 # 2)) (Num 9007199254740992)
  /\ of_float (1e308 * 10)%float = mul (of_float 1e308) (Num 10)
  /\ of_float (1e-320 * 0.3)%float = mul (of_float 1e-320) (of_float 0.3)
  /\ of_float (-1e-20 + 1)%float = add (of_float (-1e-20)) (Num 1).
Proof. vm_compute. repeat split. Qed.




(** A sine just below zero makes the fraction 1, and then the selection
    is [undefined]: the bound on the fraction cannot be dropped. *)
Lemma fraction_one_selects_undefined :
  let Math_sin := fun _ : Z => (- (1 # 1000000000000000000000000000000))%Q in
  Binary64.fraction Math_sin 0 = Num 1
  /\ fst (Binary64.random Math_sin (of_Z 0) (of_Z 4) 0) = Num 5
  /\ Binary64.select Math_sin conditionTerms 0 = None.
Proof. vm_compute. repeat split. Qed.

End RandomFacts.

(* ===================================================================== *)
(** * Properties of the card repository                                   *)
(* ===================================================================== *)

Module StorageFacts.
Import JS Schema Sql Storage.
Import Spec.

(** *** ORDER BY only rearranges *)

Lemma insert_row_perm (le : Order) (r : Card.t) (rows : list Card.t) :
  Permutation (insert_row le r rows) (r :: rows).
Proof.
  induction rows as [|r' rows IH]; cbn [insert_row]; [reflexivity|].
  destruct (le r r'); [reflexivity|].
  rewrite IH. apply perm_swap.
Qed.

Lemma orderBy_perm (le : Order) (rows : list Card.t) :
  Permutation (orderBy le rows) rows.
Proof.
  induction rows as [|r rows IH]; cbn; [reflexivity|].
  fold (orderBy le rows). rewrite insert_row_perm. now constructor.
Qed.

Lemma orderBy_nil (le : Order) : orderBy le [] = [].
Proof. reflexivity. Qed.

(** With no filter given the WHERE clause is absent. *)
Lemma getFilteredCards_unfiltered (sortBy : option string) (db : Db) :
  exists order,
    getFilteredCards (Spec.unfiltered sortBy) db
    = Some (orderBy order (cards db)).
Proof.
  unfold getFilteredCards, Spec.unfiltered.
  cbn [search sport year brand condition Storage.sortBy given andb].
  cbn [length Nat.ltb Nat.leb and_ well_typed forallb].
  eexists. f_equal. f_equal.
  cbn. induction (cards db) as [|c l IH]; [reflexivity|].
  cbn. now rewrite IH.
Qed.

(** C7. Without concurrent writers, [deleteAllCards] returns the number of
    card rows there were just before the call, and afterwards the list
    without filters (under any sort order) and [getAllCards] are empty. *)
Theorem deleteAll_count_then_empty (db : Db) (sortBy : option string) :
  fst (deleteAllCards db) = length (cards db)
  /\ getFilteredCards (Spec.unfiltered sortBy) (snd (deleteAllCards db))
     = Some []
  /\ getAllCards (snd (deleteAllCards db)) = [].
Proof.
  split; [|split].
  - cbn [deleteAllCards fst]. apply length_map.
  - destruct (getFilteredCards_unfiltered sortBy (snd (deleteAllCards db)))
      as [order ->].
    reflexivity.
  - reflexivity.
Qed.

(** *** LIKE *)

Lemma tokens_plain (c : ascii) (rest : string) :
  Spec.like_special c = false ->
  tokens (String c rest) = Literal c :: tokens rest.
Proof.
  unfold Spec.like_special. intros H.
  apply orb_false_iff in H. destruct H as [H Hb].
  apply orb_false_iff in H. destruct H as [Hp Hu].
  cbn [tokens]. now rewrite Hb, Hp, Hu.
Qed.

Lemma tokens_search_term (s : string) :
  Spec.plain s = true ->
  tokens ("%" ++ s ++ "%")
  = AnyString :: (map Literal (chars s) ++ [AnyString])%list.
Proof.
  intros Hplain.
  change ("%" ++ s ++ "%") with (String "%" (s ++ "%")).
  cbn [tokens]. f_equal.
  induction s as [|c s IH]; [reflexivity|].
  unfold Spec.plain in Hplain. cbn [chars list_ascii_of_string forallb] in Hplain.
  apply andb_true_iff in Hplain. destruct Hplain as [Hc Hs].
  apply negb_true_iff in Hc.
  change (String c s ++ "%") with (String c (s ++ "%")).
  rewrite (tokens_plain c _ Hc). cbn [chars list_ascii_of_string map app].
  f_equal. now apply IH.
Qed.

Lemma matches_any (t : string) : matches [AnyString] t = true.
Proof.
  induction t as [|c t IH]; [reflexivity|].
  cbn [matches] in *. exact IH.
Qed.

Lemma matches_prefix (s t : string) :
  matches (map Literal (chars s) ++ [AnyString])%list t = startsWith s t.
Proof.
  revert t. induction s as [|c s IH]; intros t.
  - cbn [chars list_ascii_of_string map app startsWith]. apply matches_any.
  - cbn [chars list_ascii_of_string map app].
    destruct t as [|d t]; [reflexivity|].
    cbn [matches startsWith]. f_equal. apply IH.
Qed.

Lemma matches_any_then (p : list Token) (t : string) :
  matches (AnyString :: p) t
  = matches p t
    || match t with
       | EmptyString => false
       | String _ t' => matches (AnyString :: p) t'
       end.
Proof. destruct t; reflexivity. Qed.

(** For a term without special characters, [LIKE '%term%'] is the
    case-sensitive substring test. *)
Lemma like_search_term (s t : string) :
  Spec.plain s = true -> matches (tokens ("%" ++ s ++ "%")) t = includes s t.
Proof.
  intros Hplain. rewrite (tokens_search_term s Hplain).
  induction t as [|c t IH].
  - rewrite matches_any_then, matches_prefix. reflexivity.
  - rewrite matches_any_then, matches_prefix, IH. reflexivity.
Qed.

Lemma includes_char_app (c : ascii) (s t : string) :
  includes (String c EmptyString) (s ++ t)
  = includes (String c EmptyString) s || includes (String c EmptyString) t.
Proof.
  induction s as [|d s IH].
  - change ("" ++ t) with t. reflexivity.
  - change (String d s ++ t) with (String d (s ++ t)).
    cbn [includes startsWith]. rewrite IH.
    destruct (Ascii.eqb c d); cbn [andb orb]; [reflexivity|].
    now destruct s.
Qed.

(** The wildcards around the search term add no NUL character. *)
Lemma text_param_search_term (s : string) :
  text_param ("%" ++ s ++ "%") = text_param s.
Proof.
  unfold text_param. rewrite !includes_char_app.
  change (includes (String "000" EmptyString) "%") with false.
  now rewrite orb_false_r.
Qed.

Lemma getFilteredCards_search (s : string) (sortBy : option string) (db : Db) :
  s <> "" -> text_param s = true ->
  exists order,
    getFilteredCards (Spec.by_search s sortBy) db
    = Some (orderBy order
              (List.filter
                 (fun row =>
                    matches (tokens ("%" ++ s ++ "%")) (Card.playerName row)
                    || matches (tokens ("%" ++ s ++ "%")) (Card.brand row)
                    || match Card.cardSet row with
                       | Some t => matches (tokens ("%" ++ s ++ "%")) t
                       | None => false
                       end
                    || match Card.notes row with
                       | Some t => matches (tokens ("%" ++ s ++ "%")) t
                       | None => false
                       end)
                 (cards db))).
Proof.
  intros Hne Hparam.
  unfold getFilteredCards, Spec.by_search.
  cbn [search sport year brand condition Storage.sortBy given text default
         from_option id andb].
  assert (Hs : String.eqb s "" = false) by now apply String.eqb_neq.
  rewrite Hs. cbn [negb app length Nat.ltb Nat.leb].
  cbn [and_ or_ like well_typed forallb andb].
  rewrite text_param_search_term, Hparam. cbn [andb].
  eexists. f_equal. f_equal.
  apply filter_ext. intros row.
  unfold selected. cbn [holds and_ or_ like fold_right].
  destruct (matches _ (Card.playerName row)), (matches _ (Card.brand row)),
    (Card.cardSet row) as [cs|], (Card.notes row) as [nt|];
    try destruct (matches _ cs); try destruct (matches _ nt); reflexivity.
Qed.

(** A NUL character in the search term makes the query fail. *)
Lemma getFilteredCards_search_nul (s : string) (sortBy : option string)
    (db : Db) :
  s <> "" -> text_param s = false ->
  getFilteredCards (Spec.by_search s sortBy) db = None.
Proof.
  intros Hne Hparam.
  unfold getFilteredCards, Spec.by_search.
  cbn [search sport year brand condition Storage.sortBy given text default
         from_option id andb].
  assert (Hs : String.eqb s "" = false) by now apply String.eqb_neq.
  rewrite Hs. cbn [negb app length Nat.ltb Nat.leb].
  cbn [and_ or_ like well_typed forallb andb].
  now rewrite text_param_search_term, Hparam.
Qed.

(** C1, as the code has it. For a non-empty search string without the
    LIKE wildcards [%], [_] and the escape character, and without a NUL
    character, the list operation returns exactly the cards in which the
    string occurs, with the same case, in the player name, the brand, the
    card set or the notes (a NULL card set or notes holds no occurrence).
    A search string with a NUL character makes the operation fail. *)
Theorem search_returns_exact_case_matches (s : string)
    (sortBy : option string) (db : Db) :
  s <> "" ->
  (Spec.plain s = true -> text_param s = true ->
   exists result,
     getFilteredCards (Spec.by_search s sortBy) db = Some result
     /\ Permutation result (List.filter (Spec.search_matches s) (cards db)))
  /\ (text_param s = false ->
      getFilteredCards (Spec.by_search s sortBy) db = None).
Proof.
  intros Hne. split.
  - intros Hplain Hparam.
    destruct (getFilteredCards_search s sortBy db Hne Hparam) as [order ->].
    eexists. split; [reflexivity|].
    rewrite orderBy_perm.
    erewrite filter_ext; [reflexivity|].
    intros row. unfold Spec.search_matches, Spec.occurs_in.
    rewrite !like_search_term by assumption.
    destruct (Card.cardSet row), (Card.notes row);
      rewrite ?like_search_term by assumption; reflexivity.
  - now apply getFilteredCards_search_nul.
Qed.

Lemma search_returns_exact_case_matches_witness :
  "Topps" <> "" /\ Spec.plain "Topps" = true /\ text_param "Topps" = true
  /\ exists result,
      getFilteredCards (Spec.by_search "Topps" None) Spec.one_card_db
      = Some result
      /\ Permutation result
           (List.filter (Spec.search_matches "Topps")
              (cards Spec.one_card_db)).
Proof.
  assert (Hne : "Topps" <> "") by discriminate.
  assert (Hplain : Spec.plain "Topps" = true) by reflexivity.
  assert (Hparam : text_param "Topps" = true) by reflexivity.
  split; [exact Hne|]. split; [exact Hplain|]. split; [exact Hparam|].
  exact (proj1 (search_returns_exact_case_matches "Topps" None
                  Spec.one_card_db Hne) Hplain Hparam).
Defined.

(** C1 as stated fails: the search is case-sensitive. With one stored card
    of brand "Topps", the search string "topps" occurs in the brand when
    case is ignored, and the list operation returns no card. *)
Lemma search_topps_misses_Topps :
  ~ (exists result,
        getFilteredCards (Spec.by_search "topps" None) Spec.one_card_db
        = Some result
        /\ forall card,
             In card result <->
             In card (cards Spec.one_card_db)
             /\ Spec.search_matches_ignoring_case "topps" card = true).
Proof.
  intros (result & Hresult & Hexact).
  vm_compute in Hresult. injection Hresult as <-.
  apply (proj2 (Hexact Spec.topps_card)).
  split; [now left | reflexivity].
Qed.

(** *** Decimal numerals *)

Lemma decimal_digit_inv (c : ascii) (d : Z) :
  decimal_digit c = Some d ->
  In (c, d) [("0"%char, 0); ("1"%char, 1); ("2"%char, 2); ("3"%char, 3);
             ("4"%char, 4); ("5"%char, 5); ("6"%char, 6); ("7"%char, 7);
             ("8"%char, 8); ("9"%char, 9)].
Proof.
  intros H.
  destruct c as [[] [] [] [] [] [] [] []]; cbv in H; try discriminate H;
    injection H as <-; cbn; tauto.
Qed.

(** What a digit is not. *)
Lemma is_decimal_not (c : ascii) :
  is_decimal c = true ->
  is_space c = false
  /\ Ascii.eqb c "-" = false /\ Ascii.eqb "-" c = false
  /\ Ascii.eqb c "+" = false
  /\ Ascii.eqb "I" c = false /\ Ascii.eqb "a" c = false
  /\ Ascii.eqb "x" c = false /\ Ascii.eqb "X" c = false
  /\ Ascii.eqb "o" c = false /\ Ascii.eqb "O" c = false
  /\ Ascii.eqb "b" c = false /\ Ascii.eqb "B" c = false.
Proof.
  unfold is_decimal. destruct (decimal_digit c) as [d|] eqn:E; [|discriminate].
  intros _. apply decimal_digit_inv in E. cbn in E.
  repeat (destruct E as [E|E]; [injection E as <- <-; repeat split; reflexivity|]).
  destruct E.
Qed.

Lemma chars_app (s t : string) : chars (s ++ t) = (chars s ++ chars t)%list.
Proof.
  unfold chars. induction s as [|c s IH]; [reflexivity|].
  change (c :: list_ascii_of_string (s ++ t)
          = c :: (list_ascii_of_string s ++ list_ascii_of_string t)%list).
  now rewrite IH.
Qed.

Lemma numeral_all_decimal (s : string) (n : Z) :
  Spec.Numeral s n -> s <> "" /\ all_decimal s = true /\ 0 <= n.
Proof.
  unfold all_decimal.
  induction 1 as [c d Hd | s n c d Hs IH Hd].
  - split; [discriminate|]. split.
    + cbn. unfold is_decimal. now rewrite Hd.
    + apply decimal_digit_inv in Hd. cbn in Hd.
      repeat (destruct Hd as [Hd|Hd]; [injection Hd as <- <-; lia|]).
      destruct Hd.
  - destruct IH as (Hne & Hall & Hn). split; [|split].
    + destruct s; [congruence | discriminate].
    + rewrite chars_app, forallb_app, Hall. cbn. unfold is_decimal. now rewrite Hd.
    + apply decimal_digit_inv in Hd. cbn in Hd.
      repeat (destruct Hd as [Hd|Hd]; [injection Hd as <- <-; lia|]).
      destruct Hd.
Qed.

Lemma all_decimal_cons (c : ascii) (s : string) :
  all_decimal (String c s) = true ->
  is_decimal c = true /\ all_decimal s = true.
Proof. unfold all_decimal. cbn. now rewrite andb_true_iff. Qed.

Lemma includes_dash_numeral (s : string) :
  all_decimal s = true -> includes "-" s = false.
Proof.
  induction s as [|c s IH]; intros H; [reflexivity|].
  apply all_decimal_cons in H. destruct H as [Hc Hs].
  destruct (is_decimal_not c Hc) as (_ & _ & Hdash & _).
  cbn [includes startsWith]. now rewrite Hdash, IH.
Qed.

Lemma includes_dash_range (s t : string) :
  includes "-" (s ++ String "-" t) = true.
Proof.
  induction s as [|c s IH].
  - change ("" ++ String "-" t) with (String "-" t). reflexivity.
  - change (String c s ++ String "-" t) with (String c (s ++ String "-" t)).
    cbn [includes]. rewrite IH. apply orb_true_r.
Qed.

Lemma split_numeral (s : string) :
  all_decimal s = true -> split "-" s = [s].
Proof.
  induction s as [|c s IH]; intros H; [reflexivity|].
  apply all_decimal_cons in H. destruct H as [Hc Hs].
  destruct (is_decimal_not c Hc) as (_ & Hdash & _).
  cbn [split]. now rewrite Hdash, IH.
Qed.

Lemma split_range (s t : string) :
  all_decimal s = true ->
  split "-" (s ++ String "-" t) = s :: split "-" t.
Proof.
  induction s as [|c s IH]; intros H.
  - change ("" ++ String "-" t) with (String "-" t). reflexivity.
  - apply all_decimal_cons in H. destruct H as [Hc Hs].
    destruct (is_decimal_not c Hc) as (_ & Hdash & _).
    change (String c s ++ String "-" t) with (String c (s ++ String "-" t)).
    cbn [split]. now rewrite Hdash, IH.
Qed.

Lemma trimEnd_numeral (s : string) :
  all_decimal s = true -> trimEnd s = s.
Proof.
  induction s as [|c s IH]; intros H; [reflexivity|].
  apply all_decimal_cons in H. destruct H as [Hc Hs].
  destruct (is_decimal_not c Hc) as (Hsp & _).
  cbn [trimEnd]. rewrite (IH Hs), Hsp. now destruct s.
Qed.

Lemma trim_numeral (s : string) : all_decimal s = true -> trim s = s.
Proof.
  intros H. unfold trim.
  assert (Hstart : trimStart s = s).
  { destruct s as [|c s]; [reflexivity|].
    apply all_decimal_cons in H. destruct H as [Hc _].
    destruct (is_decimal_not c Hc) as (Hsp & _).
    cbn [trimStart]. now rewrite Hsp. }
  rewrite Hstart. now apply trimEnd_numeral.
Qed.

(** Scanning a run of digits followed by [t] continues in [t]. *)
Lemma scan_app (s t : string) (acc : Z) (count : nat) :
  all_decimal s = true ->
  scan decimal_digit 10 (s ++ t) acc count
  = scan decimal_digit 10 t
      (fst (fst (scan decimal_digit 10 s acc count)))
      (snd (fst (scan decimal_digit 10 s acc count))).
Proof.
  revert acc count. induction s as [|c s IH]; intros acc count H.
  - reflexivity.
  - apply all_decimal_cons in H. destruct H as [Hc Hs].
    change (String c s ++ t) with (String c (s ++ t)).
    cbn [scan]. unfold is_decimal in Hc.
    destruct (decimal_digit c) as [d|]; [|discriminate].
    now apply IH.
Qed.

Lemma scan_numeral (s : string) (n : Z) :
  Spec.Numeral s n ->
  forall acc count,
  exists k, (1 <= k)%nat
            /\ scan decimal_digit 10 s acc count
               = (acc * 10 ^ Z.of_nat k + n, (count + k)%nat, "").
Proof.
  induction 1 as [c d Hd | s n c d Hs IH Hd]; intros acc count.
  - exists 1%nat. split; [lia|]. cbn [scan]. rewrite Hd.
    cbn [scan]. change (Z.of_nat 1) with 1. rewrite Z.pow_1_r.
    do 2 f_equal. lia.
  - destruct (IH acc count) as (k & Hk & E).
    exists (S k). split; [lia|].
    rewrite scan_app by (apply (numeral_all_decimal s n Hs)).
    rewrite E. cbn [fst snd scan]. rewrite Hd. cbn [scan].
    rewrite Nat2Z.inj_succ, Z.pow_succ_r by lia.
    do 2 f_equal; [ring | lia].
Qed.

Lemma scan_sign_digit (c : ascii) (r : string) :
  is_decimal c = true -> scan_sign (String c r) = (false, String c r).
Proof.
  unfold is_decimal. destruct (decimal_digit c) as [d|] eqn:E; [|discriminate].
  intros _. apply decimal_digit_inv in E. cbn in E.
  repeat (destruct E as [E|E]; [injection E as <- <-; reflexivity|]).
  destruct E.
Qed.

(** [Number] reads a numeral as the number it denotes. *)
Lemma Number_of_numeral (s : string) (n : Z) :
  Spec.Numeral s n ->
  exists q, Number_of_string s = Num q /\ (q == inject_Z n)%Q.
Proof.
  intros H.
  destruct (numeral_all_decimal s n H) as (Hne & Hall & _).
  destruct (scan_numeral s n H 0 0%nat) as (k & Hk & E).
  unfold Number_of_string. rewrite (trim_numeral s Hall).
  assert (Hempty : String.eqb s "" = false) by now apply String.eqb_neq.
  rewrite Hempty.
  assert (Hprefix : forall a b : ascii,
             (forall c, is_decimal c = true -> Ascii.eqb b c = false) ->
             startsWith (String a (String b "")) s = false).
  { intros a b Hb. destruct s as [|c1 [|c2 r]]; [reflexivity| |].
    - cbn [startsWith]. apply andb_false_r.
    - apply all_decimal_cons in Hall. destruct Hall as [_ Hall].
      apply all_decimal_cons in Hall. destruct Hall as [Hc2 _].
      cbn [startsWith]. rewrite (Hb c2 Hc2). cbn. apply andb_false_r. }
  rewrite !Hprefix by (intros c Hc; apply (is_decimal_not c Hc)).
  cbn [orb].
  destruct s as [|c1 r]; [congruence|].
  apply all_decimal_cons in Hall. destruct Hall as [Hc1 _].
  unfold scan_signed_decimal. rewrite (scan_sign_digit c1 r Hc1).
  assert (Hinf : startsWith "Infinity" (String c1 r) = false).
  { cbn [startsWith].
    destruct (is_decimal_not c1 Hc1) as (_ & _ & _ & _ & -> & _).
    reflexivity. }
  rewrite Hinf. unfold scan_decimal. rewrite E.
  destruct k as [|k]; [lia|].
  cbn [Nat.add Nat.eqb scan_exponent].
  eexists. split; [reflexivity|].
  rewrite Z.mul_0_l, Z.add_0_l.
  change (10 ^ Z.of_nat 0)%Q with 1%Q. change (10 ^ 0)%Q with 1%Q.
  change (inject_Z 0) with 0%Q. field.
Qed.

Lemma int4_param_integer (q : Q) (n : Z) :
  (q == inject_Z n)%Q -> is_int32 n = true -> int4_param (Num q) = Some n.
Proof.
  intros Hq Hn. unfold int4_param, as_integer.
  assert (Hfloor : Qfloor q = n) by (rewrite Hq; apply Qfloor_Z).
  rewrite Hfloor.
  assert (Heq : Qeq_bool q (inject_Z n) = true) by now apply Qeq_bool_iff.
  now rewrite Heq, Hn.
Qed.

Lemma is_int32_numeral (n : Z) :
  0 <= n -> n <= INT32_MAX -> is_int32 n = true.
Proof.
  unfold is_int32, INT32_MIN, INT32_MAX. intros H0 H1.
  apply andb_true_iff. split; apply Z.leb_le; lia.
Qed.

(** C3, as the code has it. For numerals [start] and [end_] (runs of
    decimal digits denoting [a] and [b], within the range of the integer
    column), the year filter
    [start-end_] makes the list operation return exactly the cards with
    [a <= year <= b], and the year filter [start] exactly the cards with
    [year = a]. *)
Theorem year_filter_range_and_exact (start end_ : string) (a b : Z)
    (sortBy : option string) (db : Db) :
  Spec.Numeral start a -> Spec.Numeral end_ b ->
  a <= INT32_MAX -> b <= INT32_MAX ->
  (exists result,
      getFilteredCards (Spec.by_year (start ++ "-" ++ end_) sortBy) db
      = Some result
      /\ Permutation result
           (List.filter (fun card => (a <=? Card.year card)
                                     && (Card.year card <=? b))
                        (cards db)))
  /\ (exists result,
         getFilteredCards (Spec.by_year start sortBy) db = Some result
         /\ Permutation result
              (List.filter (fun card => Card.year card =? a) (cards db))).
Proof.
  intros Hstart Hend Ha Hb.
  destruct (numeral_all_decimal start a Hstart) as (Hne1 & Hall1 & Ha0).
  destruct (numeral_all_decimal end_ b Hend) as (Hne2 & Hall2 & Hb0).
  destruct (Number_of_numeral start a Hstart) as (qa & Hqa & Eqa).
  destruct (Number_of_numeral end_ b Hend) as (qb & Hqb & Eqb).
  pose proof (int4_param_integer qa a Eqa (is_int32_numeral a Ha0 Ha)) as Hpa.
  pose proof (int4_param_integer qb b Eqb (is_int32_numeral b Hb0 Hb)) as Hpb.
  split.
  - set (y := start ++ "-" ++ end_).
    assert (Hincl : includes "-" y = true) by apply includes_dash_range.
    assert (Hy : String.eqb y "" = false)
      by (apply String.eqb_neq; intros E; rewrite E in Hincl; discriminate).
    assert (Hall : String.eqb y "all" = false)
      by (apply String.eqb_neq; intros E; rewrite E in Hincl; discriminate).
    assert (Hsplit : split "-" y = [start; end_])
      by (change y with (start ++ String "-" end_);
          rewrite (split_range start end_ Hall1);
          now rewrite (split_numeral end_ Hall2)).
    unfold getFilteredCards, Spec.by_year.
    cbn [search sport year brand condition Storage.sortBy given text default
           from_option id andb].
    rewrite Hy, Hall, Hincl, Hsplit.
    cbn [negb andb app map lookup list_lookup default from_option id].
    rewrite Hqa, Hqb.
    cbn [length Nat.ltb Nat.leb].
    unfold gte, lte, compare_int. rewrite Hpa, Hpb.
    cbn [and_ well_typed forallb andb].
    eexists. split; [reflexivity|].
    rewrite orderBy_perm.
    erewrite filter_ext; [reflexivity|].
    intros row. unfold selected. cbn [holds and_ fold_right].
    rewrite Z.geb_leb.
    now destruct (a <=? Card.year row), (Card.year row <=? b).
  - assert (Hincl : includes "-" start = false)
      by now apply includes_dash_numeral.
    assert (Hy : String.eqb start "" = false) by now apply String.eqb_neq.
    assert (Hnall : String.eqb start "all" = false)
      by (apply String.eqb_neq; intros E; rewrite E in Hall1; discriminate).
    unfold getFilteredCards, Spec.by_year.
    cbn [search sport year brand condition Storage.sortBy given text default
           from_option id andb].
    rewrite Hy, Hnall, Hincl.
    cbn [negb andb app].
    rewrite Hqa.
    cbn [length Nat.ltb Nat.leb].
    unfold eq_int, compare_int. rewrite Hpa.
    cbn [and_ well_typed forallb andb].
    eexists. split; [reflexivity|].
    rewrite orderBy_perm.
    erewrite filter_ext; [reflexivity|].
    intros row. unfold selected. cbn [holds and_ fold_right].
    now destruct (Card.year row =? a).
Qed.

Lemma year_filter_range_and_exact_witness :
  exists result,
    getFilteredCards (Spec.by_year "2010-2019" None) Spec.one_card_db
    = Some result
    /\ Permutation result
         (List.filter (fun card => (2010 <=? Card.year card)
                                   && (Card.year card <=? 2019))
                      (cards Spec.one_card_db)).
Proof.
  assert (H2010 : Spec.Numeral "2010" 2010).
  { apply (Spec.Numeral_more "201" 201 "0" 0); [|reflexivity].
    apply (Spec.Numeral_more "20" 20 "1" 1); [|reflexivity].
    apply (Spec.Numeral_more "2" 2 "0" 0); [|reflexivity].
    now apply Spec.Numeral_digit. }
  assert (H2019 : Spec.Numeral "2019" 2019).
  { apply (Spec.Numeral_more "201" 201 "9" 9); [|reflexivity].
    apply (Spec.Numeral_more "20" 20 "1" 1); [|reflexivity].
    apply (Spec.Numeral_more "2" 2 "0" 0); [|reflexivity].
    now apply Spec.Numeral_digit. }
  assert (Ha : 2010 <= INT32_MAX) by (unfold INT32_MAX; lia).
  assert (Hb : 2019 <= INT32_MAX) by (unfold INT32_MAX; lia).
  exact (proj1 (year_filter_range_and_exact "2010" "2019" 2010 2019 None
                  Spec.one_card_db H2010 H2019 Ha Hb)).
Defined.

(** C3 as stated fails for integer strings that are not runs of digits
    within the range of the column. The year filter "-5" holds a "-" and
    is read as the range from 0 (the number of the empty string) to 5: it
    returns a stored card of the year 3, whose year is not -5. The year
    filter "3000000000" is beyond the 32-bit integer column: the query
    fails, and no list of the cards of that year is returned. *)
Lemma year_filter_misreads_sign_and_size :
  ~ ((exists result,
         getFilteredCards (Spec.by_year "-5" None) Spec.early_db = Some result
         /\ forall card,
              In card result <->
              In card (cards Spec.early_db) /\ Card.year card = -5)
     \/ (exists result,
            getFilteredCards (Spec.by_year "3000000000" None)
              Spec.one_card_db = Some result
            /\ forall card,
                 In card result <->
                 In card (cards Spec.one_card_db)
                 /\ Card.year card = 3000000000)).
Proof.
  intros [(result & Hresult & Hexact)|(result & Hresult & _)].
  - vm_compute in Hresult. injection Hresult as <-.
    destruct (proj1 (Hexact Spec.early_card) (or_introl eq_refl)) as [_ Hyear].
    discriminate Hyear.
  - vm_compute in Hresult. discriminate Hresult.
Qed.

End StorageFacts.

(* ===================================================================== *)
(** * Properties of the import pipeline                                   *)
(* ===================================================================== *)

Module ImportFacts.
Import JS Schema Storage Routes.

(** *** The candidate record *)

Lemma copy_field_other (record mappedRecord : Row) (entry : string * value)
    (key : string) :
  fst entry <> key ->
  copy_field record mappedRecord entry !! key = mappedRecord !! key.
Proof.
  destruct entry as [cardField fileField]. cbn [fst]. intros Hne.
  unfold copy_field.
  destruct (truthy fileField && _ && _); [|reflexivity].
  now apply lookup_insert_ne.
Qed.

Lemma copy_field_unmapped (record mappedRecord : Row) (cardField : string)
    (fileField : value) :
  fileField = VStr "none" \/ get record (ToString fileField) = VUndefined ->
  copy_field record mappedRecord (cardField, fileField) = mappedRecord.
Proof.
  unfold copy_field. intros [-> | ->].
  - cbn. reflexivity.
  - cbn [negb]. now rewrite andb_false_r.
Qed.

Lemma copy_fields_unmapped (record : Row) (key : string)
    (mappedColumns : list (string * value)) (mappedRecord : Row) :
  (forall fileField,
      In (key, fileField) mappedColumns ->
      fileField = VStr "none"
      \/ get record (ToString fileField) = VUndefined) ->
  fold_left (copy_field record) mappedColumns mappedRecord !! key
  = mappedRecord !! key.
Proof.
  revert mappedRecord.
  induction mappedColumns as [|[cardField fileField] rest IH];
    intros mappedRecord Hunmapped; cbn [fold_left]; [reflexivity|].
  rewrite IH by (intros f Hf; apply Hunmapped; now right).
  destruct (String.eqb_spec cardField key) as [->|Hne].
  - rewrite copy_field_unmapped; [reflexivity|].
    apply Hunmapped. now left.
  - now apply copy_field_other.
Qed.

Lemma convert_other (key other : string) (f : value -> number)
    (mappedRecord : Row) :
  key <> other -> convert key f mappedRecord !! other = mappedRecord !! other.
Proof.
  intros Hne. unfold convert.
  destruct (truthy _); [|reflexivity].
  now apply lookup_insert_ne.
Qed.

(** A field whose mapping is "none", or names a column the row does not
    have, is absent from the candidate. *)
Lemma map_record_unmapped (mappedColumns : list (string * value))
    (record : Row) :
  (forall fileField,
      In ("sport", fileField) mappedColumns ->
      fileField = VStr "none"
      \/ get record (ToString fileField) = VUndefined) ->
  map_record mappedColumns record !! "sport" = None.
Proof.
  intros Hunmapped. unfold map_record.
  rewrite !convert_other by discriminate.
  rewrite (copy_fields_unmapped record "sport" mappedColumns ∅ Hunmapped).
  apply lookup_empty.
Qed.

(** *** Validation *)

Lemma safeParse_requires_sport (input : Row) :
  input !! "sport" = None ->
  exists issues,
    safeParse input = inl issues
    /\ In {| message := "Required"; path := "sport" |} issues.
Proof.
  intros Hsport. unfold safeParse.
  assert (Hget : get input "sport" = VUndefined)
    by (unfold get; now rewrite Hsport).
  rewrite Hget. cbn [z_string invalid_type].
  destruct (z_string (get input "playerName")) as [e|playerName];
    (eexists; split; [reflexivity|]);
    cbn [issues_of]; rewrite !in_app_iff; cbn [In]; tauto.
Qed.

(** *** One row, then all rows *)

Lemma createCard_stored (data : InsertCard.t) (db db' : Db) (card : Card.t) :
  createCard data db = (Some card, db') -> Spec.stored data card.
Proof.
  unfold createCard.
  destruct (negb (forallb text_ok _)); [discriminate|].
  destruct (user_param (InsertCard.userId data)) as [userId|]; [|discriminate].
  destruct (known_user db userId); [|discriminate].
  intros H. injection H as <- _. repeat split.
Qed.

Lemma import_record_outcome (candidate : Row) (db : Db) :
  Spec.outcome_of candidate (fst (import_record candidate db)).
Proof.
  unfold import_record.
  destruct (safeParse candidate) as [issues|data] eqn:Hparse; [reflexivity|].
  destruct (createCard data db) as [[card|] db'] eqn:Hcreate; [|reflexivity].
  cbn [fst Spec.outcome_of]. exists data. split; [exact Hparse|].
  eapply createCard_stored; eassumption.
Qed.

Lemma import_records_outcomes (cardRecords : list Row) (db : Db) :
  Forall2 Spec.outcome_of cardRecords (fst (import_records cardRecords db)).
Proof.
  revert db. induction cardRecords as [|record rest IH]; intros db;
    cbn [import_records]; [constructor|].
  pose proof (import_record_outcome record db) as Hfirst.
  destruct (import_record record db) as [r db1].
  specialize (IH db1).
  destruct (import_records rest db1) as [rs db2].
  now constructor.
Qed.

Lemma Forall2_nth_error {A B : Type} (P : A -> B -> Prop) (l : list A)
    (k : list B) (i : nat) (x : A) :
  Forall2 P l k -> nth_error l i = Some x ->
  exists y, nth_error k i = Some y /\ P x y.
Proof.
  intros H. revert i. induction H as [|a b l k Hab _ IH]; intros i Hi.
  - destruct i; discriminate.
  - destruct i as [|i]; cbn [nth_error] in *.
    + injection Hi as <-. now exists b.
    + now apply IH.
Qed.

(** The two counts of the message add up to the number of outcomes. *)
Lemma count_successes_failures (results : list ImportResult) :
  (length (List.filter success results)
   + length (List.filter (fun r => negb (success r)) results)
   = length results)%nat.
Proof.
  induction results as [|r results IH]; [reflexivity|].
  cbn [List.filter]. destruct (success r); cbn [negb length]; lia.
Qed.

(** *** The properties *)

(** C2, as the code has it. When the column mapping gives the sport field
    "none", or a column the row does not have, the candidate record lacks
    the field; validation does not default it, since the schema requires
    [sport]: the row's outcome is a failure that keeps the candidate, and
    nothing is stored for it. *)
Theorem unmapped_sport_row_is_rejected (mappedColumns : list (string * value))
    (record : Row) (db : Db) :
  (forall fileField,
      In ("sport", fileField) mappedColumns ->
      fileField = VStr "none"
      \/ get record (ToString fileField) = VUndefined) ->
  let candidate := map_record mappedColumns record in
  candidate !! "sport" = None
  /\ (exists issues,
         safeParse candidate = inl issues
         /\ In {| message := "Required"; path := "sport" |} issues)
  /\ (exists error, import_record candidate db = (Failed error candidate, db)).
Proof.
  intros Hunmapped candidate.
  pose proof (map_record_unmapped mappedColumns record Hunmapped) as Habsent.
  fold candidate in Habsent.
  destruct (safeParse_requires_sport candidate Habsent) as (issues & Hp & Hin).
  split; [exact Habsent|]. split; [now exists issues|].
  unfold import_record. rewrite Hp. eexists. reflexivity.
Qed.

Lemma unmapped_sport_row_is_rejected_witness :
  map_record Spec.mapping_without_sport Spec.messi_row !! "sport" = None
  /\ exists error,
      import_record (map_record Spec.mapping_without_sport Spec.messi_row)
        Spec.empty_db
      = (Failed error (map_record Spec.mapping_without_sport Spec.messi_row),
         Spec.empty_db).
Proof.
  assert (H : forall fileField,
             In ("sport", fileField) Spec.mapping_without_sport ->
             fileField = VStr "none"
             \/ get Spec.messi_row (ToString fileField) = VUndefined).
  { intros f Hf. cbn in Hf.
    repeat (destruct Hf as [Hf|Hf]; [try discriminate Hf|]);
      [injection Hf as <-; now left | destruct Hf]. }
  destruct (unmapped_sport_row_is_rejected Spec.mapping_without_sport
              Spec.messi_row Spec.empty_db H) as (Ha & _ & Hr).
  split; assumption.
Defined.

(** C2 as stated fails: a one-row file whose mapping gives the sport field
    "none" is answered without any imported card. *)
Lemma unmapped_sport_row_not_imported :
  ~ (exists message card db',
        post_import (fun _ => Entries Spec.mapping_without_sport)
          (fun _ => Some [Spec.messi_row]) (fun _ => None)
          Spec.csv_upload Spec.empty_db
        = (ImportDone message [Imported card], db')).
Proof.
  intros (message & card & db' & H).
  vm_compute in H. discriminate H.
Qed.

(** C10. When the upload and the column mapping parse, the response lists
    one outcome per parsed row, the outcome at position [i] being that of
    row [i], and the two counts of its message add up to the number of
    outcomes. *)
Theorem import_results_follow_rows
    (parse_column_map : string -> ColumnMap)
    (csvParse XLSX_read : string -> option (list Row))
    (req : ImportRequest) (upload : Upload)
    (entries : list (string * value)) (records : list Row) (db : Db) :
  file req = Some upload ->
  parse_column_map (columnMap req) = Entries entries ->
  (if String.eqb (mimetype upload) "text/csv"
   then csvParse (buffer upload) else XLSX_read (buffer upload))
  = Some records ->
  exists results,
    let successful := length (List.filter success results) in
    let failed := length (List.filter (fun r => negb (success r)) results) in
    fst (post_import parse_column_map csvParse XLSX_read req db)
    = ImportDone ("Import completed: " ++ pretty successful
                  ++ " cards imported, " ++ pretty failed ++ " failed")
        results
    /\ length results = length records
    /\ (forall i record,
           nth_error records i = Some record ->
           exists r, nth_error results i = Some r
                     /\ Spec.outcome_of (map_record entries record) r)
    /\ (successful + failed = length results)%nat.
Proof.
  intros Hfile Hmap Hparsed.
  unfold post_import. rewrite Hfile, Hmap, Hparsed.
  cbn [map_records].
  pose proof (import_records_outcomes (map (map_record entries) records) db)
    as Hout.
  destruct (import_records (map (map_record entries) records) db)
    as [results db'].
  cbn [fst] in *. exists results. cbv zeta.
  split; [reflexivity|]. split; [|split].
  - apply Forall2_length in Hout. now rewrite length_map in Hout.
  - intros i record Hi.
    apply (Forall2_nth_error _ _ _ i (map_record entries record) Hout).
    now rewrite nth_error_map, Hi.
  - apply count_successes_failures.
Qed.

Lemma import_results_follow_rows_witness :
  exists results,
    fst (post_import (fun _ => Entries Spec.full_mapping)
           (fun _ => Some [Spec.messi_row; Spec.messi_row]) (fun _ => None)
           Spec.csv_upload Spec.empty_db)
    = ImportDone ("Import completed: "
                  ++ pretty (length (List.filter success results))
                  ++ " cards imported, "
                  ++ pretty (length (List.filter
                                       (fun r => negb (success r)) results))
                  ++ " failed")
        results
    /\ length results = 2%nat.
Proof.
  destruct (import_results_follow_rows (fun _ => Entries Spec.full_mapping)
              (fun _ => Some [Spec.messi_row; Spec.messi_row]) (fun _ => None)
              Spec.csv_upload
              {| buffer := "Player,Sport,Year,Make,Grade";
                 mimetype := "text/csv" |}
              Spec.full_mapping [Spec.messi_row; Spec.messi_row]
              Spec.empty_db eq_refl eq_refl eq_refl)
    as (results & Hresp & Hlen & _).
  exists results. split; assumption.
Defined.

End ImportFacts.

(* ===================================================================== *)
(** * Properties of the card recognizer                                   *)
(* ===================================================================== *)

Module RecognitionFacts.
Import JS Schema ImageRecognition.

Section Recognizer.

Variable JSON_parse : string -> string + CardData.

(** The recognizer succeeds only through its last line, with the card it
    built and a player name that passed the check. *)
Lemma success_inv (base64Image contentType : string) (api : ApiOutcome)
    (currentYear : Z) :
  success (identifyCardFromImage JSON_parse base64Image contentType api
             currentYear) = true ->
  exists content cardData card,
    api = ApiReturns content
    /\ extract_card_data JSON_parse content = inr cardData
    /\ transform currentYear cardData = inr card
    /\ truthy (playerName card) = true
    /\ ImageRecognition.card
         (identifyCardFromImage JSON_parse base64Image contentType api
            currentYear) = Some card.
Proof.
  unfold identifyCardFromImage.
  destruct (String.eqb base64Image ""); [discriminate|].
  destruct api as [message|content]; [discriminate|].
  destruct (extract_card_data JSON_parse content) as [e|cardData] eqn:Hextract;
    [discriminate|].
  destruct (transform currentYear cardData) as [e|card] eqn:Htransform;
    [discriminate|].
  destruct (truthy (playerName card)) eqn:Hname;
    cbn [negb success ImageRecognition.card]; [|discriminate].
  intros _. exists content, cardData, card. repeat split; assumption.
Qed.

Lemma missing_name_result (base64Image contentType : string)
    (content : list ContentBlock) (currentYear : Z) (cardData : CardData)
    (card : RecognizedCard) :
  base64Image <> "" ->
  extract_card_data JSON_parse content = inr cardData ->
  transform currentYear cardData = inr card ->
  truthy (playerName card) = false ->
  identifyCardFromImage JSON_parse base64Image contentType
    (ApiReturns content) currentYear
  = {| success := false; card := Some card;
       error := Some Spec.no_player_name |}.
Proof.
  intros Himage Hextract Htransform Hname.
  unfold identifyCardFromImage.
  apply String.eqb_neq in Himage. rewrite Himage, Hextract, Htransform, Hname.
  reflexivity.
Qed.

(** A card built from an answer has a falsy player name exactly when the
    answer's [playerName] is missing, [null], empty or otherwise falsy; the
    name is then the empty string. *)
Lemma transform_player_name (currentYear : Z) (members : gmap string value)
    (card : RecognizedCard) :
  transform currentYear (DataObject members) = inr card ->
  playerName card = or_else (get members "playerName") (VStr "").
Proof.
  unfold transform. cbn [properties].
  destruct (lowered_or "sport" _ _); [discriminate|].
  destruct (lowered_or "condition" _ _); [discriminate|].
  intros H. injection H as <-. reflexivity.
Qed.

End Recognizer.

(** C8. When the recognizer extracts a card whose player name is empty or
    missing, its result has [success = false] and carries that card with
    the error, and the route answers 422 with the card as [partialData];
    and whenever the recognizer succeeds, the card it returns has a
    non-empty player name. *)
Theorem missing_player_name_fails_with_partial_data
    (JSON_parse : string -> string + CardData)
    (base64Image contentType : string) (content : list ContentBlock)
    (currentYear : Z) (cardData : CardData) (card : RecognizedCard) :
  base64Image <> "" ->
  extract_card_data JSON_parse content = inr cardData ->
  transform currentYear cardData = inr card ->
  (truthy (playerName card) = false ->
   let result :=
     identifyCardFromImage JSON_parse base64Image contentType
       (ApiReturns content) currentYear in
   success result = false
   /\ ImageRecognition.card result = Some card
   /\ error result = Some Spec.no_player_name
   /\ forall description,
        Routes.post_recognize_card JSON_parse
          (Some (base64Image, contentType)) (ApiReturns content) currentYear
          description
        = Routes.Unprocessable Spec.no_player_name (Some card))
  /\ (forall image type api year,
         success (identifyCardFromImage JSON_parse image type api year) = true ->
         exists recognized,
           ImageRecognition.card
             (identifyCardFromImage JSON_parse image type api year)
           = Some recognized
           /\ truthy (playerName recognized) = true
           /\ playerName recognized <> VStr "").
Proof.
  intros Himage Hextract Htransform. split.
  - intros Hname result. subst result.
    pose proof (missing_name_result JSON_parse base64Image contentType content
                  currentYear cardData card Himage Hextract Htransform Hname)
      as Hresult.
    rewrite Hresult. cbn [success ImageRecognition.card error].
    repeat split.
    intros description. unfold Routes.post_recognize_card.
    rewrite Hresult. reflexivity.
  - intros image type api year Hsuccess.
    destruct (success_inv JSON_parse image type api year Hsuccess)
      as (c & d & recognized & _ & _ & _ & Hname & Hcard).
    exists recognized. split; [exact Hcard|]. split; [exact Hname|].
    intros E. rewrite E in Hname. discriminate Hname.
Qed.

Lemma missing_player_name_fails_with_partial_data_witness :
  transform 2026 Spec.nameless_answer = inr Spec.nameless_card
  /\ truthy (playerName Spec.nameless_card) = false
  /\ Routes.post_recognize_card Spec.parse_nameless
       (Some ("aGVsbG8=", "image/png")) (ApiReturns [TextBlock "answer"])
       2026 ""
     = Routes.Unprocessable Spec.no_player_name (Some Spec.nameless_card).
Proof.
  assert (Himage : "aGVsbG8=" <> "") by discriminate.
  assert (Hextract : extract_card_data Spec.parse_nameless
                       [TextBlock "answer"] = inr Spec.nameless_answer)
    by reflexivity.
  assert (Htransform : transform 2026 Spec.nameless_answer
                       = inr Spec.nameless_card)
    by (vm_compute; reflexivity).
  assert (Hname : truthy (playerName Spec.nameless_card) = false)
    by reflexivity.
  split; [exact Htransform|]. split; [exact Hname|].
  destruct (missing_player_name_fails_with_partial_data Spec.parse_nameless
              "aGVsbG8=" "image/png" [TextBlock "answer"] 2026
              Spec.nameless_answer Spec.nameless_card
              Himage Hextract Htransform) as [Hfail _].
  destruct (Hfail Hname) as (_ & _ & _ & Hroute).
  exact (Hroute "").
Defined.

End RecognitionFacts.

(* ===================================================================== *)
(** * Worked examples                                                     *)
(* ===================================================================== *)

Module Examples.
Import JS Schema Sql Storage Routes PriceService.

Example number_of_year : Number_of_string "2015" = Num 2015.
Proof. reflexivity. Qed.

Example number_of_empty : Number_of_string "" = Num 0.
Proof. reflexivity. Qed.

Example number_of_word : Number_of_string "all" = NaN.
Proof. reflexivity. Qed.

(** A leading minus sign is the range separator: "-5" is the range from
    [Number("")], which is 0, to 5. *)
Example range_of_leading_minus :
  includes "-" "-5" = true
  /\ map Number_of_string (split "-" "-5") = [Num 0; Num 5].
Proof. split; reflexivity. Qed.

Example like_underscore_is_a_wildcard :
  matches (tokens "%T_pps%") "Topps" = true
  /\ matches (tokens "%topps%") "Topps" = false.
Proof. split; reflexivity. Qed.

Example base_price_adds_bonuses :
  keyword_base_price "Messi rookie PSA" = 65.
Proof. reflexivity. Qed.

Example estimator_sample :
  let analysis :=
    fst (scrapeEbayPrices Spec.sample_sine "Messi rookie PSA" []) in
  totalResults analysis = 14%nat /\ length (items analysis) = 10%nat.
Proof. vm_compute. split; reflexivity. Qed.

(** With every required field mapped the same row is stored. *)
Example fully_mapped_row_is_imported :
  exists card db',
    post_import (fun _ => Entries Spec.full_mapping)
      (fun _ => Some [Spec.messi_row]) (fun _ => None)
      Spec.csv_upload Spec.empty_db
    = (ImportDone "Import completed: 1 cards imported, 0 failed"
         [Imported card], db')
    /\ cards db' = [card]
    /\ Card.sport card = "soccer" /\ Card.year card = 2015.
Proof.
  eexists. eexists. vm_compute. repeat split.
Qed.

End Examples.

(* ===================================================================== *)
(** * Further properties of the card repository                           *)
(* ===================================================================== *)

Module RepositoryFacts.
Import JS Schema Sql Storage Repository Query.

(** *** Lookup by id *)

Lemma getCard_find (id : Z) (db : Db) : getCard id db = find_row id (cards db).
Proof. reflexivity. Qed.

Lemma find_row_none (id : Z) (rows : list Card.t) :
  ~ In id (map Card.id rows) -> find_row id rows = None.
Proof.
  unfold find_row. induction rows as [|r rows IH]; intros Hnot; [reflexivity|].
  cbn [List.filter]. destruct (Card.id r =? id) eqn:E.
  - apply Z.eqb_eq in E. exfalso. apply Hnot. now left.
  - apply IH. intros Hin. apply Hnot. now right.
Qed.

Lemma find_row_app (id : Z) (rows more : list Card.t) :
  find_row id (rows ++ more)
  = match find_row id rows with
    | Some r => Some r
    | None => find_row id more
    end.
Proof.
  unfold find_row. induction rows as [|r rows IH]; [reflexivity|].
  cbn [app List.filter]. destruct (Card.id r =? id); [reflexivity|exact IH].
Qed.

Lemma find_row_some (id : Z) (rows : list Card.t) (r : Card.t) :
  find_row id rows = Some r -> In r rows /\ Card.id r = id.
Proof.
  unfold find_row. induction rows as [|r' rows IH]; [discriminate|].
  cbn [List.filter]. destruct (Card.id r' =? id) eqn:E.
  - intros H. injection H as <-. apply Z.eqb_eq in E. split; [now left|exact E].
  - intros H. destruct (IH H) as [Hin Hid]. split; [now right|exact Hid].
Qed.

Lemma find_row_in (id : Z) (rows : list Card.t) :
  In id (map Card.id rows) -> exists r, find_row id rows = Some r.
Proof.
  unfold find_row. induction rows as [|r' rows IH]; intros Hin; [destruct Hin|].
  cbn [List.filter]. destruct (Card.id r' =? id) eqn:E.
  - now exists r'.
  - apply IH. destruct Hin as [Hin|Hin]; [|exact Hin].
    apply Z.eqb_neq in E. contradiction.
Qed.

(** *** createCard *)

Lemma createCard_appends (data : InsertCard.t) (db db' : Db) (card : Card.t) :
  createCard data db = (Some card, db') ->
  cards db' = (cards db ++ [card])%list
  /\ users db' = users db
  /\ cards_id_seq db' = cards_id_seq db + 1
  /\ Card.id card = cards_id_seq db.
Proof.
  unfold createCard.
  destruct (negb (forallb text_ok _)); [discriminate|].
  destruct (user_param (InsertCard.userId data)) as [userId|]; [|discriminate].
  destruct (known_user db userId); [|discriminate].
  intros H. injection H as <- <-. repeat split.
Qed.

(** An INSERT that throws leaves the rows as they were; the sequence has
    kept its value or given one out. *)
Lemma createCard_throws (data : InsertCard.t) (db db' : Db) :
  createCard data db = (None, db') -> db' = db \/ db' = advance db.
Proof.
  unfold createCard.
  destruct (negb (forallb text_ok _)); [intros H; injection H as <-; now left|].
  destruct (user_param (InsertCard.userId data)) as [userId|];
    [|intros H; injection H as <-; now left].
  destruct (known_user db userId); [discriminate|].
  intros H. injection H as <-. now right.
Qed.

Lemma advance_well_keyed (db : Db) : well_keyed db -> well_keyed (advance db).
Proof.
  intros [Hnodup Hbelow]. split; [exact Hnodup|].
  eapply Forall_impl; [exact Hbelow|]. intros r Hr. cbn in Hr |- *. lia.
Qed.

(** The next id of the sequence is not in use. *)
Lemma fresh_id (db : Db) :
  well_keyed db -> ~ In (cards_id_seq db) (map Card.id (cards db)).
Proof.
  intros [_ Hbelow] Hin. apply in_map_iff in Hin.
  destruct Hin as (r & Hid & Hr). rewrite Forall_forall in Hbelow.
  specialize (Hbelow r ltac:(now apply list_elem_of_In)). lia.
Qed.

Lemma find_row_appended (card : Card.t) (rows : list Card.t) (id : Z) :
  ~ In (Card.id card) (map Card.id rows) ->
  find_row id (rows ++ [card])
  = if Card.id card =? id then Some card else find_row id rows.
Proof.
  intros Hfresh. rewrite find_row_app.
  destruct (Card.id card =? id) eqn:E.
  - apply Z.eqb_eq in E. subst id. rewrite (find_row_none _ _ Hfresh).
    unfold find_row. cbn [List.filter]. now rewrite Z.eqb_refl.
  - destruct (find_row id rows); [reflexivity|].
    unfold find_row. cbn [List.filter]. now rewrite E.
Qed.

Lemma createCard_well_keyed (data : InsertCard.t) (db db' : Db)
    (result : option Card.t) :
  well_keyed db -> createCard data db = (result, db') -> well_keyed db'.
Proof.
  intros Hkeys Hcreate. destruct result as [card|];
    [|destruct (createCard_throws data db db' Hcreate) as [->| ->];
      [exact Hkeys | now apply advance_well_keyed]].
  pose proof (fresh_id db Hkeys) as Hfresh.
  destruct Hkeys as [Hnodup Hbelow].
  destruct (createCard_appends data db db' card Hcreate)
    as (Hcards & _ & Hseq & Hid).
  split; rewrite Hcards, ?Hseq.
  - rewrite map_app. cbn [map]. rewrite Hid.
    apply NoDup_app. split; [exact Hnodup|]. split.
    + intros x Hx Hx'. apply list_elem_of_In in Hx.
      apply list_elem_of_In in Hx'. destruct Hx' as [<-|[]]. contradiction.
    + apply NoDup_singleton.
  - apply Forall_app. split.
    + eapply Forall_impl; [exact Hbelow|]. intros r Hr. cbn in Hr. lia.
    + constructor; [lia | constructor].
Qed.

(** X1. In a store whose ids are distinct and below the sequence, a card
    that [createCard] stores gets the next id of the sequence, which no
    stored card had; it is what [getCard] then returns for that id, every
    other lookup is as it was, the card is appended to the stored ones,
    and the store keeps distinct ids below the sequence. *)
Theorem createCard_then_getCard (data : InsertCard.t) (db db' : Db)
    (card : Card.t) :
  well_keyed db ->
  createCard data db = (Some card, db') ->
  Card.id card = cards_id_seq db
  /\ getCard (Card.id card) db = None
  /\ getCard (Card.id card) db' = Some card
  /\ (forall id, id <> Card.id card -> getCard id db' = getCard id db)
  /\ cards db' = (cards db ++ [card])%list
  /\ well_keyed db'.
Proof.
  intros Hkeys Hcreate.
  pose proof (fresh_id db Hkeys) as Hfresh.
  destruct (createCard_appends data db db' card Hcreate)
    as (Hcards & _ & _ & Hid).
  rewrite <- Hid in Hfresh.
  split; [exact Hid|]. split; [|split; [|split; [|split]]].
  - rewrite getCard_find. now apply find_row_none.
  - rewrite getCard_find, Hcards, (find_row_appended card _ _ Hfresh).
    now rewrite Z.eqb_refl.
  - intros id Hne. rewrite !getCard_find, Hcards.
    rewrite (find_row_appended card _ _ Hfresh).
    destruct (Card.id card =? id) eqn:E; [|reflexivity].
    apply Z.eqb_eq in E. congruence.
  - exact Hcards.
  - exact (createCard_well_keyed data db db' (Some card) Hkeys Hcreate).
Qed.

Lemma createCard_then_getCard_witness :
  exists card db',
    createCard sample_insert Spec.empty_db = (Some card, db')
    /\ getCard (Card.id card) db' = Some card.
Proof.
  assert (Hkeys : well_keyed Spec.empty_db)
    by (split; cbn; constructor).
  destruct (createCard sample_insert Spec.empty_db) as [[card|] db'] eqn:E;
    [|vm_compute in E; discriminate E].
  exists card, db'. split; [reflexivity|].
  exact (proj1 (proj2 (proj2 (createCard_then_getCard sample_insert
                                Spec.empty_db db' card Hkeys E)))).
Defined.

(** *** deleteCard *)

Lemma find_row_removed (id id' : Z) (rows : list Card.t) :
  find_row id' (List.filter (fun row => negb (Card.id row =? id)) rows)
  = if id' =? id then None else find_row id' rows.
Proof.
  unfold find_row. induction rows as [|r rows IH].
  - cbn. now destruct (id' =? id).
  - cbn [List.filter]. destruct (Card.id r =? id) eqn:E; cbn [negb].
    + rewrite IH. destruct (id' =? id) eqn:E'; [reflexivity|].
      destruct (Card.id r =? id') eqn:E''; [|reflexivity].
      apply Z.eqb_eq in E, E''. apply Z.eqb_neq in E'. congruence.
    + cbn [List.filter]. destruct (Card.id r =? id') eqn:E''.
      * destruct (id' =? id) eqn:E'; [|reflexivity].
        apply Z.eqb_eq in E', E''. apply Z.eqb_neq in E. congruence.
      * exact IH.
Qed.


(** *** updateCard *)

Lemma find_row_updated (id id' : Z) (f : Card.t -> Card.t)
    (rows : list Card.t) :
  (forall row, Card.id (f row) = Card.id row) ->
  find_row id' (map (fun row => if Card.id row =? id then f row else row) rows)
  = if id' =? id then option_map f (find_row id rows) else find_row id' rows.
Proof.
  intros Hid. unfold find_row. induction rows as [|r rows IH].
  - cbn. now destruct (id' =? id).
  - cbn [map List.filter].
    destruct (Card.id r =? id) eqn:E.
    + rewrite Hid. destruct (id' =? id) eqn:E'.
      * apply Z.eqb_eq in E'. subst id'. now rewrite E.
      * destruct (Card.id r =? id') eqn:E''; [|exact IH].
        apply Z.eqb_eq in E, E''. apply Z.eqb_neq in E'. congruence.
    + destruct (id' =? id) eqn:E'.
      * apply Z.eqb_eq in E'. subst id'. rewrite E. exact IH.
      * destruct (Card.id r =? id'); [reflexivity|exact IH].
Qed.

Lemma map_unchanged (id : Z) (f : Card.t -> Card.t) (rows : list Card.t) :
  find_row id rows = None ->
  map (fun row => if Card.id row =? id then f row else row) rows = rows.
Proof.
  unfold find_row. induction rows as [|r rows IH]; [reflexivity|].
  cbn [List.filter map]. destruct (Card.id r =? id); [discriminate|].
  intros H. now rewrite IH.
Qed.

(** What an update that does not throw has done. *)
Lemma updateCard_inv (id : Z) (updateData : CardPatch.t) (db db' : Db)
    (result : option Card.t) :
  updateCard id updateData db = Some (result, db') ->
  exists userId,
    db' = set_cards db
            (map (fun row => if Card.id row =? id
                             then apply_patch updateData userId row else row)
               (cards db))
    /\ result = option_map (apply_patch updateData userId)
                  (find_row id (cards db)).
Proof.
  unfold updateCard.
  destruct (no_values updateData); [discriminate|].
  destruct (negb (forallb text_ok (supplied_texts updateData)));
    [discriminate|].
  destruct (bound_user (CardPatch.userId updateData)) as [userId|];
    [|discriminate].
  destruct (existsb _ (cards db) && _); [discriminate|].
  intros H. injection H as <- <-. exists userId. split; [reflexivity|].
  fold (find_row id (map (fun row => if Card.id row =? id
                                     then apply_patch updateData userId row
                                     else row) (cards db))).
  rewrite (find_row_updated id id (apply_patch updateData userId) (cards db)
             (fun _ => eq_refl)).
  now rewrite Z.eqb_refl.
Qed.

(** The user an update that does not throw has bound. *)
Lemma updateCard_user (id : Z) (updateData : CardPatch.t) (db db' : Db)
    (result : option Card.t) :
  updateCard id updateData db = Some (result, db') ->
  exists userId,
    result = option_map (apply_patch updateData userId)
               (find_row id (cards db))
    /\ bound_user (CardPatch.userId updateData) = Some userId
    /\ (forall card z,
          find_row id (cards db) = Some card -> userId = Some (Some z) ->
          In z (map User.id (users db))).
Proof.
  unfold updateCard.
  destruct (no_values updateData); [discriminate|].
  destruct (negb (forallb text_ok (supplied_texts updateData)));
    [discriminate|].
  destruct (bound_user (CardPatch.userId updateData)) as [userId|];
    [|discriminate].
  destruct (existsb (fun row => Card.id row =? id) (cards db) && _)
    eqn:Hcheck; [discriminate|].
  intros H. injection H as <- _. exists userId.
  split; [|split; [reflexivity|]].
  - fold (find_row id (map (fun row => if Card.id row =? id
                              then apply_patch updateData userId row
                              else row) (cards db))).
    rewrite (find_row_updated id id (apply_patch updateData userId)
               (cards db) (fun _ => eq_refl)).
    now rewrite Z.eqb_refl.
  - intros card z Hfind ->.
    apply andb_false_iff in Hcheck. destruct Hcheck as [Hrow|Hunknown].
    + apply find_row_some in Hfind. destruct Hfind as [Hin Hid].
      assert (existsb (fun row => Card.id row =? id) (cards db) = true)
        by (apply existsb_exists; exists card; split;
            [exact Hin | now apply Z.eqb_eq]).
      congruence.
    + apply negb_false_iff in Hunknown. apply existsb_exists in Hunknown.
      destruct Hunknown as (usr & Husr & Hid). apply Z.eqb_eq in Hid.
      apply in_map_iff. now exists usr.
Qed.

(** X3. When [updateCard] does not throw: for an id that is not stored it
    returns nothing and leaves the store as it was; for a stored id it
    returns the stored card with every supplied member replaced and every
    other member, the id and the creation time included, kept. A supplied
    user is [null] or the id of a user of the database. The updated card
    is what [getCard] then returns; no other card, no user and not the id
    sequence changes. *)
Theorem updateCard_merges_supplied_fields (id : Z)
    (updateData : CardPatch.t) (db db' : Db) (result : option Card.t) :
  updateCard id updateData db = Some (result, db') ->
  match getCard id db with
  | None => result = None /\ db' = db
  | Some card =>
      exists updated,
        result = Some updated
        /\ getCard id db' = Some updated
        /\ Card.id updated = id
        /\ Card.createdAt updated = Card.createdAt card
        /\ Card.playerName updated
           = default (Card.playerName card) (CardPatch.playerName updateData)
        /\ Card.sport updated
           = default (Card.sport card) (CardPatch.sport updateData)
        /\ Card.year updated
           = default (Card.year card) (CardPatch.year updateData)
        /\ Card.brand updated
           = default (Card.brand card) (CardPatch.brand updateData)
        /\ Card.condition updated
           = default (Card.condition card) (CardPatch.condition updateData)
        /\ Card.cardSet updated
           = match CardPatch.cardSet updateData with
             | Some s => Some s
             | None => Card.cardSet card
             end
        /\ Card.purchasePrice updated
           = match CardPatch.purchasePrice updateData with
             | Some n => Some n
             | None => Card.purchasePrice card
             end
        /\ Card.currentValue updated
           = match CardPatch.currentValue updateData with
             | Some n => Some n
             | None => Card.currentValue card
             end
        /\ Card.notes updated
           = match CardPatch.notes updateData with
             | Some s => Some s
             | None => Card.notes card
             end
        /\ Card.imageUrl updated
           = match CardPatch.imageUrl updateData with
             | Some s => Some s
             | None => Card.imageUrl card
             end
        /\ Card.cardNumber updated
           = match CardPatch.cardNumber updateData with
             | Some s => Some s
             | None => Card.cardNumber card
             end
        /\ match CardPatch.userId updateData with
           | None => Card.userId updated = Card.userId card
           | Some None => Card.userId updated = None
           | Some (Some n) =>
               exists z, as_integer n = Some z
                         /\ Card.userId updated = Some z
                         /\ In z (map User.id (users db))
           end
  end
  /\ (forall id', id' <> id -> getCard id' db' = getCard id' db)
  /\ length (cards db') = length (cards db)
  /\ users db' = users db
  /\ cards_id_seq db' = cards_id_seq db.
Proof.
  intros Hupdate.
  destruct (updateCard_user id updateData db db' result Hupdate)
    as (userId & Hresult & Hbound & Hknown).
  destruct (updateCard_inv id updateData db db' result Hupdate)
    as (userId' & -> & Hresult').
  rewrite !getCard_find. cbn [cards cards_id_seq users set_cards].
  split; [|split; [|split; [apply length_map | split; reflexivity]]].
  - destruct (find_row id (cards db)) as [card|] eqn:Hfind;
      cbn [option_map] in *.
    + exists (apply_patch updateData userId card).
      split; [exact Hresult|]. split.
      * rewrite ?getCard_find. cbn [cards set_cards].
        rewrite (find_row_updated id id (apply_patch updateData userId')
                   (cards db) (fun _ => eq_refl)).
        rewrite Z.eqb_refl, Hfind. cbn [option_map]. congruence.
      * apply find_row_some in Hfind. destruct Hfind as [_ Hid].
        cbn [apply_patch Card.id Card.createdAt Card.playerName Card.sport
               Card.year Card.brand Card.condition Card.cardSet
               Card.purchasePrice Card.currentValue Card.notes Card.imageUrl
               Card.cardNumber Card.userId].
        repeat (split; [first [exact Hid | reflexivity]|]).
        specialize (Hknown card).
        unfold bound_user in Hbound.
        destruct (CardPatch.userId updateData) as [[n|]|].
        -- unfold int4_param in Hbound.
           destruct (as_integer n) as [z|]; [|discriminate].
           destruct (is_int32 z); [|discriminate].
           injection Hbound as <-. exists z.
           split; [reflexivity|]. split; [reflexivity|].
           now apply Hknown.
        -- now injection Hbound as <-.
        -- now injection Hbound as <-.
    + split; [exact Hresult|]. rewrite (map_unchanged _ _ _ Hfind).
      now destruct db.
  - intros id' Hne. rewrite !getCard_find. cbn [cards set_cards].
    rewrite (find_row_updated id id' (apply_patch updateData userId')
               (cards db) (fun _ => eq_refl)).
    destruct (id' =? id) eqn:E; [|reflexivity].
    apply Z.eqb_eq in E. contradiction.
Qed.

Lemma updateCard_merges_supplied_fields_witness :
  exists result db',
    updateCard 1 rename_patch Spec.one_card_db = Some (result, db')
    /\ option_map Card.playerName result = Some "Leo Messi"
    /\ option_map Card.brand result = Some "Topps".
Proof.
  destruct (updateCard 1 rename_patch Spec.one_card_db)
    as [[result db']|] eqn:E; [|vm_compute in E; discriminate E].
  exists result, db'. split; [reflexivity|].
  pose proof (proj1 (updateCard_merges_supplied_fields 1 rename_patch
                       Spec.one_card_db db' result E)) as H.
  change (getCard 1 Spec.one_card_db) with (Some Spec.topps_card) in H.
  destruct H as (updated & -> & _ & _ & _ & Hname & _ & _ & Hbrand & _).
  cbn [option_map]. rewrite Hname, Hbrand. split; reflexivity.
Defined.

(** *** The id invariant *)

Lemma well_keyed_filter (p : Card.t -> bool) (db : Db) :
  well_keyed db -> well_keyed (set_cards db (List.filter p (cards db))).
Proof.
  intros [Hnodup Hbelow]. split; cbn [cards set_cards cards_id_seq].
  - induction (cards db) as [|r rows IH]; [constructor|].
    cbn [map] in Hnodup. apply NoDup_cons in Hnodup. destruct Hnodup as [Hr Hrows].
    apply Forall_cons in Hbelow. destruct Hbelow as [_ Hbelow].
    cbn [List.filter]. destruct (p r); [|now apply IH].
    cbn [map]. apply NoDup_cons. split; [|now apply IH].
    intros Hin. apply Hr. apply list_elem_of_In in Hin.
    apply list_elem_of_In. apply in_map_iff in Hin.
    destruct Hin as (x & Hx & Hxin). apply filter_In in Hxin.
    apply in_map_iff. exists x. tauto.
  - rewrite Forall_forall in *. intros x Hx. apply Hbelow.
    apply list_elem_of_In in Hx. apply filter_In in Hx.
    now apply list_elem_of_In.
Qed.

(** X4. Every mutation of the repository keeps the ids of the stored cards
    distinct and below the id sequence: [createCard] (whether it returns
    or throws), [updateCard], [deleteCard] and [deleteAllCards]. *)
Theorem repository_keeps_ids_distinct (db : Db) :
  well_keyed db ->
  (forall data result db',
      createCard data db = (result, db') -> well_keyed db')
  /\ (forall id updateData result db',
         updateCard id updateData db = Some (result, db') -> well_keyed db')
  /\ (forall id, well_keyed (snd (deleteCard id db)))
  /\ well_keyed (snd (deleteAllCards db)).
Proof.
  intros Hkeys. split; [|split; [|split]].
  - intros data result db' Hcreate.
    exact (createCard_well_keyed data db db' result Hkeys Hcreate).
  - intros id updateData result db'. unfold updateCard.
    destruct (no_values updateData); [discriminate|].
    destruct (negb _); [discriminate|].
    destruct (bound_user _) as [userId|]; [|discriminate].
    destruct (existsb _ (cards db) && _); [discriminate|].
    intros H. injection H as _ <-. destruct Hkeys as [Hnodup Hbelow].
    split; cbn [cards set_cards cards_id_seq].
    + rewrite map_map.
      erewrite map_ext; [exact Hnodup|].
      intros row. cbn. now destruct (Card.id row =? id).
    + apply Forall_map. eapply Forall_impl; [exact Hbelow|].
      intros row Hrow. cbn. now destruct (Card.id row =? id).
  - intros id. unfold deleteCard. cbn [snd]. now apply well_keyed_filter.
  - cbn. split; constructor.
Qed.

Lemma repository_keeps_ids_distinct_witness :
  well_keyed Spec.one_card_db
  /\ well_keyed (snd (deleteCard 1 Spec.one_card_db)).
Proof.
  assert (Hkeys : well_keyed Spec.one_card_db).
  { split; cbn.
    - apply NoDup_singleton.
    - constructor; [reflexivity | constructor]. }
  split; [exact Hkeys|].
  exact (proj1 (proj2 (proj2 (repository_keeps_ids_distinct Spec.one_card_db
                                Hkeys))) 1).
Defined.

(** *** ORDER BY sorts *)

Section Sorting.

Variable le : Order.
Hypothesis le_total : forall a b, le a b = true \/ le b a = true.

Lemma insert_row_hd (r r0 : Card.t) (rows : list Card.t) :
  le r0 r = true -> HdRel (fun a b => le a b = true) r0 rows ->
  HdRel (fun a b => le a b = true) r0 (insert_row le r rows).
Proof.
  intros Hr Hhd. destruct rows as [|r' rows]; cbn [insert_row].
  - now constructor.
  - destruct (le r r'); constructor; [exact Hr|].
    now inversion Hhd.
Qed.

Lemma insert_row_sorted (r : Card.t) (rows : list Card.t) :
  Sorted (fun a b => le a b = true) rows ->
  Sorted (fun a b => le a b = true) (insert_row le r rows).
Proof.
  induction 1 as [|r' rows Hsorted IH Hhd]; cbn [insert_row].
  - repeat constructor.
  - destruct (le r r') eqn:E.
    + constructor; [now constructor|]. now constructor.
    + constructor; [exact IH|].
      apply insert_row_hd; [|exact Hhd].
      destruct (le_total r r') as [H|H]; [congruence|exact H].
Qed.

Lemma orderBy_sorted (rows : list Card.t) :
  Sorted (fun a b => le a b = true) (orderBy le rows).
Proof.
  induction rows as [|r rows IH]; cbn; [constructor|].
  now apply insert_row_sorted.
Qed.

End Sorting.

Lemma Sorted_weaken (R R' : Card.t -> Card.t -> Prop) (rows : list Card.t) :
  (forall a b, R a b -> R' a b) -> Sorted R rows -> Sorted R' rows.
Proof.
  intros Himpl. induction 1 as [|r rows Hs IH Hhd]; constructor; [exact IH|].
  destruct Hhd; constructor. now apply Himpl.
Qed.

(** *** The query in parts *)

Lemma getFilteredCards_parts (params : FilterParams) (db : Db) :
  getFilteredCards params db
  = if well_typed (and_ (filters_of params))
    then Some (orderBy (order_of params)
                 (List.filter (selected (and_ (filters_of params)))
                    (cards db)))
    else None.
Proof.
  unfold getFilteredCards, filters_of, search_filter, text_filter,
    year_filter, order_of.
  destruct (given (search params));
    destruct (given (sport params) && _);
    destruct (given (year params) && _);
    destruct (given (brand params) && _);
    destruct (given (condition params) && _);
    try destruct (includes "-" (text (year params)));
    reflexivity.
Qed.

Lemma selected_and (fs : list Condition) (row : Card.t) :
  selected (and_ fs) row = forallb (fun f => selected f row) fs.
Proof.
  unfold selected. cbn [holds and_].
  induction fs as [|f fs IH]; [reflexivity|].
  cbn [fold_right forallb]. rewrite <- IH.
  destruct (holds f row) as [[]|];
    destruct (fold_right _ _ fs) as [[]|]; reflexivity.
Qed.

Lemma selected_text_filter (param : option string) (column : Card.t -> string)
    (row : Card.t) :
  forallb (fun f => selected f row) (text_filter param column)
  = wanted param (column row).
Proof.
  unfold text_filter, wanted, unset.
  destruct (given param); cbn [negb andb orb]; [|reflexivity].
  destruct (String.eqb (text param) "all"); cbn [negb forallb orb];
    [reflexivity|].
  unfold selected. cbn [holds eq_text]. now destruct (String.eqb _ _).
Qed.

Lemma selected_search_filter (params : FilterParams) (row : Card.t) :
  given (search params) = false \/ Spec.plain (text (search params)) = true ->
  forallb (fun f => selected f row) (search_filter params)
  = negb (given (search params))
    || Spec.search_matches (text (search params)) row.
Proof.
  unfold search_filter. intros Hsearch.
  destruct (given (search params)); cbn [negb orb forallb]; [|reflexivity].
  destruct Hsearch as [Hs|Hplain]; [discriminate|].
  unfold selected. cbn [holds or_ like fold_right].
  unfold Spec.search_matches, Spec.occurs_in.
  rewrite !(StorageFacts.like_search_term _ _ Hplain).
  destruct (includes _ (Card.playerName row)), (includes _ (Card.brand row)),
    (Card.cardSet row) as [cs|], (Card.notes row) as [nt|];
    rewrite ?(StorageFacts.like_search_term _ _ Hplain);
    try destruct (includes _ cs); try destruct (includes _ nt); reflexivity.
Qed.

Lemma text_filter_typed (param : option string) (column : Card.t -> string) :
  forallb well_typed (text_filter param column)
  = forallb text_param (if unset param then [] else [text param]).
Proof.
  unfold text_filter, unset.
  destruct (given param); cbn [negb andb orb]; [|reflexivity].
  now destruct (String.eqb (text param) "all").
Qed.

Lemma search_filter_typed (params : FilterParams) :
  forallb well_typed (search_filter params)
  = forallb text_param
      (if given (search params) then [text (search params)] else []).
Proof.
  unfold search_filter. destruct (given (search params)); [|reflexivity].
  cbn [forallb well_typed or_ like].
  rewrite StorageFacts.text_param_search_term.
  now destruct (text_param (text (search params))).
Qed.

Lemma year_filter_unset (params : FilterParams) :
  unset (year params) = true -> year_filter params = [].
Proof.
  unfold unset, year_filter. intros H.
  destruct (given (year params)); cbn [negb andb orb] in *; [|reflexivity].
  now rewrite H.
Qed.

(** Without a year filter the query is accepted exactly when no text it
    binds holds a NUL character. *)
Lemma filters_typed (params : FilterParams) :
  unset (year params) = true ->
  well_typed (and_ (filters_of params)) = bindable params.
Proof.
  intros Hyear. cbn [well_typed and_]. unfold filters_of, bindable, bound_texts.
  rewrite !forallb_app, (year_filter_unset params Hyear).
  now rewrite search_filter_typed, !text_filter_typed.
Qed.

(** X5. Without a year filter, for a search string free of LIKE special
    characters, and when no text parameter holds a NUL character, the list
    operation returns exactly the cards that pass every filter given: the
    search, and equality on sport, brand and condition, where an absent,
    empty or "all" value filters nothing. *)
Theorem filters_are_conjoined (params : FilterParams) (db : Db) :
  unset (year params) = true ->
  given (search params) = false \/ Spec.plain (text (search params)) = true ->
  bindable params = true ->
  exists result,
    getFilteredCards params db = Some result
    /\ Permutation result (List.filter (passes params) (cards db)).
Proof.
  intros Hyear Hsearch Hbind.
  rewrite getFilteredCards_parts, (filters_typed params Hyear), Hbind.
  eexists. split; [reflexivity|].
  rewrite StorageFacts.orderBy_perm.
  erewrite filter_ext; [reflexivity|].
  intros row. rewrite selected_and. unfold filters_of, passes.
  rewrite !forallb_app, (year_filter_unset params Hyear).
  rewrite (selected_search_filter params row Hsearch).
  rewrite !selected_text_filter. cbn [forallb andb].
  now rewrite !andb_assoc.
Qed.

Lemma filters_are_conjoined_witness :
  exists result,
    getFilteredCards
      {| search := Some "Messi"; sport := Some "soccer"; year := Some "all";
         brand := Some "all"; condition := None; sortBy := None |}
      Spec.one_card_db = Some result
    /\ Permutation result [Spec.topps_card].
Proof.
  exact (filters_are_conjoined
           {| search := Some "Messi"; sport := Some "soccer";
              year := Some "all"; brand := Some "all"; condition := None;
              sortBy := None |}
           Spec.one_card_db eq_refl (or_intror eq_refl) eq_refl).
Defined.

(** X6. Without a year filter the list operation fails exactly when a
    text it binds as a parameter (the search term, or the sport, brand or
    condition that filters) holds a NUL character, whatever the other
    parameters are; and whenever it returns, the result is a rearrangement
    of a selection of the stored cards: no card is invented or repeated. *)
Theorem list_fails_only_on_nul_without_year (params : FilterParams)
    (db : Db) :
  (unset (year params) = true ->
   (getFilteredCards params db = None <-> bindable params = false))
  /\ (forall result,
         getFilteredCards params db = Some result ->
         (exists keep, Permutation result (List.filter keep (cards db)))
         /\ (forall card, In card result -> In card (cards db))
         /\ (length result <= length (cards db))%nat).
Proof.
  rewrite getFilteredCards_parts. split.
  - intros Hyear. rewrite (filters_typed params Hyear).
    destruct (bindable params); split; congruence.
  - intros result. destruct (well_typed _); [|discriminate].
    intros H. injection H as <-.
    pose proof (StorageFacts.orderBy_perm (order_of params)
                  (List.filter (selected (and_ (filters_of params)))
                     (cards db))) as Hperm.
    split; [eexists; exact Hperm|]. split.
    + intros card Hin. apply (Permutation_in _ Hperm) in Hin.
      now apply filter_In in Hin.
    + rewrite (Permutation_length Hperm). apply filter_length_le.
Qed.

Lemma list_fails_only_on_nul_without_year_witness :
  getFilteredCards (Spec.by_search "100%_" (Some "valueAsc")) Spec.one_card_db
  <> None.
Proof.
  pose proof (proj1 (list_fails_only_on_nul_without_year
                       (Spec.by_search "100%_" (Some "valueAsc"))
                       Spec.one_card_db) eq_refl) as [Hfails _].
  intros Hnone. specialize (Hfails Hnone). discriminate Hfails.
Defined.

(** *** The orders are total *)

Lemma Zleb_total (a b : Z) : (a <=? b) = true \/ (b <=? a) = true.
Proof. destruct (Z.leb_spec a b); [now left|right]. apply Z.leb_le. lia. Qed.

Lemma number_le_total (a b : number) :
  number_le a b = true \/ number_le b a = true.
Proof.
  destruct a as [x| | |], b as [y| | |]; cbn; auto.
  destruct (Qlt_le_dec x y) as [H|H].
  - left. apply Qle_bool_iff. now apply Qlt_le_weak.
  - right. now apply Qle_bool_iff.
Qed.

Lemma null_last_total {A : Type} (le : A -> A -> bool) :
  (forall a b, le a b = true \/ le b a = true) ->
  forall a b, null_last le a b = true \/ null_last le b a = true.
Proof. intros Htotal [x|] [y|]; cbn; auto. Qed.

Lemma order_of_total (params : FilterParams) (a b : Card.t) :
  order_of params a b = true \/ order_of params b a = true.
Proof.
  unfold order_of, asc, desc, text_le.
  repeat match goal with
         | |- context [if ?c then _ else _] => destruct c
         end;
    first [ apply Zleb_total
          | apply String.leb_total
          | apply (null_last_total Z.leb Zleb_total)
          | apply (null_last_total number_le number_le_total) ].
Qed.

Lemma order_of_unrecognized (params : FilterParams) :
  match sortBy params with
  | Some s => ~ In s sort_options
  | None => True
  end ->
  order_of params = desc Z.leb Card.id.
Proof.
  unfold order_of, given, text. destruct (sortBy params) as [s|]; [|reflexivity].
  cbn [default from_option id]. intros Hnot.
  destruct (negb (String.eqb s "")); [|reflexivity].
  repeat match goal with
         | |- context [String.eqb s ?k] =>
             destruct (String.eqb_spec s k) as [->|_];
             [exfalso; apply Hnot; cbn; tauto|]
         end.
  reflexivity.
Qed.

(** X7. The list comes back in the order [sortBy] names: by year, player
    name or current value, ascending or descending, an unknown current
    value counting as larger than any known one; "recent" is by creation
    time, newest (or unknown) first; an absent or unrecognized [sortBy]
    is by id, largest first. *)
Theorem list_is_sorted_as_requested (params : FilterParams) (db : Db)
    (result : list Card.t) :
  getFilteredCards params db = Some result ->
  (sortBy params = Some "yearAsc" ->
   Sorted (fun a b => Card.year a <= Card.year b) result)
  /\ (sortBy params = Some "yearDesc" ->
      Sorted (fun a b => Card.year b <= Card.year a) result)
  /\ (sortBy params = Some "playerNameAsc" ->
      Sorted (fun a b => String.leb (Card.playerName a) (Card.playerName b)
                         = true) result)
  /\ (sortBy params = Some "playerNameDesc" ->
      Sorted (fun a b => String.leb (Card.playerName b) (Card.playerName a)
                         = true) result)
  /\ (sortBy params = Some "valueAsc" ->
      Sorted (fun a b => null_last number_le (Card.currentValue a)
                           (Card.currentValue b) = true) result)
  /\ (sortBy params = Some "valueDesc" ->
      Sorted (fun a b => null_last number_le (Card.currentValue b)
                           (Card.currentValue a) = true) result)
  /\ (sortBy params = Some "recent" ->
      Sorted (fun a b => null_last Z.leb (Card.createdAt b)
                           (Card.createdAt a) = true) result)
  /\ (match sortBy params with
      | Some s => ~ In s sort_options
      | None => True
      end ->
      Sorted (fun a b => Card.id b <= Card.id a) result).
Proof.
  rewrite getFilteredCards_parts.
  destruct (well_typed _); [|discriminate].
  intros H. injection H as <-.
  pose proof (orderBy_sorted (order_of params) (order_of_total params)
                (List.filter (selected (and_ (filters_of params))) (cards db)))
    as Hsorted.
  repeat split; intros Hsort; revert Hsorted;
    try (unfold order_of; rewrite Hsort; cbn; apply Sorted_weaken;
         intros a b Hab; solve [exact Hab | now apply Z.leb_le]).
  rewrite (order_of_unrecognized params Hsort). apply Sorted_weaken.
  intros a b Hab. now apply Z.leb_le.
Qed.

Lemma list_is_sorted_as_requested_witness :
  exists result,
    getFilteredCards (by_sort (Some "yearAsc")) Spec.one_card_db = Some result
    /\ Sorted (fun a b => Card.year a <= Card.year b) result.
Proof.
  exists [Spec.topps_card].
  assert (H : getFilteredCards (by_sort (Some "yearAsc")) Spec.one_card_db
              = Some [Spec.topps_card]) by reflexivity.
  split; [exact H|].
  exact (proj1 (list_is_sorted_as_requested (by_sort (Some "yearAsc"))
                  Spec.one_card_db [Spec.topps_card] H) eq_refl).
Defined.

(** X8. [getAllCards] returns every stored card once, in descending order
    of id, and is what the list operation returns when no filter and no
    sort order is given. *)
Theorem getAllCards_newest_first (db : Db) :
  Permutation (getAllCards db) (cards db)
  /\ StronglySorted (fun a b => Card.id b <= Card.id a) (getAllCards db)
  /\ getFilteredCards (Spec.unfiltered None) db = Some (getAllCards db).
Proof.
  split; [apply StorageFacts.orderBy_perm|]. split.
  - apply Sorted_StronglySorted.
    + intros a b c Hab Hbc. lia.
    + unfold getAllCards.
      apply (Sorted_weaken (fun a b => desc Z.leb Card.id a b = true)).
      * intros a b Hab. now apply Z.leb_le.
      * apply orderBy_sorted. intros a b. apply Zleb_total.
  - rewrite getFilteredCards_parts. cbn.
    unfold getAllCards. do 2 f_equal.
    induction (cards db) as [|r rows IH]; [reflexivity|].
    cbn. now rewrite IH.
Qed.

End RepositoryFacts.

(* ===================================================================== *)
(** * Properties of the card and price endpoints                          *)
(* ===================================================================== *)

Module CardRouteFacts.
Import JS Schema Sql Storage Repository Query CardRoutes.

Lemma getCard_find' (n : Z) (db : Db) :
  getCard n db = head (List.filter (fun row => Card.id row =? n) (cards db)).
Proof. reflexivity. Qed.

(** An id written in decimal digits is read back as that id. *)
Lemma card_id_numeral (s : string) (n : Z) :
  Spec.Numeral s n -> n <= INT32_MAX -> card_id s = Some n.
Proof.
  intros Hnum Hmax.
  destruct (StorageFacts.numeral_all_decimal s n Hnum) as (Hne & Hall & Hn0).
  destruct (StorageFacts.scan_numeral s n Hnum 0 0%nat) as (k & Hk & E).
  unfold card_id, parseInt_string.
  assert (Hstart : trimStart s = s).
  { pose proof (StorageFacts.trim_numeral s Hall) as Htrim.
    destruct s as [|c s]; [reflexivity|].
    apply StorageFacts.all_decimal_cons in Hall. destruct Hall as [Hc _].
    destruct (StorageFacts.is_decimal_not c Hc) as (Hsp & _).
    cbn [trimStart]. now rewrite Hsp. }
  rewrite Hstart.
  destruct s as [|c r]; [congruence|].
  apply StorageFacts.all_decimal_cons in Hall. destruct Hall as [Hc _].
  rewrite (StorageFacts.scan_sign_digit c r Hc). cbn [negb andb].
  rewrite E. destruct k as [|k]; [lia|]. cbn [Nat.add Nat.eqb].
  rewrite Z.mul_0_l, Z.add_0_l.
  apply StorageFacts.int4_param_integer; [reflexivity|].
  now apply StorageFacts.is_int32_numeral.
Qed.

Lemma createCard_stored_in_full (data : InsertCard.t) (db db' : Db)
    (card : Card.t) :
  createCard data db = (Some card, db') -> stored_in_full data db card.
Proof.
  unfold createCard.
  destruct (negb (forallb text_ok _)); [discriminate|].
  destruct (user_param (InsertCard.userId data)) as [userId|] eqn:Hparam;
    [|discriminate].
  destruct (known_user db userId) eqn:Hknown; [|discriminate].
  intros H. injection H as <- _. unfold stored_in_full.
  cbn [Card.id Card.playerName Card.sport Card.year Card.brand Card.cardSet
         Card.condition Card.purchasePrice Card.currentValue Card.notes
         Card.imageUrl Card.cardNumber Card.userId Card.createdAt].
  repeat (split; [reflexivity|]). split; [|reflexivity].
  unfold user_param in Hparam.
  destruct (InsertCard.userId data) as [n|]; [|now injection Hparam as <-].
  unfold int4_param in Hparam.
  destruct (as_integer n) as [z|]; [|discriminate].
  destruct (is_int32 z); [|discriminate].
  cbn [option_map] in Hparam. injection Hparam as <-.
  exists z. split; [reflexivity|]. split; [reflexivity|].
  cbn [known_user] in Hknown. apply existsb_exists in Hknown.
  destruct Hknown as (usr & Husr & Hid). apply Z.eqb_eq in Hid.
  apply in_map_iff. now exists usr.
Qed.

(** The answer is 201 exactly when the body validates and the insert of
    the validated data returns a card. *)
Lemma post_card_created (requestBody : RequestBody) (db db' : Db)
    (reply : Reply) :
  post_card requestBody db = (reply, db') ->
  status reply = 201 <->
  exists members data card,
    requestBody = JsonObject members
    /\ safeParse members = inr data
    /\ createCard data db = (Some card, db').
Proof.
  unfold post_card. destruct requestBody as [members|v].
  - destruct (safeParse members) as [issues|data] eqn:Hparse.
    + intros H. injection H as <- <-. cbn [status]. split; [discriminate|].
      intros (members' & data' & card & E & Hparse' & _).
      injection E as <-. congruence.
    + destruct (createCard data db) as [[newCard|] db1] eqn:Hcreate;
        intros H; injection H as <- <-; cbn [status].
      * split; [|reflexivity]. intros _. now exists members, data, newCard.
      * split; [discriminate|].
        intros (members' & data' & card & E & Hparse' & Hcreate').
        injection E as <-. congruence.
  - intros H. injection H as <- <-. cbn [status]. split; [discriminate|].
    intros (members' & data' & card & E & _). discriminate E.
Qed.

(** X9. POST /api/cards answers 201 exactly when the body validates and
    the insert goes through; the card of the answer carries every member
    of the validated data, the next id of the sequence and the time of the
    insertion, is appended to the store, and GET /api/cards/:id with its
    id in decimal digits then answers 200 with the same card. Any other
    answer is 400 or 500 with a message and leaves the stored cards and
    users as they were; a 400 changes nothing at all, while a 500 may have
    used up the next id of the sequence, which happens only for validated
    data that name a user. *)
Theorem post_card_then_get_card (requestBody : RequestBody) (db db' : Db)
    (reply : Reply) :
  well_keyed db ->
  post_card requestBody db = (reply, db') ->
  (status reply = 201 ->
   exists members data card,
     requestBody = JsonObject members
     /\ safeParse members = inr data
     /\ body reply = OneCard card
     /\ stored_in_full data db card
     /\ cards db' = (cards db ++ [card])%list
     /\ cards_id_seq db' = cards_id_seq db + 1
     /\ forall idText,
          Spec.Numeral idText (Card.id card) -> Card.id card <= INT32_MAX ->
          get_card idText db' = {| status := 200; body := OneCard card |})
  /\ (status reply <> 201 ->
      cards db' = cards db /\ users db' = users db /\ now db' = now db
      /\ (status reply = 400 \/ status reply = 500)
      /\ (status reply = 400 -> db' = db)
      /\ (cards_id_seq db' = cards_id_seq db
          \/ cards_id_seq db' = cards_id_seq db + 1
             /\ exists members data n,
                  requestBody = JsonObject members
                  /\ safeParse members = inr data
                  /\ InsertCard.userId data = Some n)
      /\ exists message, body reply = Message message)
  /\ (status reply = 201 <->
      exists members data card,
        requestBody = JsonObject members
        /\ safeParse members = inr data
        /\ createCard data db = (Some card, db')).
Proof.
  intros Hkeys Hpost.
  refine ((fun H => conj (proj1 H)
                      (conj (proj2 H)
                         (post_card_created _ _ _ _ Hpost))) _).
  revert Hpost. unfold post_card.
  assert (Hsame : forall st message,
             (st = 400 \/ st = 500) ->
             let reply := {| status := st; body := Message message |} in
             (status reply = 201 -> False)
             /\ (status reply <> 201 ->
                 cards db = cards db /\ users db = users db
                 /\ now db = now db
                 /\ (status reply = 400 \/ status reply = 500)
                 /\ (status reply = 400 -> db = db)
                 /\ (cards_id_seq db = cards_id_seq db
                     \/ cards_id_seq db = cards_id_seq db + 1
                        /\ exists members data n,
                             requestBody = JsonObject members
                             /\ safeParse members = inr data
                             /\ InsertCard.userId data = Some n)
                 /\ exists message, body reply = Message message)).
  { intros st message Hst reply0. subst reply0. cbn [status body]. split.
    - intros E. destruct Hst as [->| ->]; discriminate E.
    - intros _. repeat (split; [reflexivity|]). split; [exact Hst|].
      split; [reflexivity|]. split; [now left | eexists; reflexivity]. }
  destruct requestBody as [members|v].
  - destruct (safeParse members) as [issues|data] eqn:Hparse.
    + intros H. injection H as <- <-.
      destruct (Hsame 400 (validation_message issues) (or_introl eq_refl))
        as [H1 H2].
      split; [intros E; destruct (H1 E) | exact H2].
    + destruct (createCard data db) as [[newCard|] db1] eqn:Hcreate.
      * intros H. injection H as <- <-. cbn [status body].
        split; [|congruence]. intros _.
        destruct (RepositoryFacts.createCard_appends data db db1 newCard
                    Hcreate) as (Hcards & _ & Hseq & Hid).
        assert (Hget : getCard (Card.id newCard) db1 = Some newCard).
        { pose proof (RepositoryFacts.fresh_id db Hkeys) as Hfresh.
          rewrite <- Hid in Hfresh.
          rewrite RepositoryFacts.getCard_find, Hcards.
          rewrite (RepositoryFacts.find_row_appended newCard _ _ Hfresh).
          now rewrite Z.eqb_refl. }
        exists members, data, newCard.
        split; [reflexivity|]. split; [exact Hparse|].
        split; [reflexivity|].
        split; [eapply createCard_stored_in_full; exact Hcreate|].
        split; [exact Hcards|]. split; [exact Hseq|].
        intros idText Hnum Hmax. unfold get_card.
        now rewrite (card_id_numeral idText _ Hnum Hmax), Hget.
      * intros H. injection H as <- <-. cbn [status body].
        split; [discriminate|]. intros _.
        assert (Hcase : db1 = db
                        \/ db1 = advance db
                           /\ exists n, InsertCard.userId data = Some n).
        { revert Hcreate. unfold createCard.
          destruct (negb (forallb text_ok _));
            [intros H; injection H as <-; now left|].
          destruct (InsertCard.userId data) as [n|]; cbn [user_param].
          - destruct (int4_param n) as [z|]; cbn [option_map];
              [|intros H; injection H as <-; now left].
            destruct (known_user db (Some z)); [discriminate|].
            intros H. injection H as <-. right. split; [reflexivity|].
            now exists n.
          - cbn [known_user]. discriminate. }
        destruct Hcase as [->|[-> [n Hn]]]; cbn [advance cards users now
                                                   cards_id_seq].
        -- repeat (split; [reflexivity|]). split; [now right|].
           split; [discriminate|]. split; [now left | eexists; reflexivity].
        -- repeat (split; [reflexivity|]). split; [now right|].
           split; [discriminate|]. split; [|eexists; reflexivity].
           right. split; [reflexivity|]. now exists members, data, n.
  - intros H. injection H as <- <-.
    destruct (Hsame 400 (not_an_object v) (or_introl eq_refl)) as [H1 H2].
    split; [intros E; destruct (H1 E) | exact H2].
Qed.

Lemma post_card_then_get_card_witness :
  exists card db',
    post_card (JsonObject (Routes.map_record Spec.full_mapping Spec.messi_row))
      Spec.empty_db
    = ({| status := 201; body := OneCard card |}, db')
    /\ get_card "1" db' = {| status := 200; body := OneCard card |}.
Proof.
  assert (Hkeys : well_keyed Spec.empty_db) by (split; cbn; constructor).
  destruct (post_card (JsonObject (Routes.map_record Spec.full_mapping
                                     Spec.messi_row)) Spec.empty_db)
    as [reply db'] eqn:E.
  assert (Hstatus : status reply = 201)
    by (vm_compute in E; injection E as <- _; reflexivity).
  destruct (proj1 (post_card_then_get_card _ _ _ _ Hkeys E) Hstatus)
    as (members & data & card & _ & _ & Hbody & _ & Hcards & _ & Hget).
  assert (Hid : Card.id card = 1).
  { vm_compute in E. injection E as _ <-. cbn in Hcards.
    injection Hcards as <-. reflexivity. }
  exists card, db'. split.
  - destruct reply as [st bd]. cbn in Hstatus, Hbody. now subst.
  - apply Hget; rewrite Hid.
    + now apply Spec.Numeral_digit.
    + unfold INT32_MAX. lia.
Defined.

Lemma filter_keeps_all (n : Z) (rows : list Card.t) :
  find_row n rows = None ->
  List.filter (fun row => negb (Card.id row =? n)) rows = rows.
Proof.
  unfold find_row. induction rows as [|r rows IH]; [reflexivity|].
  cbn [List.filter]. destruct (Card.id r =? n); [discriminate|].
  intros H. cbn [negb]. now rewrite IH.
Qed.

Lemma filter_drops_one (n : Z) (rows : list Card.t) (r : Card.t) :
  find_row n rows = Some r ->
  (length (List.filter (fun row => negb (Card.id row =? n)%Z) rows)
   < length rows)%nat.
Proof.
  unfold find_row. induction rows as [|r' rows IH]; [discriminate|].
  cbn [List.filter]. destruct (Card.id r' =? n); cbn [negb length].
  - intros _. pose proof (List.filter_length_le
                            (fun row => negb (Card.id row =? n)) rows). lia.
  - intros H. specialize (IH H). lia.
Qed.

(** X10. DELETE /api/cards/:id answers 204 only when it removed a card:
    the store then holds fewer cards, and both GET and a second DELETE of
    the same id answer 404. When it answers 404 the stored cards are
    unchanged, and an id that is no 32-bit integer is answered with 500. *)
Theorem delete_card_then_not_found (id : string) (db : Db) :
  (status (fst (delete_card id db)) = 204 ->
   status (get_card id (snd (delete_card id db))) = 404
   /\ status (fst (delete_card id (snd (delete_card id db)))) = 404
   /\ (length (cards (snd (delete_card id db))) < length (cards db))%nat)
  /\ (status (fst (delete_card id db)) = 404 ->
      cards (snd (delete_card id db)) = cards db)
  /\ (card_id id = None ->
      delete_card id db
      = ({| status := 500; body := Message "Failed to delete card" |}, db)).
Proof.
  unfold delete_card, get_card.
  destruct (card_id id) as [n|] eqn:Hid;
    [|cbn [fst snd status]; repeat split; discriminate].
  unfold deleteCard. rewrite !getCard_find'.
  change (head (List.filter (fun row => Card.id row =? n) (cards db)))
    with (find_row n (cards db)).
  destruct (find_row n (cards db)) as [r|] eqn:Hfind.
  - assert (Hhead : exists l, List.filter (fun row => Card.id row =? n)
                                 (cards db) = r :: l).
    { unfold find_row in Hfind.
      destruct (List.filter _ (cards db)) as [|x l]; [discriminate|].
      injection Hfind as ->. now exists l. }
    destruct Hhead as [l ->]. cbn [fst snd status cards set_cards].
    split; [|split; [discriminate|discriminate]]. intros _.
    pose proof (RepositoryFacts.find_row_removed n n (cards db)) as Hgone.
    rewrite Z.eqb_refl in Hgone. unfold find_row in Hgone.
    destruct (List.filter (fun row => Card.id row =? n)
                (List.filter (fun row => negb (Card.id row =? n)) (cards db)))
      as [|x l']; [|discriminate Hgone].
    cbn [fst snd status head]. split; [reflexivity|]. split; [reflexivity|].
    now apply (filter_drops_one n (cards db) r).
  - assert (Hnil : List.filter (fun row => Card.id row =? n) (cards db) = []).
    { unfold find_row in Hfind.
      now destruct (List.filter _ (cards db)). }
    rewrite Hnil. cbn [fst snd status cards set_cards].
    split; [discriminate|]. split; [|discriminate]. intros _.
    now apply filter_keeps_all.
Qed.

Lemma delete_card_then_not_found_witness :
  status (fst (delete_card "1" Spec.one_card_db)) = 204
  /\ status (get_card "1" (snd (delete_card "1" Spec.one_card_db))) = 404.
Proof.
  assert (H : status (fst (delete_card "1" Spec.one_card_db)) = 204)
    by reflexivity.
  split; [exact H|].
  exact (proj1 (proj1 (delete_card_then_not_found "1" Spec.one_card_db) H)).
Defined.

(** *** PATCH *)

Lemma safeParsePartial_nothing (members : gmap string value) :
  (forall key, In key card_fields -> members !! key = None) ->
  exists data, safeParsePartial members = inr data /\ no_values data = true.
Proof.
  intros Hnone.
  assert (Hget : forall key, In key card_fields -> get members key = VUndefined).
  { intros key Hkey. unfold get. now rewrite (Hnone key Hkey). }
  unfold safeParsePartial.
  rewrite !Hget by (cbn; tauto). cbn [optional].
  eexists. split; reflexivity.
Qed.

(** X11. PATCH /api/cards/:id never adds or removes a card and never
    changes an id, whatever it answers; when it answers 200, GET of the
    same id returns the card of the answer; and a body that supplies none
    of the card's fields is answered with 500, the store unchanged. *)
Theorem patch_card_keeps_ids (id : string) (requestBody : RequestBody)
    (db : Db) :
  map Card.id (cards (snd (patch_card id requestBody db)))
  = map Card.id (cards db)
  /\ cards_id_seq (snd (patch_card id requestBody db)) = cards_id_seq db
  /\ (status (fst (patch_card id requestBody db)) = 200 ->
      get_card id (snd (patch_card id requestBody db))
      = fst (patch_card id requestBody db))
  /\ (forall members,
         requestBody = JsonObject members ->
         (forall key, In key card_fields -> members !! key = None) ->
         patch_card id requestBody db
         = ({| status := 500; body := Message "Failed to update card" |},
            db)).
Proof.
  split; [|split; [|split]].
  - unfold patch_card. destruct requestBody as [members|v]; [|reflexivity].
    destruct (safeParsePartial members) as [issues|data]; [reflexivity|].
    destruct (card_id id) as [n|]; [|reflexivity].
    destruct (updateCard n data db) as [[[updated|] db']|] eqn:E;
      cbn [snd]; try reflexivity;
      unfold updateCard in E;
      destruct (no_values data); try discriminate;
      destruct (negb _); try discriminate;
      destruct (bound_user _) as [userId|]; try discriminate;
      destruct (existsb _ (cards db) && _); try discriminate;
      injection E as _ <-; cbn [cards set_cards];
      rewrite map_map; apply map_ext; intros row; cbn;
      now destruct (Card.id row =? n).
  - unfold patch_card. destruct requestBody as [members|v]; [|reflexivity].
    destruct (safeParsePartial members) as [issues|data]; [reflexivity|].
    destruct (card_id id) as [n|]; [|reflexivity].
    destruct (updateCard n data db) as [[[updated|] db']|] eqn:E;
      cbn [snd]; try reflexivity;
      apply RepositoryFacts.updateCard_inv in E;
      destruct E as (userId & -> & _); reflexivity.
  - unfold patch_card, get_card.
    destruct requestBody as [members|v]; [|discriminate].
    destruct (safeParsePartial members) as [issues|data]; [discriminate|].
    destruct (card_id id) as [n|]; [|discriminate].
    destruct (updateCard n data db) as [[[updated|] db']|] eqn:E;
      cbn [fst snd status]; try discriminate.
    intros _. apply RepositoryFacts.updateCard_inv in E.
    destruct E as (userId & -> & Hresult).
    rewrite RepositoryFacts.getCard_find. cbn [cards set_cards].
    rewrite (RepositoryFacts.find_row_updated n n
               (Repository.apply_patch data userId) (cards db)
               (fun _ => eq_refl)).
    now rewrite Z.eqb_refl, <- Hresult.
  - intros members -> Hnone. unfold patch_card.
    destruct (safeParsePartial_nothing members Hnone) as (data & -> & Hno).
    destruct (card_id id) as [n|]; [|reflexivity].
    unfold updateCard. now rewrite Hno.
Qed.

Lemma patch_card_keeps_ids_witness :
  status (fst (patch_card "1"
                 (JsonObject {[ "playerName" := VStr "Leo Messi" ]})
                 Spec.one_card_db)) = 200
  /\ get_card "1"
       (snd (patch_card "1"
               (JsonObject {[ "playerName" := VStr "Leo Messi" ]})
               Spec.one_card_db))
     = fst (patch_card "1"
              (JsonObject {[ "playerName" := VStr "Leo Messi" ]})
              Spec.one_card_db).
Proof.
  assert (H : status (fst (patch_card "1"
                             (JsonObject {[ "playerName" := VStr "Leo Messi" ]})
                             Spec.one_card_db)) = 200)
    by (vm_compute; reflexivity).
  split; [exact H|].
  exact (proj1 (proj2 (proj2 (patch_card_keeps_ids "1"
                                (JsonObject {[ "playerName" := VStr "Leo Messi" ]})
                                Spec.one_card_db))) H).
Defined.

(** *** The price endpoints *)

Lemma analysis_counts (Math_sin : Z -> Q) (s : string)
    (out : PriceService.Console) :
  let analysis := fst (PriceService.scrapeEbayPrices Math_sin s out) in
  PriceService.searchQuery analysis = s
  /\ (5 <= PriceService.totalResults analysis <= 15)%nat
  /\ (5 <= length (PriceService.items analysis) <= 10)%nat.
Proof.
  cbn [PriceService.scrapeEbayPrices fst PriceService.analyse
         PriceService.searchQuery PriceService.totalResults
         PriceService.items].
  destruct (PriceFacts.generate_items_spec Math_sin s) as [Hlen _].
  rewrite length_firstn. repeat split; lia.
Qed.

(** X12. GET /api/prices answers 400 for a missing, empty or non-text
    query and otherwise 200 with the analysis of that query; GET
    /api/cards/:id/price answers 404 for an id that is not stored and
    otherwise 200 with the analysis of the card's search query. Every
    analysis sent reports between 5 and 15 results and lists between 5 and
    10 items. *)
Theorem price_endpoints (Math_sin : Z -> Q) (out : PriceService.Console) :
  (forall query,
      query = Absent \/ query = NotText \/ query = Text "" ->
      get_prices Math_sin query out
      = ({| status := 400; body := Message "Search query is required" |}, out))
  /\ (forall s,
         s <> "" ->
         exists analysis,
           fst (get_prices Math_sin (Text s) out)
           = {| status := 200; body := Analysis analysis |}
           /\ PriceService.searchQuery analysis = s
           /\ (5 <= PriceService.totalResults analysis <= 15)%nat
           /\ (5 <= length (PriceService.items analysis) <= 10)%nat)
  /\ (forall id n db,
         card_id id = Some n ->
         match getCard n db with
         | None =>
             get_card_price Math_sin id db out
             = ({| status := 404; body := Message "Card not found" |}, out)
         | Some card =>
             exists analysis,
               fst (get_card_price Math_sin id db out)
               = {| status := 200; body := Analysis analysis |}
               /\ PriceService.searchQuery analysis = card_search_query card
               /\ (5 <= PriceService.totalResults analysis <= 15)%nat
               /\ (5 <= length (PriceService.items analysis) <= 10)%nat
         end).
Proof.
  split; [|split].
  - intros query [->|[->| ->]]; reflexivity.
  - intros s Hs. unfold get_prices.
    apply String.eqb_neq in Hs. rewrite Hs.
    eexists. split; [reflexivity|].
    apply (analysis_counts Math_sin s out).
  - intros id n db Hid. unfold get_card_price. rewrite Hid.
    destruct (getCard n db) as [card|]; [|reflexivity].
    eexists. split; [reflexivity|].
    apply (analysis_counts Math_sin (card_search_query card) out).
Qed.

Lemma price_endpoints_witness :
  exists analysis,
    fst (get_prices Spec.sample_sine (Text "Messi rookie PSA") [])
    = {| status := 200; body := Analysis analysis |}
    /\ PriceService.searchQuery analysis = "Messi rookie PSA".
Proof.
  assert (Hs : "Messi rookie PSA" <> "") by discriminate.
  destruct (proj1 (proj2 (price_endpoints Spec.sample_sine []))
              "Messi rookie PSA" Hs) as (analysis & Hreply & Hquery & _).
  exists analysis. split; assumption.
Defined.

(** *** The search query of a card *)

Lemma unique_spec (parts seen : list string) :
  NoDup (unique seen parts)
  /\ forall p, In p (unique seen parts) -> In p parts /\ ~ In p seen.
Proof.
  revert seen. induction parts as [|q parts IH]; intros seen; cbn [unique].
  - split; [constructor | intros p []].
  - destruct (existsb (String.eqb q) seen) eqn:E.
    + destruct (IH seen) as [Hnodup Hin]. split; [exact Hnodup|].
      intros p Hp. destruct (Hin p Hp). split; [now right|assumption].
    + destruct (IH (q :: seen)) as [Hnodup Hin].
      assert (Hq : ~ In q seen).
      { intros Hq. assert (existsb (String.eqb q) seen = true); [|congruence].
        apply existsb_exists. exists q. split; [exact Hq|].
        apply String.eqb_refl. }
      split.
      * apply NoDup_cons. split; [|exact Hnodup].
        intros Hq'. apply list_elem_of_In in Hq'.
        destruct (Hin q Hq') as [_ Hnot]. apply Hnot. now left.
      * intros p [<-|Hp]; [split; [now left|exact Hq]|].
        destruct (Hin p Hp) as [Hp1 Hp2]. split; [now right|].
        intros Hseen. apply Hp2. now right.
Qed.

Lemma push_text_candidates (f : string -> string) (text : option string)
    (parts candidates : list string) :
  (forall p, In p parts -> In p candidates) ->
  In (f (default "" text)) candidates ->
  forall p, In p (push_text f text parts) -> In p candidates.
Proof.
  intros Hparts Hnew p. unfold push_text.
  destruct text as [s|]; [|apply Hparts].
  destruct (String.eqb s ""); [apply Hparts|].
  rewrite in_app_iff. intros [Hp|[<-|[]]]; [now apply Hparts|exact Hnew].
Qed.

(** X13. The search query built for a card is the space-separated list of
    some of its player name, card set, "#" and card number, notes, year
    and brand: each part is one of these and is not empty, and no part
    occurs twice (a text that two fields share is searched for once). *)
Theorem card_search_query_parts (card : Card.t) :
  exists parts,
    card_search_query card = join " " parts
    /\ NoDup parts
    /\ forall p, In p parts -> p <> "" /\ In p (query_candidates card).
Proof.
  unfold card_search_query. eexists. split; [reflexivity|].
  match goal with
  | |- context [unique [] ?l] => destruct (unique_spec l []) as [Hnodup Hin]
  end.
  split; [exact Hnodup|].
  intros p Hp. destruct (Hin p Hp) as [Hfiltered _].
  apply filter_In in Hfiltered. destruct Hfiltered as [Hpart Hne].
  split.
  - intros ->. discriminate Hne.
  - clear Hp Hne Hin. revert p Hpart.
    apply push_text_candidates; [|cbn; tauto].
    intros p Hp.
    assert (Hyear : In p
              (push_text id (Card.notes card)
                 (push_text (fun n => "#" ++ n) (Card.cardNumber card)
                    (push_text id (Card.cardSet card)
                       (push_text id (Some (Card.playerName card)) []))))
            \/ p = show_int (Card.year card)).
    { destruct (Card.year card =? 0); [now left|].
      apply in_app_iff in Hp. destruct Hp as [Hp|[<-|[]]]; [now left|now right]. }
    destruct Hyear as [Hp' | ->]; [|cbn; tauto].
    clear Hp. revert p Hp'.
    repeat (apply push_text_candidates; [|cbn; tauto]).
    intros p [].
Qed.

End CardRouteFacts.

(* ===================================================================== *)
(** * Further properties of the import pipeline                           *)
(* ===================================================================== *)

Module ImportMoreFacts.
Import JS Schema Storage Routes Query.

(** *** What the import stores *)

Lemma import_records_append (cardRecords : list Row) (db : Db) :
  let results := fst (import_records cardRecords db) in
  let db' := snd (import_records cardRecords db) in
  cards db' = (cards db ++ imported results)%list
  /\ users db' = users db
  /\ cards_id_seq db + Z.of_nat (length (imported results))
     <= cards_id_seq db'
     <= cards_id_seq db + Z.of_nat (length results)
  /\ (well_keyed db -> well_keyed db').
Proof.
  revert db. induction cardRecords as [|record rest IH]; intros db;
    cbn [import_records].
  - cbn [fst snd imported flat_map length]. rewrite app_nil_r.
    split; [reflexivity|]. split; [reflexivity|]. split; [cbn; lia|]. tauto.
  - unfold import_record.
    destruct (safeParse record) as [issues|data].
    + specialize (IH db). destruct (import_records rest db) as [rs db2].
      cbn [fst snd imported flat_map app length] in *.
      destruct IH as (IHc & IHu & IHs & IHk).
      split; [exact IHc|]. split; [exact IHu|]. split; [lia | exact IHk].
    + destruct (createCard data db) as [[card|] db1] eqn:Hcreate.
      * destruct (RepositoryFacts.createCard_appends data db db1 card Hcreate)
          as (Hcards & Husers & Hseq & _).
        specialize (IH db1). destruct (import_records rest db1) as [rs db2].
        cbn [fst snd imported flat_map app length] in *.
        destruct IH as (IHc & IHu & IHs & IHk).
        split; [|split; [|split]].
        -- rewrite IHc, Hcards, <- app_assoc. reflexivity.
        -- congruence.
        -- rewrite Hseq in IHs. lia.
        -- intros Hkeys. apply IHk.
           exact (RepositoryFacts.createCard_well_keyed data db db1
                    (Some card) Hkeys Hcreate).
      * pose proof (RepositoryFacts.createCard_well_keyed data db db1 None)
          as Hwk.
        destruct (RepositoryFacts.createCard_throws data db db1 Hcreate)
          as [->| ->];
          [specialize (IH db) | specialize (IH (advance db))];
          destruct (import_records rest _) as [rs db2];
          cbn [fst snd imported flat_map app length advance cards users
                 cards_id_seq] in *;
          destruct IH as (IHc & IHu & IHs & IHk);
          (split; [exact IHc|]); (split; [exact IHu|]);
          (split; [lia|]); intros Hkeys; apply IHk;
          now apply Hwk.
Qed.

Lemma imported_count (results : list ImportResult) :
  length (imported results) = length (List.filter success results).
Proof.
  unfold imported.
  induction results as [|[card|error data] results IH];
    cbn [flat_map List.filter success app length]; [reflexivity| |];
    now rewrite ?IH.
Qed.

(** X14. Whatever POST /api/import answers, it only appends to the stored
    cards and changes no user: the cards added are those of the successful
    outcomes, in order, as many as the message counts as imported. The id
    sequence moves on by at least the number of cards added and at most
    the number of outcomes (an insert that fails may use up an id). An
    answer without outcomes changes nothing; and distinct ids below the
    sequence stay so. *)
Theorem import_only_appends
    (parse_column_map : string -> ColumnMap)
    (csvParse XLSX_read : string -> option (list Row))
    (req : ImportRequest) (db : Db) :
  let response := fst (post_import parse_column_map csvParse XLSX_read req db) in
  let db' := snd (post_import parse_column_map csvParse XLSX_read req db) in
  exists added,
    cards db' = (cards db ++ added)%list
    /\ users db' = users db
    /\ match response with
       | ImportDone _ results =>
           added = imported results
           /\ length added = length (List.filter success results)
           /\ cards_id_seq db + Z.of_nat (length added)
              <= cards_id_seq db'
              <= cards_id_seq db + Z.of_nat (length results)
       | _ => added = [] /\ db' = db
       end
    /\ (well_keyed db -> well_keyed db').
Proof.
  unfold post_import.
  assert (Hsame : forall (r : ImportResponse),
             match r with ImportDone _ _ => False | _ => True end ->
             exists added,
               cards db = (cards db ++ added)%list
               /\ users db = users db
               /\ match r with
                  | ImportDone _ results =>
                      added = imported results
                      /\ length added = length (List.filter success results)
                      /\ cards_id_seq db + Z.of_nat (length added)
                         <= cards_id_seq db
                         <= cards_id_seq db + Z.of_nat (length results)
                  | _ => added = [] /\ db = db
                  end
               /\ (well_keyed db -> well_keyed db)).
  { intros r Hr. exists []. rewrite app_nil_r.
    split; [reflexivity|]. split; [reflexivity|].
    split; [|tauto].
    destruct r; [now split | destruct Hr | now split]. }
  destruct (file req) as [upload|]; [|now apply Hsame].
  destruct (parse_column_map (columnMap req)) as [| |entries] eqn:Hmap;
    [now apply Hsame | |].
  - destruct (if String.eqb (mimetype upload) "text/csv"
              then csvParse (buffer upload) else XLSX_read (buffer upload))
      as [records|]; [|now apply Hsame].
    destruct records as [|record records]; cbn [map_records];
      [|now apply Hsame].
    cbn [import_records fst snd]. exists []. rewrite app_nil_r.
    split; [reflexivity|]. split; [reflexivity|].
    split; [|tauto]. split; [reflexivity|]. split; [reflexivity|].
    cbn. lia.
  - destruct (if String.eqb (mimetype upload) "text/csv"
              then csvParse (buffer upload) else XLSX_read (buffer upload))
      as [records|]; [|now apply Hsame].
    cbn [map_records].
    pose proof (import_records_append (map (map_record entries) records) db)
      as Happ.
    destruct (import_records (map (map_record entries) records) db)
      as [results db'].
    cbn [fst snd] in *. destruct Happ as (Hc & Hu & Hs & Hk).
    exists (imported results).
    split; [exact Hc|]. split; [exact Hu|].
    split; [|exact Hk]. split; [reflexivity|].
    split; [apply imported_count | exact Hs].
Qed.

Lemma import_only_appends_witness :
  well_keyed Spec.empty_db
  /\ well_keyed
       (snd (post_import (fun _ => Entries Spec.full_mapping)
               (fun _ => Some [Spec.messi_row; Spec.messi_row])
               (fun _ => None) Spec.csv_upload Spec.empty_db)).
Proof.
  assert (Hkeys : well_keyed Spec.empty_db) by (split; cbn; constructor).
  split; [exact Hkeys|].
  destruct (import_only_appends (fun _ => Entries Spec.full_mapping)
              (fun _ => Some [Spec.messi_row; Spec.messi_row])
              (fun _ => None) Spec.csv_upload Spec.empty_db)
    as (added & _ & _ & _ & Hinv).
  exact (Hinv Hkeys).
Defined.

(** *** Required fields *)

Lemma convert_absent (key other : string) (f : value -> number)
    (mappedRecord : Row) :
  mappedRecord !! other = None -> convert key f mappedRecord !! other = None.
Proof.
  intros Habsent. unfold convert.
  destruct (String.eqb_spec key other) as [->|Hne].
  - unfold get. rewrite Habsent. cbn. exact Habsent.
  - destruct (truthy _); [|exact Habsent].
    now rewrite lookup_insert_ne.
Qed.

Lemma map_record_absent (mappedColumns : list (string * value))
    (record : Row) (key : string) :
  (forall fileField,
      In (key, fileField) mappedColumns ->
      fileField = VStr "none"
      \/ get record (ToString fileField) = VUndefined) ->
  map_record mappedColumns record !! key = None.
Proof.
  intros Hunmapped. unfold map_record.
  do 3 apply convert_absent.
  rewrite (ImportFacts.copy_fields_unmapped record key mappedColumns ∅
             Hunmapped).
  apply lookup_empty.
Qed.

Lemma safeParse_requires (input : Row) (key : string) :
  In key required_fields ->
  input !! key = None ->
  exists issues,
    safeParse input = inl issues
    /\ In {| message := "Required"; path := key |} issues.
Proof.
  intros Hkey Habsent.
  assert (Hget : get input key = VUndefined)
    by (unfold get; now rewrite Habsent).
  unfold safeParse. cbn in Hkey.
  destruct Hkey as [<-|[<-|[<-|[<-|[<-|[]]]]]]; rewrite Hget;
    cbn [z_string z_int32 z_number invalid_type];
    repeat match goal with
           | |- context [match ?x with inl _ => _ | inr _ => _ end] =>
               destruct x
           end;
    (eexists; split; [reflexivity|]);
    cbn [issues_of]; rewrite !in_app_iff; cbn [In]; tauto.
Qed.

(** X15. A row is rejected whenever the column mapping gives one of the
    required fields (player name, sport, year, brand, condition) "none" or
    a column the row does not have: the candidate lacks the field,
    validation reports it as required, the outcome is a failure that keeps
    the candidate, and nothing is stored. *)
Theorem unmapped_required_field_rejects (key : string)
    (mappedColumns : list (string * value)) (record : Row) (db : Db) :
  In key required_fields ->
  (forall fileField,
      In (key, fileField) mappedColumns ->
      fileField = VStr "none"
      \/ get record (ToString fileField) = VUndefined) ->
  let candidate := map_record mappedColumns record in
  candidate !! key = None
  /\ (exists issues,
         safeParse candidate = inl issues
         /\ In {| message := "Required"; path := key |} issues)
  /\ (exists error, import_record candidate db = (Failed error candidate, db)).
Proof.
  intros Hkey Hunmapped candidate.
  pose proof (map_record_absent mappedColumns record key Hunmapped) as Habsent.
  fold candidate in Habsent.
  destruct (safeParse_requires candidate key Hkey Habsent)
    as (issues & Hp & Hin).
  split; [exact Habsent|]. split; [now exists issues|].
  unfold import_record. rewrite Hp. eexists. reflexivity.
Qed.

Lemma unmapped_required_field_rejects_witness :
  map_record [("sport", VStr "Sport"); ("year", VStr "Year");
              ("brand", VStr "Make"); ("condition", VStr "Grade")]
    Spec.messi_row !! "playerName" = None
  /\ exists error,
      import_record
        (map_record [("sport", VStr "Sport"); ("year", VStr "Year");
                     ("brand", VStr "Make"); ("condition", VStr "Grade")]
           Spec.messi_row) Spec.empty_db
      = (Failed error
           (map_record [("sport", VStr "Sport"); ("year", VStr "Year");
                        ("brand", VStr "Make"); ("condition", VStr "Grade")]
              Spec.messi_row), Spec.empty_db).
Proof.
  assert (Hkey : In "playerName" required_fields) by (cbn; tauto).
  assert (H : forall fileField,
             In ("playerName", fileField)
               [("sport", VStr "Sport"); ("year", VStr "Year");
                ("brand", VStr "Make"); ("condition", VStr "Grade")] ->
             fileField = VStr "none"
             \/ get Spec.messi_row (ToString fileField) = VUndefined).
  { intros f Hf. cbn in Hf.
    repeat (destruct Hf as [Hf|Hf]; [discriminate Hf|]). destruct Hf. }
  destruct (unmapped_required_field_rejects "playerName" _ Spec.messi_row
              Spec.empty_db Hkey H) as (Ha & _ & Hr).
  split; assumption.
Defined.

(** *** Where the candidate's fields come from *)

Lemma copy_fields_origin (record : Row) (key : string) (v : value)
    (mappedColumns : list (string * value)) (mappedRecord : Row) :
  fold_left (copy_field record) mappedColumns mappedRecord !! key = Some v ->
  mappedRecord !! key = Some v
  \/ exists fileField,
       In (key, fileField) mappedColumns
       /\ fileField <> VStr "none"
       /\ v = get record (ToString fileField)
       /\ v <> VUndefined.
Proof.
  revert mappedRecord.
  induction mappedColumns as [|[cardField fileField] rest IH];
    intros mappedRecord; cbn [fold_left]; [now left|].
  intros H. destruct (IH _ H) as [Hhere|(f & Hin & Hf)].
  - unfold copy_field in Hhere.
    destruct (truthy fileField) eqn:Ht; cbn [andb] in Hhere; [|now left].
    destruct (match fileField with VStr s => String.eqb s "none" | _ => false end)
      eqn:Hnone; cbn [negb andb] in Hhere; [now left|].
    destruct (get record (ToString fileField)) as [| | | | |] eqn:Hcell;
      cbn [negb] in Hhere; try (now left);
      (destruct (String.eqb_spec cardField key) as [->|Hne];
       [ rewrite lookup_insert_eq in Hhere; injection Hhere as <-;
         right; exists fileField;
         (split; [now left|]); (split; [intros ->; discriminate Hnone|]);
         (split; [now rewrite Hcell | discriminate])
       | rewrite lookup_insert_ne in Hhere by exact Hne; now left ]).
  - right. exists f. split; [now right | exact Hf].
Qed.

Lemma convert_present (key other : string) (f : value -> number)
    (mappedRecord : Row) :
  convert key f mappedRecord !! other <> None -> mappedRecord !! other <> None.
Proof.
  unfold convert. destruct (truthy (get mappedRecord key)) eqn:Ht; [|tauto].
  destruct (String.eqb_spec key other) as [->|Hne].
  - intros _ Hnone. unfold get in Ht. rewrite Hnone in Ht. discriminate Ht.
  - now rewrite lookup_insert_ne.
Qed.

(** X16. A candidate record holds a field only if the mapping names, for
    that field, a column other than "none" that the row has; and every
    field other than year, purchase price and current value holds the
    row's cell of such a column unchanged. Columns that are not mapped
    never reach the candidate. *)
Theorem candidate_fields_come_from_mapping
    (mappedColumns : list (string * value)) (record : Row) (key : string) :
  (map_record mappedColumns record !! key <> None ->
   exists fileField,
     In (key, fileField) mappedColumns
     /\ fileField <> VStr "none"
     /\ get record (ToString fileField) <> VUndefined)
  /\ (forall v,
         ~ In key converted_fields ->
         map_record mappedColumns record !! key = Some v ->
         exists fileField,
           In (key, fileField) mappedColumns
           /\ v = get record (ToString fileField)).
Proof.
  unfold map_record. split.
  - intros H. do 3 apply convert_present in H.
    destruct (fold_left (copy_field record) mappedColumns ∅ !! key)
      as [v|] eqn:Hv; [|congruence].
    destruct (copy_fields_origin record key v mappedColumns ∅ Hv)
      as [Hempty|(f & Hin & Hnone & -> & Hdef)].
    + rewrite lookup_empty in Hempty. discriminate Hempty.
    + now exists f.
  - intros v Hkey H.
    rewrite !ImportFacts.convert_other in H
      by (intros E; apply Hkey; rewrite <- E; cbn; tauto).
    destruct (copy_fields_origin record key v mappedColumns ∅ H)
      as [Hempty|(f & Hin & _ & -> & _)].
    + rewrite lookup_empty in Hempty. discriminate Hempty.
    + now exists f.
Qed.

Lemma candidate_fields_come_from_mapping_witness :
  exists fileField,
    In ("brand", fileField) Spec.full_mapping
    /\ VStr "Topps" = get Spec.messi_row (ToString fileField).
Proof.
  assert (Hkey : ~ In "brand" converted_fields).
  { cbn. intros [H|[H|[H|[]]]]; discriminate H. }
  assert (Hv : map_record Spec.full_mapping Spec.messi_row !! "brand"
               = Some (VStr "Topps")) by (vm_compute; reflexivity).
  exact (proj2 (candidate_fields_come_from_mapping Spec.full_mapping
                  Spec.messi_row "brand") (VStr "Topps") Hkey Hv).
Defined.

End ImportMoreFacts.

(** ** The price estimator: bounds *)

Module PriceMoreFacts.
Import JS PriceService.

(** The keyword bonuses add up to at most 235 over the starting 5. *)
Lemma keyword_base_price_bounds (searchQuery : string) :
  5 <= keyword_base_price searchQuery <= 240.
Proof.
  unfold keyword_base_price. cbv zeta.
  repeat match goal with
         | |- context [if ?b then _ else _] => destruct b
         end; lia.
Qed.

Lemma cents (m : Z) : (m # 100 == inject_Z m * (1 # 100))%Q.
Proof. rewrite Qmake_Qdiv. reflexivity. Qed.

(** Division by 100 as a multiplication, for linear arithmetic. *)
Ltac hundredths :=
  unfold Qdiv in *; change (/ 100)%Q with (1 # 100)%Q in *.

(** Rounding to cents keeps a non-negative amount between whole-cent
    bounds. *)
Lemma toFixed2_between (x : Q) (m M : Z) :
  (0 <= x)%Q -> (m # 100 <= x)%Q -> (x <= M # 100)%Q ->
  (m # 100 <= toFixed2 x <= M # 100)%Q.
Proof.
  intros H0 Hlo Hhi. unfold toFixed2.
  apply Qle_bool_iff in H0. rewrite H0. rewrite Qred_correct.
  unfold round_half_up. rewrite (cents m) in Hlo. rewrite (cents M) in Hhi.
  set (y := (x * 100 + (1 # 2))%Q).
  assert (Hm : m <= Qfloor y).
  { rewrite <- (Qfloor_Z m). apply Qfloor_resp_le. subst y. lra. }
  assert (HM : Qfloor y <= M).
  { pose proof (Qfloor_le y) as Hf.
    assert (Hlt : (inject_Z (Qfloor y) < inject_Z (M + 1))%Q).
    { rewrite inject_Z_plus. change (inject_Z 1) with 1%Q. subst y. lra. }
    rewrite <- Zlt_Qlt in Hlt. lia. }
  unfold Qle. cbn [Qnum Qden]. lia.
Qed.

(** A non-negative amount changed by a percentage between [lo] and [hi]. *)
Lemma percent_change (b : Q) (v lo hi : Z) :
  (0 <= b)%Q -> lo <= v <= hi ->
  (b * (1 + inject_Z lo / 100) <= b * (1 + inject_Z v / 100)
   <= b * (1 + inject_Z hi / 100))%Q.
Proof.
  intros Hb [Hlo Hhi].
  rewrite Zle_Qle in Hlo, Hhi.
  rewrite !(Qmult_comm b).
  split; apply Qmult_le_compat_r; try exact Hb; hundredths; lra.
Qed.

(** One call of [random]: name its value, keep its bounds. *)
Ltac pick v Hv :=
  match goal with
  | |- context [random ?M ?a ?b ?s] =>
      let s' := fresh "seed" in
      let E := fresh "E" in
      destruct (random M a b s) as [v s'] eqn:E;
      apply PriceFacts.random_spec in E; destruct E as [-> Hv];
      specialize (Hv ltac:(vm_compute; discriminate));
      cbv beta iota
  end.

Section Bounds.

Variable Math_sin : Z -> Q.

(** The perturbed base price stays within 20% of a keyword base [kb], and
    an item's price within 40% of that, to the cent. *)
Lemma generate_item_price (searchQuery : string) (kb k seed : Z) :
  0 <= kb -> -20 <= k <= 20 ->
  let basePrice := (inject_Z kb * (1 + inject_Z k / 100))%Q in
  let item := fst (generate_item Math_sin searchQuery basePrice seed) in
  ((48 * kb) # 100 <= price item <= (168 * kb) # 100)%Q.
Proof.
  intros Hkb Hk basePrice item.
  assert (Hkb' : (0 <= inject_Z kb)%Q)
    by (change 0%Q with (inject_Z 0); now rewrite <- Zle_Qle).
  destruct (percent_change (inject_Z kb) k (-20) 20 Hkb' Hk) as [Hb1 Hb2].
  fold basePrice in Hb1, Hb2.
  change (inject_Z (-20)) with (-20 # 1)%Q in Hb1.
  change (inject_Z 20) with (20 # 1)%Q in Hb2.
  assert (Hbase : (0 <= basePrice)%Q) by (hundredths; lra).
  subst item. cbv [generate_item bind ret].
  pick v Hv. pick ci Hci. pick coin Hcoin.
  assert (Hraw : ((48 * kb) # 100
                  <= basePrice + basePrice * (inject_Z v / 100)
                  <= (168 * kb) # 100)%Q).
  { destruct (percent_change basePrice v (-40) 40 Hbase Hv) as [Hp1 Hp2].
    change (inject_Z (-40)) with (-40 # 1)%Q in Hp1.
    change (inject_Z 40) with (40 # 1)%Q in Hp2.
    rewrite (cents (48 * kb)), (cents (168 * kb)), !inject_Z_mult.
    change (inject_Z 48) with (48 # 1)%Q.
    change (inject_Z 168) with (168 # 1)%Q.
    set (raw := (basePrice + basePrice * (inject_Z v / 100))%Q).
    assert (Hraw : (raw == basePrice * (1 + inject_Z v / 100))%Q)
      by (subst raw; ring).
    rewrite Hraw.
    hundredths.
    assert (H1 : (basePrice * (60 # 100)
                  <= basePrice * (1 + inject_Z v * (1 # 100)))%Q) by lra.
    assert (H2 : (basePrice * (1 + inject_Z v * (1 # 100))
                  <= basePrice * (140 # 100))%Q) by lra.
    split; lra. }
  assert (Hnonneg : (0 <= basePrice + basePrice * (inject_Z v / 100))%Q).
  { destruct Hraw as [Hlo _]. rewrite (cents (48 * kb)), inject_Z_mult in Hlo.
    change (inject_Z 48) with (48 # 1)%Q in Hlo. lra. }
  destruct (coin =? 1).
  - pick ei Hei. pick di Hdi. pick l Hl. pick im Him. cbn [fst price].
    now apply toFixed2_between.
  - pick di Hdi. pick l Hl. pick im Him. cbn [fst price].
    now apply toFixed2_between.
Qed.

Lemma generate_loop_prices (searchQuery : string) (kb k : Z) (n : nat)
    (seed : Z) :
  0 <= kb -> -20 <= k <= 20 ->
  Forall (fun item =>
            ((48 * kb) # 100 <= price item <= (168 * kb) # 100)%Q)
    (fst (generate_loop Math_sin searchQuery
            (inject_Z kb * (1 + inject_Z k / 100))%Q n seed)).
Proof.
  intros Hkb Hk. revert seed.
  induction n as [|n IH]; intros seed; cbn [generate_loop].
  - constructor.
  - unfold bind, ret.
    pose proof (generate_item_price searchQuery kb k seed Hkb Hk) as Hitem.
    cbv zeta in Hitem.
    destruct (generate_item Math_sin searchQuery _ seed) as [item seed1].
    specialize (IH seed1).
    destruct (generate_loop Math_sin searchQuery _ n seed1) as [rest seed2].
    cbn [fst] in *. now constructor.
Qed.

Lemma generate_items_prices (searchQuery : string) :
  Forall (fun item =>
            ((48 * keyword_base_price searchQuery) # 100
             <= price item
             <= (168 * keyword_base_price searchQuery) # 100)%Q)
    (generate_items Math_sin searchQuery).
Proof.
  pose proof (keyword_base_price_bounds searchQuery) as Hkb.
  unfold generate_items, bind.
  pick k Hk. pick itemCount Hcount.
  apply generate_loop_prices; lia.
Qed.

End Bounds.

(** The mean of a non-empty list lies between any bounds of its members. *)
Lemma average_between (prices : list Q) (lo hi : Q) :
  prices <> [] ->
  (forall p, In p prices -> (lo <= p <= hi)%Q) ->
  exists avg, average prices = Num avg /\ (lo <= avg <= hi)%Q.
Proof.
  intros Hne Hall.
  assert (Hsum : (inject_Z (len prices) * lo <= fold_right Qplus 0 prices
                  <= inject_Z (len prices) * hi)%Q).
  { clear Hne. unfold len.
    induction prices as [|p rest IH]; cbn [fold_right length].
    - change (inject_Z (Z.of_nat 0)) with 0%Q. lra.
    - rewrite Nat2Z.inj_succ. unfold Z.succ. rewrite inject_Z_plus.
      change (inject_Z 1) with 1%Q.
      destruct (Hall p (or_introl eq_refl)) as [Hp1 Hp2].
      destruct IH as [IH1 IH2]; [intros q Hq; apply Hall; now right|].
      split; lra. }
  assert (Hlen : (0 < inject_Z (len prices))%Q).
  { change 0%Q with (inject_Z 0). rewrite <- Zlt_Qlt. unfold len.
    destruct prices; [congruence | cbn [length]; lia]. }
  exists (sum_prices prices / inject_Z (len prices))%Q. split.
  - unfold average. destruct prices; [congruence | reflexivity].
  - rewrite PriceFacts.sum_prices_fold_right. split.
    + apply Qle_shift_div_l; [exact Hlen|]. rewrite Qmult_comm. apply Hsum.
    + apply Qle_shift_div_r; [exact Hlen|]. rewrite Qmult_comm. apply Hsum.
Qed.


End PriceMoreFacts.

(** ** The recognizer: media types, answers wrapped in prose, outcomes *)

Module RecognitionMoreFacts.
Import JS Schema ImageRecognition Media.

(** X18. The media type sent to the vision model is always one of the four
    image types the upload filter lets through, and for an upload that
    passed the filter it is the upload's own type. *)
Theorem media_type_of_accepted_upload (contentType : string) :
  In (getValidMediaType contentType) image_types
  /\ (image_allowed contentType = true ->
      getValidMediaType contentType = contentType).
Proof.
  split.
  - unfold getValidMediaType. cbv zeta.
    repeat match goal with
           | |- context [if ?b then _ else _] => destruct b
           end; cbn; tauto.
  - unfold image_allowed, image_types. cbn [existsb].
    rewrite !orb_true_iff.
    intros [H|[H|[H|[H|H]]]]; try discriminate H;
      apply String.eqb_eq in H; subst contentType; reflexivity.
Qed.

Lemma media_type_of_accepted_upload_witness :
  getValidMediaType "image/webp" = "image/webp".
Proof.
  apply (proj2 (media_type_of_accepted_upload "image/webp")). reflexivity.
Defined.

Lemma append_cons (c : ascii) (s t : string) :
  (String c s ++ t)%string = String c (s ++ t).
Proof. reflexivity. Qed.

Lemma append_assoc (s t u : string) :
  ((s ++ t) ++ u)%string = (s ++ (t ++ u))%string.
Proof.
  induction s as [|c s IH]; [reflexivity|].
  rewrite !append_cons. now rewrite IH.
Qed.

Lemma from_first_brace_app (pre rest : string) :
  lacks "{" pre = true ->
  from_first_brace (pre ++ String "{" rest) = Some rest.
Proof.
  induction pre as [|c pre IH]; intros Hpre.
  - reflexivity.
  - rewrite append_cons. cbn [lacks] in Hpre.
    apply andb_true_iff in Hpre. destruct Hpre as [Hc Hpre].
    cbn [from_first_brace].
    apply negb_true_iff in Hc. rewrite Hc. now apply IH.
Qed.

Lemma upto_last_brace_none (post : string) :
  lacks "}" post = true -> upto_last_brace post = None.
Proof.
  induction post as [|c post IH]; intros Hpost; [reflexivity|].
  cbn [lacks] in Hpost. apply andb_true_iff in Hpost.
  destruct Hpost as [Hc Hpost]. apply negb_true_iff in Hc.
  cbn [upto_last_brace]. now rewrite (IH Hpost), Hc.
Qed.

Lemma upto_last_brace_app (mid post : string) :
  lacks "}" post = true ->
  upto_last_brace (mid ++ String "}" post) = Some (mid ++ "}")%string.
Proof.
  intros Hpost. induction mid as [|c mid IH].
  - change (("" ++ String "}" post)%string) with (String "}" post).
    cbn [upto_last_brace]. now rewrite (upto_last_brace_none post Hpost).
  - rewrite !append_cons. cbn [upto_last_brace]. now rewrite IH.
Qed.

Lemma from_first_brace_inv (s rest : string) :
  from_first_brace s = Some rest ->
  exists pre, s = (pre ++ String "{" rest)%string /\ lacks "{" pre = true.
Proof.
  induction s as [|c s IH]; cbn [from_first_brace]; [discriminate|].
  destruct (Ascii.eqb c "{") eqn:Hc.
  - intros H. injection H as <-. apply Ascii.eqb_eq in Hc. subst c.
    exists ""%string. split; reflexivity.
  - intros H. destruct (IH H) as (pre & -> & Hpre).
    exists (String c pre). split; [reflexivity|].
    cbn [lacks]. now rewrite Hc, Hpre.
Qed.

Lemma upto_last_brace_inv (s block : string) :
  upto_last_brace s = Some block ->
  exists mid post,
    s = (mid ++ String "}" post)%string
    /\ block = (mid ++ "}")%string /\ lacks "}" post = true.
Proof.
  revert block. induction s as [|c s IH]; intros block;
    cbn [upto_last_brace]; [discriminate|].
  destruct (upto_last_brace s) as [r|] eqn:Hr.
  - intros H. injection H as <-.
    destruct (IH r eq_refl) as (mid & post & -> & -> & Hpost).
    exists (String c mid), post. repeat split; assumption.
  - destruct (Ascii.eqb c "}") eqn:Hc; [|discriminate].
    intros H. injection H as <-. apply Ascii.eqb_eq in Hc. subst c.
    exists ""%string, s. repeat split.
    clear IH. induction s as [|d s IHs]; [reflexivity|].
    cbn [upto_last_brace] in Hr.
    destruct (upto_last_brace s); [discriminate|].
    destruct (Ascii.eqb d "}") eqn:Hd; [discriminate|].
    cbn [lacks]. rewrite Hd. now apply IHs.
Qed.

Section Answers.

Variable JSON_parse : string -> string + CardData.

(** X19. The pattern that rescues an answer wrapped in prose takes the text
    from its first opening brace to its last closing brace; it finds
    nothing exactly when no closing brace follows an opening one. So when
    the whole answer is not JSON but that block is, the card data are
    those of the block, and when there is no such block the recognizer
    fails without a card. *)
Theorem answer_wrapped_in_prose (pre mid post : string)
    (base64Image contentType : string) (currentYear : Z) :
  lacks "{" pre = true -> lacks "}" post = true ->
  let block := (String "{" mid ++ "}")%string in
  let textContent := (pre ++ block ++ post)%string in
  match_json_block textContent = Some block
  /\ (forall message cardData,
         JSON_parse textContent = inl message ->
         JSON_parse block = inr cardData ->
         extract_card_data JSON_parse [TextBlock textContent] = inr cardData)
  /\ (forall text message,
         match_json_block text = None ->
         JSON_parse text = inl message ->
         base64Image <> "" ->
         identifyCardFromImage JSON_parse base64Image contentType
           (ApiReturns [TextBlock text]) currentYear
         = {| success := false; card := None;
              error := Some "Error identifying card: Could not parse JSON from response" |})
  /\ (forall text,
         match_json_block text = None <->
         forall a b c, text <> (a ++ String "{" b ++ String "}" c)%string).
Proof.
  intros Hpre Hpost block textContent.
  assert (Hmatch : match_json_block textContent = Some block).
  { subst textContent. unfold match_json_block.
    replace (block ++ post)%string
      with (String "{" (mid ++ String "}" post))
      by (subst block; rewrite append_assoc; reflexivity).
    rewrite (from_first_brace_app pre _ Hpre).
    now rewrite (upto_last_brace_app mid post Hpost). }
  split; [exact Hmatch|]. split; [|split].
  - intros message cardData Hwhole Hblock.
    cbn [extract_card_data]. now rewrite Hwhole, Hmatch, Hblock.
  - intros text message Hnone Hwhole Himage.
    unfold identifyCardFromImage. apply String.eqb_neq in Himage.
    rewrite Himage. cbn [extract_card_data]. rewrite Hwhole, Hnone.
    reflexivity.
  - intros text. unfold match_json_block. split.
    + intros Hnone a b c ->.
      destruct (from_first_brace (a ++ String "{" b ++ String "}" c))
        as [rest|] eqn:Hfirst.
      * destruct (from_first_brace_inv _ _ Hfirst) as (p & Heq & Hp).
        destruct (upto_last_brace rest) as [r|] eqn:Hlast; [discriminate|].
        clear Hnone Hfirst.
        assert (Hno : forall s, upto_last_brace s = None ->
                       lacks "}" s = true).
        { induction s as [|d s IHs]; [reflexivity|].
          cbn [upto_last_brace].
          destruct (upto_last_brace s); [discriminate|].
          destruct (Ascii.eqb d "}") eqn:Hd; [discriminate|].
          intros _. cbn [lacks]. rewrite Hd. now apply IHs. }
        apply Hno in Hlast.
        assert (Hin : forall x y, lacks "}" (x ++ String "}" y) = false).
        { induction x as [|d x IHx]; intros y; [reflexivity|].
          rewrite append_cons. cbn [lacks]. rewrite IHx.
          apply andb_false_r. }
        assert (Happ : forall x y, lacks "}" (x ++ y) = true ->
                         lacks "}" y = true).
        { induction x as [|d x IHx]; intros y; [tauto|].
          rewrite append_cons. cbn [lacks]. intros H.
          apply andb_true_iff in H. now apply IHx. }
        assert (Hwhole : lacks "}" (String "{" rest) = true)
          by (cbn [lacks]; now rewrite Hlast).
        assert (Hlen : forall x y z w : string,
                   lacks "{" x = true ->
                   (x ++ String "{" y = z ++ String "{" w)%string ->
                   exists t, String "{" y = (t ++ String "{" w)%string).
        { induction x as [|d x IHx]; intros y z w Hx E.
          - exists z. exact E.
          - destruct z as [|e z].
            + rewrite append_cons in E. cbn [lacks] in Hx.
              change (("" ++ String "{" w)%string) with (String "{" w) in E.
              injection E as -> _. discriminate Hx.
            + rewrite !append_cons in E. injection E as _ E.
              cbn [lacks] in Hx. apply andb_true_iff in Hx.
              now apply (IHx y z w). }
        symmetry in Heq.
        destruct (Hlen p rest a (b ++ String "}" c)%string Hp Heq)
          as (t & Ht).
        rewrite Ht in Hwhole. apply Happ in Hwhole.
        change (String "{" (b ++ String "}" c))
          with (String "{" b ++ String "}" c)%string in Hwhole.
        rewrite Hin in Hwhole. discriminate Hwhole.
      * clear Hnone.
        assert (Hin : forall x y, from_first_brace (x ++ String "{" y)
                                  <> None).
        { induction x as [|d x IHx]; intros y; [discriminate|].
          rewrite append_cons. cbn [from_first_brace].
          destruct (Ascii.eqb d "{"); [discriminate | apply IHx]. }
        now apply Hin in Hfirst.
    + intros Hnot.
      destruct (from_first_brace text) as [rest|] eqn:Hfirst;
        [|reflexivity].
      destruct (upto_last_brace rest) as [r|] eqn:Hlast; [|reflexivity].
      destruct (from_first_brace_inv _ _ Hfirst) as (p & -> & _).
      destruct (upto_last_brace_inv _ _ Hlast) as (m & q & -> & _ & _).
      exfalso. now apply (Hnot p m q).
Qed.

End Answers.

(** *** What a recognition can answer *)

Lemma lowered_or_filled (key : string) (v : value) (d : string)
    (r : value) :
  d <> "" -> lowered_or key v d = inr r -> filled r.
Proof.
  intros Hd. unfold lowered_or, or_else.
  destruct v as [| | | |s|]; try discriminate;
    try (intros H; injection H as <-; now exists d).
  cbn [truthy]. destruct (String.eqb_spec (toLowerCase s) "") as [E|E];
    cbn [negb]; intros H; injection H as <-.
  - now exists d.
  - now exists (toLowerCase s).
Qed.

(** Every card the transformation builds has a sport and a condition,
    no price and no image, and a player name that is either empty or
    truthy. *)
Lemma transform_defaults (currentYear : Z) (cardData : CardData)
    (card : RecognizedCard) :
  transform currentYear cardData = inr card ->
  filled (sport card) /\ filled (condition card)
  /\ purchasePrice card = Num 0 /\ imageUrl card = ""
  /\ (truthy (playerName card) = false -> playerName card = VStr "").
Proof.
  unfold transform. destruct (properties cardData) as [e|prop];
    [discriminate|].
  destruct (lowered_or "sport" _ _) as [e|s] eqn:Hs; [discriminate|].
  destruct (lowered_or "condition" _ _) as [e|c] eqn:Hc; [discriminate|].
  intros H. injection H as <-.
  cbn [sport condition purchasePrice imageUrl playerName].
  split; [eapply lowered_or_filled; [|exact Hs]; discriminate|].
  split; [eapply lowered_or_filled; [|exact Hc]; discriminate|].
  split; [reflexivity|]. split; [reflexivity|].
  unfold or_else. destruct (truthy (prop "playerName")) eqn:Ht; congruence.
Qed.

Lemma caught_error (e : value) :
  exists message,
    error (caught e) = Some message
    /\ message <> "" /\ message <> Spec.no_player_name.
Proof.
  unfold caught. cbn [error]. eexists. split; [reflexivity|].
  rewrite append_cons. split; [discriminate|].
  unfold Spec.no_player_name. intros E. injection E as E _. discriminate E.
Qed.

(** X20. The recognition route answers 400 only without an upload. A 422
    always has a non-empty message; it carries a partial card only with
    the missing-name message, and that card has the empty string as player
    name. A 200 always carries a card with a non-empty player name. Every
    card in an answer has a non-empty sport and condition (by default
    "other" and "new"), purchase price 0 and no image address. *)
Theorem recognize_card_outcomes (JSON_parse : string -> string + CardData)
    (image : option (string * string)) (api : ApiOutcome) (currentYear : Z)
    (description : string) :
  let complete (c : RecognizedCard) :=
    filled (sport c) /\ filled (condition c)
    /\ purchasePrice c = Num 0 /\ imageUrl c = "" in
  match Routes.post_recognize_card JSON_parse image api currentYear
          description with
  | Routes.RecognizeBadRequest _ => image = None
  | Routes.Unprocessable message partialData =>
      image <> None /\ message <> ""
      /\ match partialData with
         | None => message <> Spec.no_player_name
         | Some c =>
             message = Spec.no_player_name
             /\ playerName c = VStr "" /\ complete c
         end
  | Routes.Recognized _ card =>
      image <> None
      /\ exists c, card = Some c
                   /\ truthy (playerName c) = true /\ complete c
  end.
Proof.
  intros complete. unfold Routes.post_recognize_card.
  destruct image as [[base64Image mimetype]|]; [|reflexivity].
  unfold identifyCardFromImage.
  assert (Hcaught : forall e,
             match
               (if negb (success (caught e))
                then Routes.Unprocessable
                       match error (caught e) with
                       | Some m => if String.eqb m ""
                                   then "Failed to recognize card from image"
                                   else m
                       | None => "Failed to recognize card from image"
                       end (card (caught e))
                else Routes.Recognized "" None)
             with
             | Routes.Unprocessable message None =>
                 message <> "" /\ message <> Spec.no_player_name
             | _ => False
             end).
  { intros e. destruct (caught_error e) as (m & Hm & Hne & Hnp).
    rewrite Hm. cbn [caught success negb card].
    apply String.eqb_neq in Hne. rewrite Hne.
    apply String.eqb_neq in Hne. now split. }
  destruct (String.eqb base64Image "").
  { cbn. repeat split; discriminate. }
  destruct api as [message|content].
  { specialize (Hcaught message). cbn [caught success negb card error] in *.
    destruct (String.eqb _ ""); (split; [discriminate|]); tauto. }
  destruct (extract_card_data JSON_parse content) as [e|cardData].
  { specialize (Hcaught e). cbn [caught success negb card error] in *.
    destruct (String.eqb _ ""); (split; [discriminate|]); tauto. }
  destruct (transform currentYear cardData) as [e|c] eqn:Htransform.
  { specialize (Hcaught e). cbn [caught success negb card error] in *.
    destruct (String.eqb _ ""); (split; [discriminate|]); tauto. }
  destruct (transform_defaults _ _ _ Htransform)
    as (Hsport & Hcondition & Hprice & Himage & Hname).
  destruct (truthy (playerName c)) eqn:Htruthy;
    cbn [negb success card error].
  - split; [discriminate|].
    destruct (truthy (playerName c) && truthy (sport c)
              && truthy (VNum (year c)) && negb (String.eqb description ""));
      eexists; (split; [reflexivity|]);
      cbn [with_notes playerName sport condition purchasePrice imageUrl];
      unfold complete;
      cbn [with_notes playerName sport condition purchasePrice imageUrl];
      tauto.
  - split; [discriminate|]. split; [discriminate|].
    split; [reflexivity|]. split; [now apply Hname|].
    unfold complete. tauto.
Qed.

Lemma answer_wrapped_in_prose_witness :
  match_json_block "Here is the card: {} as asked." = Some "{}".
Proof.
  assert (Hpre : lacks "{" "Here is the card: " = true) by reflexivity.
  assert (Hpost : lacks "}" " as asked." = true) by reflexivity.
  exact (proj1 (answer_wrapped_in_prose Spec.parse_nameless
                  "Here is the card: " "" " as asked." "aGVsbG8=" "image/png"
                  2026 Hpre Hpost)).
Defined.

End RecognitionMoreFacts.

(** ** Validation *)

Module ValidationFacts.
Import JS Schema Validation.

Lemma z_string_inv (v : value) (s : string) :
  z_string v = inr s -> v = VStr s.
Proof. destruct v; cbn; congruence. Qed.

Lemma z_number_inv (v : value) (n : number) :
  z_number v = inr n -> v = VNum n /\ n <> NaN.
Proof.
  destruct v as [| | |m| |]; cbn; try discriminate.
  destruct m; try discriminate; intros H; injection H as <-;
    split; congruence.
Qed.

Lemma z_int32_inv (v : value) (z : Z) :
  z_int32 v = inr z ->
  exists q, v = VNum (Num q) /\ (q == inject_Z z)%Q
            /\ INT32_MIN <= z <= INT32_MAX.
Proof.
  unfold z_int32. destruct (z_number v) as [e|n] eqn:Hn; [discriminate|].
  apply z_number_inv in Hn. destruct Hn as [-> _].
  destruct n as [q| | |]; cbn [as_integer]; try discriminate.
  destruct (Qeq_bool q (inject_Z (Qfloor q))) eqn:Hq; [|discriminate].
  destruct (Qfloor q <? INT32_MIN) eqn:Hlo; [discriminate|].
  destruct (INT32_MAX <? Qfloor q) eqn:Hhi; [discriminate|].
  intros H. injection H as <-. exists q.
  apply Qeq_bool_iff in Hq. apply Z.ltb_ge in Hlo, Hhi.
  split; [reflexivity|]. split; [exact Hq | lia].
Qed.

Lemma optional_text_inv (v : value) (s : string) :
  optional_default z_string "" v = inr s -> text_or_default v s.
Proof.
  unfold optional_default, text_or_default.
  destruct v; cbn; intros H; try discriminate H; injection H as <-; auto.
Qed.

Lemma issues_of_path {A : Type} (key : string) (r : Parsed A) :
  Forall (fun i => path i = key) (issues_of key r).
Proof. destruct r; cbn; repeat constructor. Qed.

(** X21. Validation against the insert schema is sound. Accepted data
    repeat the input: the four required texts as given (the empty string
    included), the year an integer between -2^31 and 2^31-1 (a negative one
    included), each optional text as given or the empty string when
    absent, a current value as given or 0 when absent, and no price that is
    NaN. A rejection lists at least one issue, each at a key of the
    schema. *)
Theorem validation_is_sound (input : gmap string value) :
  match safeParse input with
  | inr data =>
      get input "playerName" = VStr (InsertCard.playerName data)
      /\ get input "sport" = VStr (InsertCard.sport data)
      /\ get input "brand" = VStr (InsertCard.brand data)
      /\ get input "condition" = VStr (InsertCard.condition data)
      /\ (exists q, get input "year" = VNum (Num q)
                    /\ (q == inject_Z (InsertCard.year data))%Q)
      /\ INT32_MIN <= InsertCard.year data <= INT32_MAX
      /\ text_or_default (get input "cardSet") (InsertCard.cardSet data)
      /\ text_or_default (get input "notes") (InsertCard.notes data)
      /\ text_or_default (get input "imageUrl") (InsertCard.imageUrl data)
      /\ text_or_default (get input "cardNumber")
           (InsertCard.cardNumber data)
      /\ ((get input "currentValue" = VUndefined
           /\ InsertCard.currentValue data = Num 0)
          \/ get input "currentValue" = VNum (InsertCard.currentValue data))
      /\ (get input "purchasePrice" = VUndefined ->
          InsertCard.purchasePrice data = Num 0)
      /\ InsertCard.purchasePrice data <> NaN
      /\ InsertCard.currentValue data <> NaN
  | inl issues =>
      issues <> [] /\ Forall (fun i => In (path i) schema_keys) issues
  end.
Proof.
  unfold safeParse.
  assert (Hkeys : forall A key (r : Parsed A),
             In key schema_keys ->
             Forall (fun i => In (path i) schema_keys) (issues_of key r)).
  { intros A key r Hkey. eapply List.Forall_impl; [|apply issues_of_path].
    intros i ->. exact Hkey. }
  assert (Hall :
    Forall (fun i => In (path i) schema_keys)
      (issues_of "playerName" (z_string (get input "playerName"))
       ++ issues_of "sport" (z_string (get input "sport"))
       ++ issues_of "year" (z_int32 (get input "year"))
       ++ issues_of "brand" (z_string (get input "brand"))
       ++ issues_of "cardSet"
            (optional_default z_string "" (get input "cardSet"))
       ++ issues_of "condition" (z_string (get input "condition"))
       ++ issues_of "purchasePrice"
            (z_coerce_number_default (Num 0) (get input "purchasePrice"))
       ++ issues_of "currentValue"
            (optional_default z_number (Num 0) (get input "currentValue"))
       ++ issues_of "notes"
            (optional_default z_string "" (get input "notes"))
       ++ issues_of "imageUrl"
            (optional_default z_string "" (get input "imageUrl"))
       ++ issues_of "cardNumber"
            (optional_default z_string "" (get input "cardNumber"))
       ++ issues_of "userId"
            (z_number_optional_nullable (get input "userId")))%list).
  { repeat (apply Forall_app; split); apply Hkeys; cbn; tauto. }
  revert Hall.
  destruct (z_string (get input "playerName")) as [e1|playerName] eqn:H1;
    [intros Hall; split; [discriminate | exact Hall]|].
  destruct (z_string (get input "sport")) as [e2|sport] eqn:H2;
    [intros Hall; split; [discriminate | exact Hall]|].
  destruct (z_int32 (get input "year")) as [e3|year] eqn:H3;
    [intros Hall; split; [discriminate | exact Hall]|].
  destruct (z_string (get input "brand")) as [e4|brand] eqn:H4;
    [intros Hall; split; [discriminate | exact Hall]|].
  destruct (optional_default z_string "" (get input "cardSet"))
    as [e5|cardSet] eqn:H5;
    [intros Hall; split; [discriminate | exact Hall]|].
  destruct (z_string (get input "condition")) as [e6|condition] eqn:H6;
    [intros Hall; split; [discriminate | exact Hall]|].
  destruct (z_coerce_number_default (Num 0) (get input "purchasePrice"))
    as [e7|purchasePrice] eqn:H7;
    [intros Hall; split; [discriminate | exact Hall]|].
  destruct (optional_default z_number (Num 0) (get input "currentValue"))
    as [e8|currentValue] eqn:H8;
    [intros Hall; split; [discriminate | exact Hall]|].
  destruct (optional_default z_string "" (get input "notes"))
    as [e9|notes] eqn:H9;
    [intros Hall; split; [discriminate | exact Hall]|].
  destruct (optional_default z_string "" (get input "imageUrl"))
    as [e10|imageUrl] eqn:H10;
    [intros Hall; split; [discriminate | exact Hall]|].
  destruct (optional_default z_string "" (get input "cardNumber"))
    as [e11|cardNumber] eqn:H11;
    [intros Hall; split; [discriminate | exact Hall]|].
  destruct (z_number_optional_nullable (get input "userId"))
    as [e12|userId] eqn:H12;
    [intros Hall; split; [discriminate | exact Hall]|].
  intros _.
  cbn [InsertCard.playerName InsertCard.sport InsertCard.brand
         InsertCard.condition InsertCard.year InsertCard.cardSet
         InsertCard.notes InsertCard.imageUrl InsertCard.cardNumber
         InsertCard.currentValue InsertCard.purchasePrice].
  apply z_string_inv in H1, H2, H4, H6.
  apply optional_text_inv in H5, H9, H10, H11.
  destruct (z_int32_inv _ _ H3) as (q & Hq & Hqz & Hrange).
  split; [exact H1|]. split; [exact H2|]. split; [exact H4|].
  split; [exact H6|]. split; [now exists q|]. split; [exact Hrange|].
  split; [exact H5|]. split; [exact H9|]. split; [exact H10|].
  split; [exact H11|].
  assert (Hcur : (get input "currentValue" = VUndefined
                  /\ currentValue = Num 0)
                 \/ (get input "currentValue" = VNum currentValue
                     /\ currentValue <> NaN)).
  { unfold optional_default in H8.
    destruct (get input "currentValue") as [| | |m| |] eqn:Hv;
      try (cbn in H8; discriminate H8).
    - injection H8 as <-. now left.
    - right. apply z_number_inv in H8. destruct H8 as [E Hne].
      injection E as ->. now split. }
  assert (Hpur : (get input "purchasePrice" = VUndefined ->
                  purchasePrice = Num 0) /\ purchasePrice <> NaN).
  { unfold z_coerce_number_default in H7.
    destruct (get input "purchasePrice") as [| | |m| |] eqn:Hv;
      try (injection H7 as <-; split; [reflexivity | discriminate]);
      (split; [discriminate|]);
      apply z_number_inv in H7; tauto. }
  split; [destruct Hcur as [Hc|[Hc _]]; [now left | now right]|].
  split; [apply Hpur|]. split; [apply Hpur|].
  destruct Hcur as [[_ ->]|[_ Hne]]; [discriminate | exact Hne].
Qed.

Lemma minimal_members (playerName sport brand condition : string)
    (year : Z) :
  let input := minimal playerName sport brand condition year in
  get input "playerName" = VStr playerName
  /\ get input "sport" = VStr sport
  /\ get input "year" = VNum (Num (inject_Z year))
  /\ get input "brand" = VStr brand
  /\ get input "condition" = VStr condition
  /\ forall key,
       ~ In key Query.required_fields -> get input key = VUndefined.
Proof.
  intros input. subst input. unfold minimal, get.
  repeat split;
    try (repeat (rewrite lookup_insert_ne by discriminate);
         now rewrite lookup_insert_eq).
  intros key Hkey. cbn [Query.required_fields In] in Hkey.
  repeat (rewrite lookup_insert_ne by (intros E; apply Hkey; tauto)).
  now rewrite lookup_empty.
Qed.



End ValidationFacts.

(** ** The card grid's pages *)

Module CardGridFacts.
Import CardGrid.

Lemma totalPages_div {A : Type} (cards : list A) :
  totalPages cards = (Z.of_nat (length cards) + 14) / 15.
Proof.
  unfold totalPages, itemsPerPage, Qceiling, Qfloor, Qdiv, Qopp, Qmult, Qinv,
    inject_Z.
  cbn [Qnum Qden Pos.mul].
  set (n := Z.of_nat (length cards)).
  assert (Hn : 0 <= n) by (subst n; lia).
  change (Z.pos (1 * 15)) with 15.
  Z.to_euclidean_division_equations. lia.
Qed.

Lemma firstn_app_skipn {A : Type} (a b : nat) (l : list A) :
  (firstn a l ++ firstn b (skipn a l))%list = firstn (a + b) l.
Proof.
  revert l. induction a as [|a IH]; intros l; [reflexivity|].
  destruct l as [|x l]; cbn [firstn skipn Nat.add app].
  - now rewrite firstn_nil.
  - now rewrite IH.
Qed.

Lemma chunks_firstn {A : Type} (n k : nat) (l : list A) :
  flat_map (fun i => firstn n (skipn (n * i) l)) (seq 0 k)
  = firstn (n * k) l.
Proof.
  induction k as [|k IH].
  - now rewrite Nat.mul_0_r.
  - rewrite seq_S, flat_map_app, IH. cbn [flat_map Nat.add].
    rewrite app_nil_r, firstn_app_skipn. f_equal. lia.
Qed.

(** From the first page on, a page is the next fifteen cards. *)
Lemma slice_from (A : Type) (arr : list A) (start final : Z) :
  0 <= start <= final ->
  slice arr start final
  = firstn (Z.to_nat (final - start)) (skipn (Z.to_nat start) arr).
Proof.
  intros Hse. unfold slice, relative_index.
  destruct (start <? 0) eqn:Hs; [lia|].
  destruct (final <? 0) eqn:Hf; [lia|].
  set (len := Z.of_nat (length arr)).
  destruct (Z.le_gt_cases len start) as [Hout|Hin].
  - rewrite !(skipn_all2 arr) by (subst len; lia).
    now rewrite !firstn_nil.
  - replace (Z.min start len) with start by lia.
    destruct (Z.le_gt_cases final len) as [Hfin|Hfout].
    + f_equal. lia.
    + rewrite !firstn_all2; [reflexivity | |];
        rewrite length_skipn; subst len; lia.
Qed.

Lemma currentItems_chunk {A : Type} (cards : list A) (i : nat) :
  currentItems cards (Z.of_nat (S i))
  = firstn 15 (skipn (15 * i) cards).
Proof.
  unfold currentItems, itemsPerPage. rewrite slice_from by lia.
  f_equal; [lia|]. f_equal. lia.
Qed.

(** X23. The pages 1, ..., [totalPages] of the grid partition the cards:
    put one after the other they are the card list, in its order. Each of
    them shows at least one and at most fifteen cards, every page before
    the last exactly fifteen, and as many as the counter "Showing a-b"
    says. A page past the last one shows nothing, whatever the card
    list. *)
Theorem pages_partition_cards (A : Type) (cards : list A) :
  flat_map (currentItems cards) (page_numbers cards) = cards
  /\ (forall currentPage,
         1 <= currentPage <= totalPages cards ->
         let shown := Z.of_nat (length (currentItems cards currentPage)) in
         1 <= shown <= 15
         /\ (currentPage < totalPages cards -> shown = 15)
         /\ shown = last_shown cards currentPage
                    - first_shown cards currentPage + 1)
  /\ (forall currentPage,
         totalPages cards < currentPage ->
         currentItems cards currentPage = []).
Proof.
  pose proof (totalPages_div cards) as Htotal.
  set (n := Z.of_nat (length cards)) in *.
  assert (Hn : 0 <= n) by (subst n; lia).
  split; [|split].
  - unfold page_numbers. rewrite <- seq_shift, map_map.
    rewrite flat_map_concat_map, map_map, <- flat_map_concat_map.
    erewrite flat_map_ext; [|intros i; apply currentItems_chunk].
    rewrite (chunks_firstn 15). apply firstn_all2.
    rewrite Htotal. subst n.
    zify. Z.to_euclidean_division_equations. lia.
  - intros currentPage Hpage shown. rewrite Htotal in Hpage |- *.
    assert (Hshown : shown = Z.min 15 (n - 15 * (currentPage - 1))).
    { subst shown. destruct (Z.to_nat currentPage) as [|i] eqn:Hi; [lia|].
      replace currentPage with (Z.of_nat (S i)) in * by lia.
      rewrite currentItems_chunk, length_firstn, length_skipn.
      subst n. zify. Z.to_euclidean_division_equations. lia. }
    rewrite Hshown. unfold last_shown, first_shown, itemsPerPage. fold n.
    Z.to_euclidean_division_equations. lia.
  - intros currentPage Hpast.
    destruct (Z.to_nat currentPage) as [|i] eqn:Hi.
    { rewrite Htotal in Hpast.
      Z.to_euclidean_division_equations. lia. }
    replace currentPage with (Z.of_nat (S i)) by lia.
    rewrite currentItems_chunk. rewrite skipn_all2; [apply firstn_nil|].
    rewrite Htotal in Hpast. subst n.
    zify. Z.to_euclidean_division_equations. lia.
Qed.

Lemma pages_partition_cards_witness :
  1 <= 2 <= totalPages (seq 0 20)
  /\ Z.of_nat (length (currentItems (seq 0 20) 2))
     = last_shown (seq 0 20) 2 - first_shown (seq 0 20) 2 + 1.
Proof.
  assert (Hpage : 1 <= 2 <= totalPages (seq 0 20))
    by (vm_compute; split; discriminate).
  split; [exact Hpage|].
  destruct (pages_partition_cards nat (seq 0 20)) as (_ & Hshown & _).
  exact (proj2 (proj2 (Hshown 2 Hpage))).
Defined.

Lemma page_window_few (totalPages currentPage : Z) :
  0 <= totalPages <= 5 ->
  page_window totalPages currentPage
  = map (fun i => 1 + Z.of_nat i) (seq 0 (Z.to_nat totalPages)).
Proof.
  intros Hfew. unfold page_window.
  replace (Z.min 5 totalPages) with totalPages by lia.
  assert (Hcases : totalPages = 0 \/ totalPages = 1 \/ totalPages = 2
                   \/ totalPages = 3 \/ totalPages = 4 \/ totalPages = 5)
    by lia.
  destruct Hcases as [->|[->|[->|[->|[->| ->]]]]]; reflexivity.
Qed.

Lemma page_window_many (totalPages currentPage : Z) :
  5 < totalPages -> 1 <= currentPage <= totalPages ->
  let first :=
    if currentPage <=? 3 then 1
    else if currentPage >=? totalPages - 2 then totalPages - 4
    else currentPage - 2 in
  page_window totalPages currentPage
  = map (fun i => first + Z.of_nat i) (seq 0 5)
  /\ 1 <= first /\ first <= currentPage <= first + 4
  /\ first + 4 <= totalPages
  /\ (currentPage < totalPages - 2 -> first + 4 < totalPages).
Proof.
  intros Hmany Hpage first. unfold page_window.
  replace (Z.min 5 totalPages) with 5 by lia.
  change (Z.to_nat 5) with 5%nat. cbn [seq map].
  unfold pageNum.
  replace (totalPages <=? 5) with false by (symmetry; apply Z.leb_gt; lia).
  subst first.
  destruct (currentPage <=? 3) eqn:H3.
  - apply Z.leb_le in H3. cbn [List.filter Z.of_nat Z.add Pos.of_succ_nat
                                 Pos.succ].
    repeat (rewrite (proj2 (Z.ltb_ge _ _)) by lia; cbn [negb]).
    repeat split; lia.
  - apply Z.leb_gt in H3.
    destruct (currentPage >=? totalPages - 2) eqn:Hend.
    + apply Z.geb_le in Hend. cbn [List.filter].
      repeat (rewrite (proj2 (Z.ltb_ge _ _)) by lia; cbn [negb]).
      repeat split; try lia.
    + rewrite Z.geb_leb in Hend. apply Z.leb_gt in Hend. cbn [List.filter].
      repeat (rewrite (proj2 (Z.ltb_ge _ _)) by lia; cbn [negb]).
      repeat split; try lia.
Qed.

(** X24. While the current page is one of the pages: with a single page no
    page button is drawn; with more, the grid draws a window of
    [min(5, totalPages)] buttons with consecutive numbers and, when there
    are more than five pages and the current one is more than two before
    the last, a button for the last page after it. The numbers drawn
    increase strictly (no page has two buttons), are all pages, and include
    the current page and the last page. A button (a page number, previous
    or next) leads to a page again. *)
Theorem page_buttons_stay_on_pages (totalPages currentPage : Z) :
  1 <= currentPage <= totalPages ->
  (totalPages = 1 -> page_buttons totalPages currentPage = [])
  /\ (1 < totalPages ->
      (exists first,
          page_buttons totalPages currentPage
          = (map (fun i => first + Z.of_nat i)
               (seq 0 (Z.to_nat (Z.min 5 totalPages)))
             ++ (if (5 <? totalPages) && (currentPage <? totalPages - 2)
                 then [totalPages] else []))%list)
      /\ StronglySorted Z.lt (page_buttons totalPages currentPage)
      /\ In currentPage (page_buttons totalPages currentPage)
      /\ In totalPages (page_buttons totalPages currentPage))
  /\ (forall pageNum,
         In pageNum (page_buttons totalPages currentPage) ->
         1 <= pageNum <= totalPages)
  /\ 1 <= previous_page currentPage <= totalPages
  /\ 1 <= next_page totalPages currentPage <= totalPages.
Proof.
  intros Hpage.
  assert (Hnav : 1 <= previous_page currentPage <= totalPages
                 /\ 1 <= next_page totalPages currentPage <= totalPages)
    by (unfold previous_page, next_page; lia).
  split; [intros ->; reflexivity|].
  unfold page_buttons, last_page_button.
  destruct (1 <? totalPages) eqn:Hmore;
    [apply Z.ltb_lt in Hmore
    |apply Z.ltb_ge in Hmore;
     split; [lia|]; split; [intros p []| exact Hnav]].
  destruct (Z.le_gt_cases totalPages 5) as [Hfew|Hmany].
  - rewrite (page_window_few totalPages currentPage) by lia.
    replace (5 <? totalPages) with false by (symmetry; apply Z.ltb_ge; lia).
    cbn [andb]. rewrite !app_nil_r.
    replace (Z.min 5 totalPages) with totalPages by lia.
    assert (Hin : forall p,
               In p (map (fun i => 1 + Z.of_nat i)
                       (seq 0 (Z.to_nat totalPages)))
               <-> 1 <= p <= totalPages).
    { intros p. rewrite in_map_iff. split.
      - intros (i & <- & Hi). apply in_seq in Hi. lia.
      - intros Hp. exists (Z.to_nat (p - 1)). split; [lia|].
        apply in_seq. lia. }
    split; [|split; [intros p Hp; now apply Hin | exact Hnav]].
    intros _. split; [exists 1; now rewrite ?app_nil_r|].
    split; [|split; apply Hin; lia].
    assert (Hcases : totalPages = 2 \/ totalPages = 3 \/ totalPages = 4
                     \/ totalPages = 5) by lia.
    destruct Hcases as [->|[->|[->| ->]]]; cbn;
      repeat (constructor; try lia).
  - destruct (page_window_many totalPages currentPage Hmany Hpage)
      as (Hwindow & Hfirst & Hcur & Hlast & Hgap).
    rewrite Hwindow. replace (Z.min 5 totalPages) with 5 by lia.
    change (Z.to_nat 5) with 5%nat.
    replace (5 <? totalPages) with true by (symmetry; apply Z.ltb_lt; lia).
    cbn [andb].
    set (first := if currentPage <=? 3 then 1
                  else if currentPage >=? totalPages - 2 then totalPages - 4
                  else currentPage - 2) in *.
    assert (Hin : forall p,
               In p (map (fun i => first + Z.of_nat i) (seq 0 5))
               <-> first <= p <= first + 4).
    { intros p. rewrite in_map_iff. split.
      - intros (i & <- & Hi). apply in_seq in Hi. lia.
      - intros Hp. exists (Z.to_nat (p - first)). split; [lia|].
        apply in_seq. lia. }
    split; [|split; [|exact Hnav]].
    + intros _. split; [eexists; reflexivity|]. split; [|split].
      * destruct (currentPage <? totalPages - 2) eqn:Hfar.
        -- apply Z.ltb_lt in Hfar. specialize (Hgap Hfar).
           cbn [seq map app]. repeat (constructor; try lia).
        -- cbn [seq map app]. repeat (constructor; try lia).
      * apply in_or_app. left. apply Hin. lia.
      * apply in_or_app.
        destruct (currentPage <? totalPages - 2) eqn:Hfar;
          [right; now left|].
        apply Z.ltb_ge in Hfar. left. apply Hin.
        subst first. destruct (currentPage <=? 3) eqn:H3;
          [apply Z.leb_le in H3; lia|].
        destruct (currentPage >=? totalPages - 2) eqn:Hend; [lia|].
        rewrite Z.geb_leb in Hend. apply Z.leb_gt in Hend. lia.
    + intros p Hp. apply in_app_or in Hp. destruct Hp as [Hp|Hp].
      * apply Hin in Hp. lia.
      * destruct (currentPage <? totalPages - 2); [|destruct Hp].
        destruct Hp as [<-|[]]. lia.
Qed.

Lemma page_buttons_stay_on_pages_witness :
  page_buttons 9 2 = [1; 2; 3; 4; 5; 9]
  /\ In 2 (page_buttons 9 2) /\ 1 <= next_page 9 2 <= 9.
Proof.
  assert (Hpage : 1 <= 2 <= 9) by lia.
  destruct (page_buttons_stay_on_pages 9 2 Hpage)
    as (_ & Hmore & _ & _ & Hnext).
  destruct (Hmore ltac:(lia)) as (_ & _ & Hin & _).
  split; [reflexivity|]. split; assumption.
Defined.

End CardGridFacts.
